(** * ylstack-on-edge: wallet ledger, order state machine, pricing engine and
    schema validator.

    A shallow embedding of
      - packages/core/services/wallet-manager.ts      (Module WalletManager)
      - packages/core/services/order-state-machine.ts (Modules OrderStateMachine
                                                       and OrderItemStateMachine)
      - the pricing engine                            (Module PricingEngine)
      - packages/core/services/schema-validator.ts    (Module SchemaValidator)
      - the service manager                           (Module ServiceManager)
      - the provider interface, the manual provider
        and the provider registry                     (Module Providers)
      - packages/core/services/order-manager.ts       (Module OrderManager)
      - the provider synchronisation                  (Module ProviderSync)
    followed by the properties of the specification that concern them and
    by further properties of the code.

    Conventions.  A TypeScript [number] that holds money or a quantity is an
    integer in minor units (the columns are [integer(...)] in
    shared/schema.ts) and is modelled as [Z]; [Math.floor(a / b)] for a
    positive [b] is [Z.div].  Optional properties are [option]s.  A function
    that throws (or an async function whose promise rejects) returns
    [Err e]; [new Date().toISOString()] is an explicit argument [now].

    The values a form carries are JavaScript values of any kind: a number
    there is an IEEE 754 double (Rocq's primitive [float]).  A string is
    held as the bytes of its (generalised) UTF-8 encoding, and [length]
    counts UTF-16 code units on them.  An object the code builds with [{}]
    and fills by assignment is the finite map of its own properties; an
    object the code only reads is the function from a key to the value the
    read returns, inherited members included.  Objects among the values
    of an input are plain data, as [JSON.parse] yields them (no accessor,
    no read-only property), or members inherited from [Object.prototype].
    These members, and the text a built-in function converts to, are
    those of V8 with an unmodified [Object.prototype]. *)

From Stdlib Require Import PrimFloat.
From Stdlib Require Uint63 FloatOps SpecFloat.
From Stdlib Require Import ZArith Lia Bool List String Ascii DecimalString.
From Stdlib Require Import Sorted Permutation.
From stdpp Require Import base option list strings gmap fin_maps.
Import ListNotations.

Local Open Scope string_scope.
Local Open Scope Z_scope.

(** ** Shared helpers *)

(** Outcome of code that may throw. *)
Inductive Result (E A : Type) : Type :=
| Ok (a : A)
| Err (e : E).
Arguments Ok {E A} a.
Arguments Err {E A} e.

Definition isOk {E A} (r : Result E A) : bool :=
  match r with Ok _ => true | Err _ => false end.

(** Sequencing of code that may throw: the first exception ends the
    computation. *)
Definition bind {E A B : Type} (r : Result E A) (k : A -> Result E B)
    : Result E B :=
  match r with
  | Ok a => k a
  | Err e => Err e
  end.

Local Notation "'let*' x ':=' r 'in' k" := (bind r (fun x => k))
  (at level 10, x name, r at level 100, k at level 200).

(** A [for ... of] loop whose body may throw; [st] is the state the body
    updates. *)
Fixpoint forEach {E S A : Type} (body : S -> A -> Result E S) (l : list A)
    (st : S) : Result E S :=
  match l with
  | [] => Ok st
  | a :: r => let* st' := body st a in forEach body r st'
  end.

(** [s || d] on an optional string: [undefined] and [''] are falsy. *)
Definition orDefault (s : option string) (d : string) : string :=
  match s with
  | Some x => if String.eqb x "" then d else x
  | None => d
  end.

(** [Array.prototype.find]. *)
Fixpoint jsFind {A : Type} (p : A -> bool) (l : list A) : option A :=
  match l with
  | [] => None
  | x :: r => if p x then Some x else jsFind p r
  end.

(** [Array.prototype.includes] on strings. *)
Fixpoint includes (l : list string) (s : string) : bool :=
  match l with
  | [] => false
  | x :: r => String.eqb x s || includes r s
  end.

(** *** Objects used as tables

    The own property names of [Object.prototype]: every object literal
    inherits these members, so [table[key]] finds a value for them even
    when the literal does not list the key. *)
Definition objectPrototypeMembers : list string :=
  [ "constructor"; "__defineGetter__"; "__defineSetter__"; "hasOwnProperty";
    "__lookupGetter__"; "__lookupSetter__"; "isPrototypeOf";
    "propertyIsEnumerable"; "toString"; "valueOf"; "__proto__";
    "toLocaleString" ].

Definition inherits (key : string) : bool := includes objectPrototypeMembers key.

(** [String(member)] for an inherited member: [__proto__] reads
    [Object.prototype] itself, [constructor] the function [Object], every
    other name the built-in function of that name. *)
Definition inheritedText (member : string) : string :=
  if String.eqb member "__proto__" then "[object Object]"
  else "function "
       ++ (if String.eqb member "constructor" then "Object" else member)
       ++ "() { [native code] }".

(** What a read [table[key]] of an object literal returns where the code
    expects an [A]: a value of the table, or a member inherited from
    [Object.prototype], which is no [A]. *)
Inductive OrInherited (A : Type) : Type :=
| Own (a : A)
| Inherited (member : string).
Arguments Own {A} a.
Arguments Inherited {A} member.

(** [table[key] || fallback], where [own] is the own property of the table
    under [key], if any, and [truthy] tells which values of the table are
    truthy.  An inherited member is an object or a function, hence
    truthy. *)
Definition lookupOr {A : Type} (truthy : A -> bool) (own : option A)
    (key : string) (fallback : A) : OrInherited A :=
  match own with
  | Some a => Own (if truthy a then a else fallback)
  | None => if inherits key then Inherited key else Own fallback
  end.

(** [o[key] = v] on an object created by [{}]: the key [__proto__] goes to
    the setter inherited from [Object.prototype], which changes the
    prototype of [o] (or does nothing) and creates no property; every
    other key becomes an own property. *)
Definition assign {A : Type} (key : string) (v : A) (o : gmap string A)
    : gmap string A :=
  if String.eqb key "__proto__" then o else <[key := v]> o.

(** ** wallet-manager.ts *)
Module WalletManager.

(** A row of the [transactions] table; [type] and [status] are text
    columns, so they are strings here. *)
Record Transaction : Type := mkTransaction {
  id : option string;
  tenantId : string;
  walletId : string;
  type : string;
  amount : Z;
  currency : string;
  status : string;
  referenceType : option string;
  referenceId : option string;
  parentTransactionId : option string;
  description : string;
  metadata : option (list (string * string));
  createdBy : string;
  createdAt : option string;
  completedAt : option string
}.

Record TransactionCreateInput : Type := mkInput {
  in_tenantId : string;
  in_walletId : string;
  in_type : string;
  in_amount : Z;
  in_currency : option string;
  in_referenceType : option string;
  in_referenceId : option string;
  in_description : option string;
  in_metadata : option (list (string * string));
  in_createdBy : string
}.

Record WalletBalance : Type := mkBalance {
  available : Z;
  locked : Z;
  total : Z;
  balanceCurrency : string
}.

Record WalletError : Type := mkWalletError {
  message : string;
  code : string
}.

(** One iteration of the [for (const tx of transactions)] loop of
    [calculateBalance], on the pair (available, locked). *)
Definition balanceStep (acc : Z * Z) (tx : Transaction) : Z * Z :=
  let '(av, lk) := acc in
  if negb (String.eqb (status tx) "completed") then acc
  else if String.eqb (type tx) "credit" then (av + amount tx, lk)
  else if String.eqb (type tx) "debit" then (av - amount tx, lk)
  else if String.eqb (type tx) "lock" then (av - amount tx, lk + amount tx)
  else if String.eqb (type tx) "unlock" then (av + amount tx, lk - amount tx)
  else if String.eqb (type tx) "refund" then (av + amount tx, lk)
  else acc.

Definition calculateBalance (transactions : list Transaction) : WalletBalance :=
  let '(av, lk) := fold_left balanceStep transactions (0, 0) in
  {| available := av;
     locked := lk;
     total := av + lk;
     balanceCurrency := orDefault (option_map currency (head transactions)) "USD" |}.

(** The object literal shared by the five operations; [id] and
    [createdAt] are left to the storage layer. *)
Definition mkTx (now : string) (input : TransactionCreateInput) (ty : string)
    (parent : option string) (defaultDescription : string) : Transaction :=
  {| id := None;
     tenantId := in_tenantId input;
     walletId := in_walletId input;
     type := ty;
     amount := in_amount input;
     currency := orDefault (in_currency input) "USD";
     status := "completed";
     referenceType := in_referenceType input;
     referenceId := in_referenceId input;
     parentTransactionId := parent;
     description := orDefault (in_description input) defaultDescription;
     metadata := in_metadata input;
     createdBy := in_createdBy input;
     createdAt := None;
     completedAt := Some now |}.

Definition credit (now : string) (input : TransactionCreateInput)
    : Result WalletError Transaction :=
  if in_amount input <=? 0 then
    Err (mkWalletError "Credit amount must be positive" "INVALID_AMOUNT")
  else Ok (mkTx now input "credit" None "Wallet credit").

Definition debit (now : string) (input : TransactionCreateInput)
    (currentBalance : WalletBalance) : Result WalletError Transaction :=
  if in_amount input <=? 0 then
    Err (mkWalletError "Debit amount must be positive" "INVALID_AMOUNT")
  else if available currentBalance <? in_amount input then
    Err (mkWalletError "Insufficient balance" "INSUFFICIENT_BALANCE")
  else Ok (mkTx now input "debit" None "Wallet debit").

Definition lock (now : string) (input : TransactionCreateInput)
    (currentBalance : WalletBalance) : Result WalletError Transaction :=
  if in_amount input <=? 0 then
    Err (mkWalletError "Lock amount must be positive" "INVALID_AMOUNT")
  else if available currentBalance <? in_amount input then
    Err (mkWalletError "Insufficient balance to lock" "INSUFFICIENT_BALANCE")
  else Ok (mkTx now input "lock" None "Funds locked").

Definition unlock (now : string) (input : TransactionCreateInput)
    (lockTransactionId : string) (currentBalance : WalletBalance)
    : Result WalletError Transaction :=
  if in_amount input <=? 0 then
    Err (mkWalletError "Unlock amount must be positive" "INVALID_AMOUNT")
  else if locked currentBalance <? in_amount input then
    Err (mkWalletError "Insufficient locked balance" "INSUFFICIENT_LOCKED_BALANCE")
  else Ok (mkTx now input "unlock" (Some lockTransactionId) "Funds unlocked").

Definition refund (now : string) (input : TransactionCreateInput)
    (originalTransactionId : string) : Result WalletError Transaction :=
  if in_amount input <=? 0 then
    Err (mkWalletError "Refund amount must be positive" "INVALID_AMOUNT")
  else Ok (mkTx now input "refund" (Some originalTransactionId) "Refund").

(** The input literal built by the order-payment helpers. *)
Definition orderInput (walletId tenantId orderId : string) (ty : string)
    (amount : Z) (descr : string) (userId : string) : TransactionCreateInput :=
  {| in_tenantId := tenantId;
     in_walletId := walletId;
     in_type := ty;
     in_amount := amount;
     in_currency := None;
     in_referenceType := Some "order";
     in_referenceId := Some orderId;
     in_description := Some (descr ++ orderId);
     in_metadata := None;
     in_createdBy := userId |}.

Definition processOrderPayment (now : string) (walletId tenantId orderId : string)
    (amount : Z) (userId : string) (currentBalance : WalletBalance)
    : Result WalletError Transaction :=
  lock now
    (orderInput walletId tenantId orderId "lock" amount "Payment for order " userId)
    currentBalance.

(** Two clock readings: one per entry. *)
Definition completeOrderPayment (now1 now2 : string)
    (walletId tenantId orderId : string) (amount : Z)
    (lockTransactionId userId : string) (currentBalance : WalletBalance)
    : Result WalletError (Transaction * Transaction) :=
  match unlock now1
          (orderInput walletId tenantId orderId "unlock" amount "Unlock for order " userId)
          lockTransactionId currentBalance with
  | Err e => Err e
  | Ok u =>
    match debit now2
            (orderInput walletId tenantId orderId "debit" amount "Payment for order " userId)
            {| available := available currentBalance + amount;
               locked := locked currentBalance;
               total := total currentBalance;
               balanceCurrency := balanceCurrency currentBalance |} with
    | Err e => Err e
    | Ok d => Ok (u, d)
    end
  end.

Definition cancelOrderPayment (now : string) (walletId tenantId orderId : string)
    (amount : Z) (lockTransactionId userId : string)
    (currentBalance : WalletBalance) : Result WalletError Transaction :=
  unlock now
    (orderInput walletId tenantId orderId "unlock" amount "Cancelled order " userId)
    lockTransactionId currentBalance.

Definition refundOrder (now : string) (walletId tenantId orderId : string)
    (amount : Z) (originalTransactionId userId : string)
    : Result WalletError Transaction :=
  refund now
    (orderInput walletId tenantId orderId "refund" amount "Refund for order " userId)
    originalTransactionId.

(** *** The ledger formula, as the specification words it *)

(** Sum of the amounts of the completed entries of type [ty]. *)
Fixpoint sumOf (ty : string) (txs : list Transaction) : Z :=
  match txs with
  | [] => 0
  | tx :: r =>
    (if String.eqb (status tx) "completed" && String.eqb (type tx) ty
     then amount tx else 0) + sumOf ty r
  end.

Definition availableSpec (txs : list Transaction) : Z :=
  sumOf "credit" txs - sumOf "debit" txs - sumOf "lock" txs
  + sumOf "unlock" txs + sumOf "refund" txs.

Definition lockedSpec (txs : list Transaction) : Z :=
  sumOf "lock" txs - sumOf "unlock" txs.

(** What the specification says of an entry emitted by operation [op] for
    [amt] at time [now]; accepted amounts are positive, so the entry
    changes the balance [calculateBalance] derives. *)
Definition Emitted (op : string) (amt : Z) (now : string) (tx : Transaction)
    : Prop :=
  status tx = "completed" /\ type tx = op /\ amount tx = amt
  /\ completedAt tx = Some now
  /\ forall acc, balanceStep acc tx <> acc.

(** A sample ledger and order, used to instantiate the results below. *)
Definition sampleCredit : Transaction :=
  mkTransaction (Some "tx-1") "t1" "w1" "credit" 5000 "USD" "completed"
                None None None "Wallet credit" None "u1"
                (Some "2024-01-01T00:00:00.000Z")
                (Some "2024-01-01T00:00:00.000Z").

Definition sampleInput (ty : string) (amt : Z) : TransactionCreateInput :=
  mkInput "t1" "w1" ty amt None None None None None "u1".

(** *** The remaining helpers of [WalletManager] *)

Record TransactionValidation : Type := mkTransactionValidation {
  txValid : bool;
  txErrors : option (list string)
}.

(** [validateTransaction]: [!transaction.walletId] and [!transaction.type]
    hold of the empty string. *)
Definition validateTransaction (transaction : Transaction)
    : TransactionValidation :=
  let errs :=
    ((if amount transaction <=? 0
      then ["Transaction amount must be positive"] else [])
     ++ (if String.eqb (walletId transaction) ""
         then ["Wallet ID is required"] else [])
     ++ (if String.eqb (type transaction) ""
         then ["Transaction type is required"] else []))%list in
  {| txValid := match errs with [] => true | _ => false end;
     txErrors := match errs with [] => None | _ => Some errs end |}.

Definition filterTransactionsByType (transactions : list Transaction)
    (ty : string) : list Transaction :=
  List.filter (fun tx => String.eqb (type tx) ty) transactions.

Definition getPendingTransactions (transactions : list Transaction)
    : list Transaction :=
  List.filter (fun tx => String.eqb (status tx) "pending") transactions.

Definition getCompletedTransactions (transactions : list Transaction)
    : list Transaction :=
  List.filter (fun tx => String.eqb (status tx) "completed") transactions.

(** The entry an operation returned, for any of the five operations run
    against the balance of [txs]. *)
Definition Accepted (now : string) (input : TransactionCreateInput)
    (ref : string) (txs : list Transaction) (tx : Transaction) : Prop :=
  credit now input = Ok tx
  \/ debit now input (calculateBalance txs) = Ok tx
  \/ lock now input (calculateBalance txs) = Ok tx
  \/ unlock now input ref (calculateBalance txs) = Ok tx
  \/ refund now input ref = Ok tx.

End WalletManager.

(** ** order-state-machine.ts *)
Module OrderStateMachine.

Inductive OrderStatus : Type :=
| pending
| payment_confirmed
| approved
| processing
| delivered
| failed
| refunded
| cancelled.

Definition OrderStatus_eqb (a b : OrderStatus) : bool :=
  match a, b with
  | pending, pending
  | payment_confirmed, payment_confirmed
  | approved, approved
  | processing, processing
  | delivered, delivered
  | failed, failed
  | refunded, refunded
  | cancelled, cancelled => true
  | _, _ => false
  end.

(** The string a status is in the source (used in the reasons). *)
Definition statusName (s : OrderStatus) : string :=
  match s with
  | pending => "pending"
  | payment_confirmed => "payment_confirmed"
  | approved => "approved"
  | processing => "processing"
  | delivered => "delivered"
  | failed => "failed"
  | refunded => "refunded"
  | cancelled => "cancelled"
  end.

Record StateTransition : Type := mkTransition {
  from : OrderStatus;
  to : OrderStatus;
  requiresRole : option (list string);
  requiresApproval : option bool
}.

Record TransitionResult : Type := mkResult {
  allowed : bool;
  reason : option string
}.

Definition edge (a b : OrderStatus) : StateTransition :=
  mkTransition a b None None.

Definition adminEdge (a b : OrderStatus) : StateTransition :=
  mkTransition a b (Some ["super_admin"; "admin"]) None.

Definition transitions : list StateTransition :=
  [ (* Initial transitions *)
    edge pending payment_confirmed;
    edge pending cancelled;
    (* Payment confirmed transitions *)
    adminEdge payment_confirmed approved;
    edge payment_confirmed processing;
    adminEdge payment_confirmed cancelled;
    (* Approved transitions *)
    edge approved processing;
    adminEdge approved cancelled;
    (* Processing transitions *)
    edge processing delivered;
    edge processing failed;
    (* Failed transitions *)
    edge failed processing;
    adminEdge failed refunded;
    adminEdge failed cancelled;
    (* Delivered transitions *)
    adminEdge delivered refunded ].

(** Truthiness of the optional [userRole] argument: [undefined] and the
    empty string are falsy. *)
Definition roleGiven (userRole : option string) : option string :=
  match userRole with
  | Some r => if String.eqb r "" then None else Some r
  | None => None
  end.

Definition canTransition (a b : OrderStatus) (userRole : option string)
    : TransitionResult :=
  if OrderStatus_eqb a b then mkResult true None
  else
    match jsFind (fun t => OrderStatus_eqb (from t) a && OrderStatus_eqb (to t) b)
                 transitions with
    | None =>
      mkResult false
        (Some ("Transition from '" ++ statusName a ++ "' to '" ++ statusName b
               ++ "' is not allowed"))
    | Some transition =>
      match requiresRole transition, roleGiven userRole with
      | Some roles, Some r =>
        if negb (includes roles r) then
          mkResult false (Some ("Role '" ++ r ++ "' cannot perform this transition"))
        else mkResult true None
      | _, _ => mkResult true None
      end
    end.

Definition isTerminalState (s : OrderStatus) : bool :=
  match s with
  | delivered | refunded | cancelled => true
  | _ => false
  end.

(** A rejection: not allowed, with a reason that is not the empty string. *)
Definition Rejected (r : TransitionResult) : Prop :=
  allowed r = false /\ exists why, reason r = Some why /\ why <> "".

(** *** The remaining functions of [OrderStateMachine] *)

Definition getAvailableTransitions (currentStatus : OrderStatus)
    (userRole : option string) : list OrderStatus :=
  List.map to
    (List.filter
       (fun t => match requiresRole t, roleGiven userRole with
                 | Some roles, Some r => includes roles r
                 | _, _ => true
                 end)
       (List.filter (fun t => OrderStatus_eqb (from t) currentStatus)
                    transitions)).

(** [canTransition] when the value passed as [to] may be no status at all
    but a member inherited from [Object.prototype]: such a value equals no
    state and no edge of the table leads to it. *)
Definition canTransitionTo (a : OrderStatus) (b : OrInherited OrderStatus)
    (userRole : option string) : TransitionResult :=
  match b with
  | Own s => canTransition a s userRole
  | Inherited member =>
    mkResult false
      (Some ("Transition from '" ++ statusName a ++ "' to '"
             ++ inheritedText member ++ "' is not allowed"))
  end.

(** The static method [requiresApproval] (the name is taken by the field
    of [StateTransition]). *)
Definition statusRequiresApproval (s : OrderStatus) : bool :=
  OrderStatus_eqb s payment_confirmed.

Definition getAllStates : list OrderStatus :=
  [pending; payment_confirmed; approved; processing; delivered; failed;
   refunded; cancelled].

(** One change of status the machine lets the caller make. *)
Definition moves (userRole : option string) (s t : OrderStatus) : Prop :=
  s <> t /\ allowed (canTransition s t userRole) = true.

(** A caller who gives a role that is not an administrator's. *)
Definition plainRole (userRole : option string) : Prop :=
  exists r, userRole = Some r /\ r <> ""
            /\ includes ["super_admin"; "admin"] r = false.

End OrderStateMachine.

(** The machine of the items of a bulk order. *)
Module OrderItemStateMachine.

Inductive OrderItemStatus : Type :=
| pending
| processing
| delivered
| failed.

Definition OrderItemStatus_eqb (a b : OrderItemStatus) : bool :=
  match a, b with
  | pending, pending
  | processing, processing
  | delivered, delivered
  | failed, failed => true
  | _, _ => false
  end.

Definition statusName (s : OrderItemStatus) : string :=
  match s with
  | pending => "pending"
  | processing => "processing"
  | delivered => "delivered"
  | failed => "failed"
  end.

Definition transitions : list (OrderItemStatus * OrderItemStatus) :=
  [ (pending, processing);
    (processing, delivered);
    (processing, failed);
    (failed, processing) (* Retry *) ].

Definition canTransition (a b : OrderItemStatus)
    : OrderStateMachine.TransitionResult :=
  if OrderItemStatus_eqb a b then OrderStateMachine.mkResult true None
  else
    match jsFind (fun t => OrderItemStatus_eqb (fst t) a
                           && OrderItemStatus_eqb (snd t) b) transitions with
    | None =>
      OrderStateMachine.mkResult false
        (Some ("Item transition from '" ++ statusName a ++ "' to '"
               ++ statusName b ++ "' is not allowed"))
    | Some _ => OrderStateMachine.mkResult true None
    end.

Definition getAvailableTransitions (currentStatus : OrderItemStatus)
    : list OrderItemStatus :=
  List.map snd
    (List.filter (fun t => OrderItemStatus_eqb (fst t) currentStatus)
                 transitions).

Definition isTerminalState (s : OrderItemStatus) : bool :=
  OrderItemStatus_eqb s delivered || OrderItemStatus_eqb s failed.

End OrderItemStateMachine.

(** ** The pricing engine *)
Module PricingEngine.

Inductive MarkupType : Type := fixed | percentage | tiered.

(** An element of [TierConfig.tiers]; its [markupValue] is
    [tierMarkupValue] here. *)
Record Tier : Type := mkTier {
  minQuantity : Z;
  maxQuantity : option Z;
  tierMarkupValue : Z
}.

Record TierConfig : Type := mkTierConfig {
  tiers : list Tier
}.

Record PricingRule : Type := mkRule {
  id : string;
  serviceId : string;
  role : string;
  markupType : MarkupType;
  markupValue : Z;
  minProfit : option Z;
  maxProfit : option Z;
  tierConfig : option TierConfig
}.

Record PriceCalculation : Type := mkPrice {
  baseCost : Z;
  markup : Z;
  totalAmount : Z;
  profit : Z;
  priceCurrency : string;
  appliedRule : option PricingRule
}.

(** [Math.floor((baseCost * value) / 10000)]. *)
Definition bps (baseCost value : Z) : Z := (baseCost * value) / 10000.

(** [calculateTieredMarkup]; reading [firstTier.markupValue] of an empty
    [tiers] array throws a TypeError. *)
Definition calculateTieredMarkup (baseCost : Z) (cfg : TierConfig) (quantity : Z)
    : Result string Z :=
  match jsFind (fun t =>
                  let meetsMin := minQuantity t <=? quantity in
                  let meetsMax := match maxQuantity t with
                                  | None => true
                                  | Some m => quantity <=? m
                                  end in
                  meetsMin && meetsMax) (tiers cfg) with
  | None =>
    match tiers cfg with
    | [] => Err "TypeError"
    | firstTier :: _ => Ok (bps baseCost (tierMarkupValue firstTier))
    end
  | Some tier => Ok (bps baseCost (tierMarkupValue tier))
  end.

(** The two [if]s under "Apply profit limits". *)
Definition applyLimits (rule : PricingRule) (markup : Z) : Z :=
  let m1 := match minProfit rule with
            | Some mn => if markup <? mn then mn else markup
            | None => markup
            end in
  match maxProfit rule with
  | Some mx => if mx <? m1 then mx else m1
  | None => m1
  end.

(** [quantity] and [currency] default to 1 and 'USD' in the source; here
    the caller always passes them. *)
Definition calculatePrice (baseCost : Z) (rules : list PricingRule)
    (userRole : string) (quantity : Z) (currency : string)
    : Result string PriceCalculation :=
  match jsFind (fun r => String.eqb (role r) userRole) rules with
  | None =>
    Ok {| baseCost := baseCost; markup := 0; totalAmount := baseCost * quantity;
          profit := 0; priceCurrency := currency; appliedRule := None |}
  | Some rule =>
    let raw : Result string Z :=
      match markupType rule with
      | fixed => Ok (markupValue rule)
      | percentage => Ok (bps baseCost (markupValue rule))
      | tiered =>
        match tierConfig rule with
        | Some cfg => calculateTieredMarkup baseCost cfg quantity
        | None => Ok 0
        end
      end in
    match raw with
    | Err e => Err e
    | Ok m0 =>
      let markup := applyLimits rule m0 in
      Ok {| baseCost := baseCost; markup := markup;
            totalAmount := (baseCost + markup) * quantity;
            profit := markup * quantity;
            priceCurrency := currency; appliedRule := Some rule |}
    end
  end.

Record Member : Type := mkMember {
  memberRole : string;
  userId : string
}.

Record Share : Type := mkShare {
  shareUserId : string;
  shareRole : string;
  shareProfit : Z
}.

(** Body of the [for] loop of [calculateProfitDistribution]; the state is
    the pair ([distribution], [remainingProfit]). *)
Definition distributeStep (baseCost : Z) (rules : list PricingRule)
    (st : list Share * Z) (m : Member) : list Share * Z :=
  let '(distribution, remainingProfit) := st in
  match jsFind (fun r => String.eqb (role r) (memberRole m)) rules with
  | None => ((distribution ++ [mkShare (userId m) (memberRole m) 0])%list, remainingProfit)
  | Some rule =>
    if remainingProfit <=? 0 then
      ((distribution ++ [mkShare (userId m) (memberRole m) 0])%list, remainingProfit)
    else
      let p0 := match markupType rule with
                | fixed => Z.min (markupValue rule) remainingProfit
                | percentage => Z.min (bps baseCost (markupValue rule)) remainingProfit
                | tiered => 0
                end in
      let p1 := match minProfit rule with
                | Some mn => if p0 <? mn then Z.min mn remainingProfit else p0
                | None => p0
                end in
      let roleProfit := match maxProfit rule with
                        | Some mx => if mx <? p1 then mx else p1
                        | None => p1
                        end in
      ((distribution ++ [mkShare (userId m) (memberRole m) roleProfit])%list,
       remainingProfit - roleProfit)
  end.

(** The loop runs from the last index down to 0, then the array is
    reversed. *)
Definition calculateProfitDistribution (baseCost finalPrice : Z)
    (roleHierarchy : list Member) (rules : list PricingRule) : list Share :=
  rev (fst (fold_left (distributeStep baseCost rules) (rev roleHierarchy)
                      ([], finalPrice - baseCost))).

(** [tiers.sort((a, b) => a.minQuantity - b.minQuantity)]: a stable sort
    by [minQuantity], in place. *)
Fixpoint insertTier (t : Tier) (l : list Tier) : list Tier :=
  match l with
  | [] => [t]
  | x :: r => if minQuantity t <? minQuantity x then t :: x :: r
              else x :: insertTier t r
  end.

Definition sortTiers (l : list Tier) : list Tier :=
  fold_left (fun acc t => insertTier t acc) l [].

(** The overlap loop, which stops at the first overlap. *)
Fixpoint tiersOverlap (l : list Tier) : bool :=
  match l with
  | current :: ((next :: _) as r) =>
    match maxQuantity current with
    | Some m => if negb (m =? 0) && (next.(minQuantity) <=? m) then true
                else tiersOverlap r
    | None => tiersOverlap r
    end
  | _ => false
  end.

Record RuleValidation : Type := mkValidation {
  valid : bool;
  errors : option (list string)
}.

Definition validateRuleErrors (rule : PricingRule) : list string :=
  ((if markupValue rule <? 0 then ["Markup value cannot be negative"] else [])
  ++ (match markupType rule with
      | percentage =>
        if 10000 <? markupValue rule
        then ["Percentage markup cannot exceed 100% (10000 basis points)"] else []
      | _ => []
      end)
  ++ (match minProfit rule, maxProfit rule with
      | Some mn, Some mx =>
        if mx <? mn then ["Minimum profit cannot exceed maximum profit"] else []
      | _, _ => []
      end)
  ++ (match markupType rule with
      | tiered =>
        match tierConfig rule with
        | None => ["Tiered markup requires tier configuration"]
        | Some cfg =>
          match tiers cfg with
          | [] => ["Tiered markup requires tier configuration"]
          | _ => if tiersOverlap (sortTiers (tiers cfg))
                 then ["Tier ranges cannot overlap"] else []
          end
        end
      | _ => []
      end))%list.

(** The rule as [validateRule] leaves it: the tiers of a tiered rule are
    sorted in place. *)
Definition ruleAfterValidation (rule : PricingRule) : PricingRule :=
  match markupType rule, tierConfig rule with
  | tiered, Some cfg =>
    match tiers cfg with
    | [] => rule
    | _ =>
      {| id := id rule; serviceId := serviceId rule; role := role rule;
         markupType := markupType rule; markupValue := markupValue rule;
         minProfit := minProfit rule; maxProfit := maxProfit rule;
         tierConfig := Some (mkTierConfig (sortTiers (tiers cfg))) |}
    end
  | _, _ => rule
  end.

(** Returns the result together with the (mutated) rule. *)
Definition validateRule (rule : PricingRule) : RuleValidation * PricingRule :=
  let errs := validateRuleErrors rule in
  ({| valid := match errs with [] => true | _ => false end;
      errors := match errs with [] => None | _ => Some errs end |},
   ruleAfterValidation rule).

(** *** Specification-side definitions *)

(** The clamp as the specification words it: raise to [min_profit], then
    cap at [max_profit]. *)
Definition clampSpec (mn mx : option Z) (m : Z) : Z :=
  let raised := match mn with Some a => Z.max m a | None => m end in
  match mx with Some b => Z.min raised b | None => raised end.

(** A rule whose markup value and profit bounds are non-negative. *)
Definition ruleNonneg (r : PricingRule) : Prop :=
  0 <= markupValue r
  /\ (forall m, minProfit r = Some m -> 0 <= m)
  /\ (forall m, maxProfit r = Some m -> 0 <= m).

Fixpoint sumProfit (l : list Share) : Z :=
  match l with
  | [] => 0
  | s :: r => shareProfit s + sumProfit r
  end.

Definition sampleRule (ty : MarkupType) (value : Z) (mn mx : option Z)
    : PricingRule :=
  mkRule "rule-1" "service-1" "reseller" ty value mn mx None.

Definition sampleRule' (forRole : string) (ty : MarkupType) (value : Z)
    (mn mx : option Z) : PricingRule :=
  mkRule "rule-0" "service-1" forRole ty value mn mx None.

(** The order [validateRule] sorts the tiers by. *)
Definition tierLe (a b : Tier) : Prop := minQuantity a <= minQuantity b.

(** No overlap between neighbours: a tier with a (non-zero) upper bound
    ends before the next one starts. *)
Definition tiersDisjoint (l : list Tier) : Prop :=
  forall (i : nat) (a b : Tier) (m : Z),
    l !! i = Some a -> l !! S i = Some b ->
    maxQuantity a = Some m -> m <> 0 -> m < minQuantity b.

End PricingEngine.

(** ** schema-validator.ts *)
Module SchemaValidator.

(** A JavaScript number. *)
Definition JsNum : Type := PrimFloat.float.

Definition NaN : JsNum := PrimFloat.nan.

(** The number an integer literal denotes (an integer below 2^63 in
    absolute value, rounded to the nearest double). *)
Definition Num (z : Z) : JsNum :=
  if z <? 0 then PrimFloat.opp (PrimFloat.of_uint63 (Uint63.of_Z (- z)))
  else PrimFloat.of_uint63 (Uint63.of_Z z).

(** What the validator can observe of a value that is none of undefined,
    null, a boolean, a number or a string (an object, an array, a function,
    a symbol, a bigint): whether it is an object, whether it is truthy, and
    what [Number(value)] and [String(value)] return.  Either conversion may
    throw. *)
Record Exotic : Type := mkExotic {
  isObject : bool;
  truthy : bool;
  toNumber : Result string JsNum;
  toText : Result string string
}.

Inductive JsValue : Type :=
| JUndefined
| JNull
| JBool (b : bool)
| JNumber (n : JsNum)
| JString (s : string)
| JOther (o : Exotic).

(** The object the validator reads: [input k] is what [input[k]] returns. *)
Definition JsInput : Type := string -> JsValue.

(** The value of a member inherited from [Object.prototype]: a built-in
    function, or [Object.prototype] itself for [__proto__]. *)
Definition inheritedValue (member : string) : JsValue :=
  JOther {| isObject := true; truthy := true; toNumber := Ok NaN;
            toText := Ok (inheritedText member) |}.

(** An object literal (or the result of [JSON.parse]) with the own
    properties [own]. *)
Definition plainObject (own : gmap string JsValue) : JsInput :=
  fun k =>
    match own !! k with
    | Some v => v
    | None => if inherits k then inheritedValue k else JUndefined
    end.

Inductive FieldType : Type :=
| text | number | email | file | select | textarea | checkbox.

Record Validation : Type := mkValidationRules {
  pattern : option string;
  minLength : option JsNum;
  maxLength : option JsNum;
  min : option JsNum;
  max : option JsNum;
  options : option (list string);
  unique : option bool;
  custom : option string
}.

Record FieldSchema : Type := mkField {
  name : string;
  type : FieldType;
  label : string;
  required : bool;
  placeholder : option string;
  description : option string;
  validation : option Validation
}.

Record ServiceInputSchema : Type := mkSchema {
  fields : list FieldSchema
}.

(** [errors] and [data] are the own properties of the two objects. *)
Record ValidationResult : Type := mkValidationResult {
  valid : bool;
  errors : option (gmap string (list string));
  data : option (gmap string JsValue)
}.

Definition isNaN (n : JsNum) : bool := PrimFloat.is_nan n.

(** [a < b] and [a > b] on numbers. *)
Definition numLt (a b : JsNum) : bool := PrimFloat.ltb a b.

Definition numGt (a b : JsNum) : bool := PrimFloat.ltb b a.

(** Truthiness of a number: 0, -0 and [NaN] are falsy. *)
Definition numTruthy (n : JsNum) : bool := negb (PrimFloat.is_zero n || PrimFloat.is_nan n).

(** The code units one byte of a UTF-8 string stands for: a byte that
    starts a character counts one, or two when the character lies outside
    the Basic Multilingual Plane (a four-byte sequence); a continuation
    byte counts none. *)
Definition codeUnits (c : ascii) : nat :=
  let n := nat_of_ascii c in
  if Nat.ltb n 128 then 1%nat
  else if Nat.ltb n 192 then 0%nat
  else if Nat.ltb n 240 then 1%nat
  else 2%nat.

(** [value.length]. *)
Fixpoint jsLength (s : string) : nat :=
  match s with
  | EmptyString => 0%nat
  | String c r => (codeUnits c + jsLength r)%nat
  end.

Definition lengthOf (s : string) : JsNum := Num (Z.of_nat (jsLength s)).

(** [value === undefined || value === null || value === '']. *)
Definition isEmpty (value : JsValue) : bool :=
  match value with
  | JUndefined | JNull => true
  | JString s => String.eqb s ""
  | _ => false
  end.

(** [typeof value === 'number'] and [typeof value === 'string']. *)
Definition isNumber (value : JsValue) : bool :=
  match value with JNumber _ => true | _ => false end.

Definition isString (value : JsValue) : bool :=
  match value with JString _ => true | _ => false end.

(** [Boolean(value)]. *)
Definition Boolean (value : JsValue) : bool :=
  match value with
  | JUndefined | JNull => false
  | JBool b => b
  | JNumber n => numTruthy n
  | JString s => negb (String.eqb s "")
  | JOther o => truthy o
  end.

(** [options.join(', ')]. *)
Fixpoint join (sep : string) (l : list string) : string :=
  match l with
  | [] => ""
  | [x] => x
  | x :: r => x ++ sep ++ join sep r
  end.

Section Validator.

(** The services of the JavaScript runtime the validator calls:
    [new RegExp(pattern).test(s)], which throws a [SyntaxError] on a
    pattern that is no regular expression, the conversion of a string to
    a number, and the conversion of a number to a string. *)
Variable regexTest : string -> string -> Result string bool.
Variable stringToNumber : string -> JsNum.
Variable numberToString : JsNum -> string.

(** [Number(value)]. *)
Definition Number_ (value : JsValue) : Result string JsNum :=
  match value with
  | JUndefined => Ok NaN
  | JNull => Ok (Num 0)
  | JBool true => Ok (Num 1)
  | JBool false => Ok (Num 0)
  | JNumber n => Ok n
  | JString s => Ok (stringToNumber s)
  | JOther o => toNumber o
  end.

(** [String(value)]. *)
Definition String_ (value : JsValue) : Result string string :=
  match value with
  | JUndefined => Ok "undefined"
  | JNull => Ok "null"
  | JBool true => Ok "true"
  | JBool false => Ok "false"
  | JNumber n => Ok (numberToString n)
  | JString s => Ok s
  | JOther o => toText o
  end.

Definition isValidEmail (s : string) : Result string bool :=
  regexTest "^[^\s@]+@[^\s@]+\.[^\s@]+$" s.

(** The [switch (field.type)]: the errors it pushes and the value it
    stores in [data]. *)
Definition typeCheck (field : FieldSchema) (value : JsValue)
    : Result string (list string * option JsValue) :=
  match type field with
  | number =>
    let* notANumber :=
      if isNumber value then Ok false
      else let* n := Number_ value in Ok (isNaN n) in
    if notANumber then Ok ([label field ++ " must be a number"], None)
    else let* n := Number_ value in Ok ([], Some (JNumber n))
  | email =>
    match value with
    | JString s =>
      let* wellFormed := isValidEmail s in
      if wellFormed then Ok ([], Some value)
      else Ok ([label field ++ " must be a valid email"], None)
    | _ => Ok ([label field ++ " must be a valid email"], None)
    end
  | checkbox => Ok ([], Some (JBool (Boolean value)))
  | _ => Ok ([], Some value)
  end.

(** The block "Additional validation rules", one definition per [if]. *)
Definition patternErrors (field : FieldSchema) (v : Validation) (value : JsValue)
    : Result string (list string) :=
  match pattern v, value with
  | Some p, JString s =>
    if String.eqb p "" then Ok []
    else
      let* matches := regexTest p s in
      Ok (if matches then [] else [label field ++ " format is invalid"])
  | _, _ => Ok []
  end.

Definition minLengthErrors (field : FieldSchema) (v : Validation) (value : JsValue)
    : list string :=
  match minLength v, value with
  | Some n, JString s =>
    if numTruthy n && numLt (lengthOf s) n
    then [label field ++ " must be at least " ++ numberToString n
          ++ " characters"]
    else []
  | _, _ => []
  end.

Definition maxLengthErrors (field : FieldSchema) (v : Validation) (value : JsValue)
    : list string :=
  match maxLength v, value with
  | Some n, JString s =>
    if numTruthy n && numGt (lengthOf s) n
    then [label field ++ " must be at most " ++ numberToString n
          ++ " characters"]
    else []
  | _, _ => []
  end.

Definition minErrors (field : FieldSchema) (v : Validation) (value : JsValue)
    : Result string (list string) :=
  match min v with
  | Some k =>
    let* n := Number_ value in
    Ok (if numLt n k
        then [label field ++ " must be at least " ++ numberToString k]
        else [])
  | None => Ok []
  end.

Definition maxErrors (field : FieldSchema) (v : Validation) (value : JsValue)
    : Result string (list string) :=
  match max v with
  | Some k =>
    let* n := Number_ value in
    Ok (if numGt n k
        then [label field ++ " must be at most " ++ numberToString k]
        else [])
  | None => Ok []
  end.

Definition optionsErrors (field : FieldSchema) (v : Validation) (value : JsValue)
    : Result string (list string) :=
  match options v with
  | Some opts =>
    let* s := String_ value in
    Ok (if includes opts s then []
        else [label field ++ " must be one of: " ++ join ", " opts])
  | None => Ok []
  end.

Definition ruleErrors (field : FieldSchema) (v : Validation) (value : JsValue)
    : Result string (list string) :=
  let* e1 := patternErrors field v value in
  let e2 := minLengthErrors field v value in
  let e3 := maxLengthErrors field v value in
  let* e4 := minErrors field v value in
  let* e5 := maxErrors field v value in
  let* e6 := optionsErrors field v value in
  Ok (e1 ++ e2 ++ e3 ++ e4 ++ e5 ++ e6)%list.

(** The body of the loop for one field: its final [fieldErrors] and the
    value assigned to [data[field.name]], if any. *)
Definition validateField (field : FieldSchema) (value : JsValue)
    : Result string (list string * option JsValue) :=
  if required field && isEmpty value then
    Ok ([label field ++ " is required"], None)
  else if negb (required field) && isEmpty value then
    Ok ([], None)
  else
    let* checked := typeCheck field value in
    match validation field, fst checked with
    | Some v, [] =>
      let* fieldErrors := ruleErrors field v value in
      Ok (fieldErrors, snd checked)
    | _, _ => Ok checked
    end.

Definition validateStep (input : JsInput)
    (st : gmap string (list string) * gmap string JsValue)
    (field : FieldSchema)
    : Result string (gmap string (list string) * gmap string JsValue) :=
  let* outcome := validateField field (input (name field)) in
  Ok (match fst outcome with
      | [] => fst st
      | fieldErrors => assign (name field) fieldErrors (fst st)
      end,
      match snd outcome with
      | Some v => assign (name field) v (snd st)
      | None => snd st
      end).

Definition validate (schema : ServiceInputSchema) (input : JsInput)
    : Result string ValidationResult :=
  let* st := forEach (validateStep input) (fields schema) (∅, ∅) in
  Ok {| valid := Nat.eqb (size (fst st)) 0;
        errors := if Nat.ltb 0 (size (fst st)) then Some (fst st) else None;
        data := if Nat.eqb (size (fst st)) 0 then Some (snd st) else None |}.

(** What the loop body does for field [f] on [input]. *)
Definition fieldOutcome (input : JsInput) (f : FieldSchema)
    : Result string (list string * option JsValue) :=
  validateField f (input (name f)).

(** The value the [switch (field.type)] stores for a value that passes
    it. *)
Definition normalized (f : FieldSchema) (value : JsValue)
    : Result string JsValue :=
  match type f with
  | number => let* n := Number_ value in Ok (JNumber n)
  | checkbox => Ok (JBool (Boolean value))
  | _ => Ok value
  end.

End Validator.

Definition exampleIMEISchema : ServiceInputSchema :=
  {| fields :=
       [ {| name := "imei"; type := text; label := "IMEI Number";
            required := true;
            placeholder := Some "123456789012345";
            description := Some "15-digit IMEI number";
            validation :=
              Some {| pattern := Some "^[0-9]{15}$";
                      minLength := Some (Num 15); maxLength := Some (Num 15);
                      min := None; max := None; options := None;
                      unique := None; custom := None |} |};
         {| name := "model"; type := text; label := "Device Model";
            required := false;
            placeholder := Some "iPhone 14 Pro";
            description := None;
            validation := None |} ] |}.

(** The errors and the stored value of a field whose check returns. *)
Definition errorsOfOutcome (o : Result string (list string * option JsValue))
    : list string :=
  match o with
  | Ok (es, _) => es
  | Err _ => []
  end.

Definition storedOfOutcome (o : Result string (list string * option JsValue))
    : option JsValue :=
  match o with
  | Ok (_, stored) => stored
  | Err _ => None
  end.

(** A regular-expression engine restricted to the one pattern of
    [exampleIMEISchema], a decimal reading of strings and a decimal
    writing of whole numbers: enough of the runtime to run the validator
    on the IMEI scenario. *)
Definition isDigit (c : ascii) : bool :=
  let n := nat_of_ascii c in (Nat.leb 48 n && Nat.leb n 57)%bool.

Fixpoint allDigits (s : string) : bool :=
  match s with
  | EmptyString => true
  | String c r => isDigit c && allDigits r
  end.

Definition imeiRegexTest (p s : string) : Result string bool :=
  if String.eqb p "^[0-9]{15}$"
  then Ok (allDigits s && Nat.eqb (String.length s) 15)
  else Err "SyntaxError".

Fixpoint digitsValue (acc : Z) (s : string) : Z :=
  match s with
  | EmptyString => acc
  | String c r => digitsValue (10 * acc + Z.of_nat (nat_of_ascii c) - 48) r
  end.

Definition decimalToNumber (s : string) : JsNum :=
  if allDigits s then Num (digitsValue 0 s) else NaN.

(** The integer a number is, if it is one. *)
Definition integerOf (n : JsNum) : option Z :=
  match FloatOps.Prim2SF n with
  | SpecFloat.S754_zero _ => Some 0
  | SpecFloat.S754_finite sign m e =>
    let v := if sign then Z.neg m else Z.pos m in
    if 0 <=? e then Some (v * 2 ^ e)
    else if v mod 2 ^ (- e) =? 0 then Some (v / 2 ^ (- e)) else None
  | _ => None
  end.

Definition showZ (z : Z) : string :=
  DecimalString.NilZero.string_of_int (Z.to_int z).

Definition wholeNumberToString (n : JsNum) : string :=
  match integerOf n with
  | Some z => showZ z
  | None => "NaN"
  end.

Definition getFields (schema : ServiceInputSchema) : list FieldSchema :=
  fields schema.

Definition getRequiredFields (schema : ServiceInputSchema) : list string :=
  List.map name (List.filter required (fields schema)).

(** Assignments [o[key a] = v] for the elements [a] of a list that yield a
    value, in order: what the loop of [validate] does to [errors] and to
    [data]. *)
Definition assignEach {A V : Type} (key : A -> string) (val : A -> option V)
    (l : list A) (m : gmap string V) : gmap string V :=
  fold_left (fun m a => match val a with
                        | Some v => assign (key a) v m
                        | None => m
                        end) l m.

(** The entry of [errors] an outcome yields. *)
Definition errorEntryOf (o : Result string (list string * option JsValue))
    : option (list string) :=
  match errorsOfOutcome o with
  | [] => None
  | es => Some es
  end.

(** A field named [__proto__] whose value must be an e-mail address. *)
Definition protoField : FieldSchema :=
  {| name := "__proto__"; type := email; label := "Contact";
     required := true; placeholder := None; description := None;
     validation := None |}.

End SchemaValidator.

(** ** The service manager (same source file as the validator) *)
Module ServiceManager.

Record Service : Type := mkService {
  id : string;
  tenantId : string;
  groupId : option string;
  name : string;
  slug : string;
  description : option string;
  inputSchema : SchemaValidator.ServiceInputSchema;
  baseCost : Z;
  currency : string;
  isActive : bool;
  allowedRoles : option (list string);
  supportsBulk : bool;
  requiresApproval : bool;
  metadata : option (list (string * string))
}.

Record ServiceCreateInput : Type := mkServiceCreateInput {
  in_tenantId : string;
  in_groupId : option string;
  in_name : string;
  in_slug : string;
  in_description : option string;
  in_inputSchema : SchemaValidator.ServiceInputSchema;
  in_baseCost : Z;
  in_currency : option string;
  in_allowedRoles : option (list string);
  in_supportsBulk : option bool;
  in_requiresApproval : option bool;
  in_metadata : option (list (string * string))
}.

Record ListValidation : Type := mkListValidation {
  valid : bool;
  errors : option (list string)
}.

Definition listValidation (errs : list string) : ListValidation :=
  {| valid := match errs with [] => true | _ => false end;
     errors := match errs with [] => None | _ => Some errs end |}.

Definition duplicateNameMessage (n : string) : string :=
  "Duplicate field name: " ++ n.

Definition missingLabelMessage (n : string) : string :=
  "Field '" ++ n ++ "' must have a label".

(** One field of the loop of [validateSchema]; the state is [errors] and
    the set [fieldNames].  [!field.type] never holds of a field whose type
    is one of the seven literals. *)
Definition validateSchemaStep (st : list string * gset string)
    (field : SchemaValidator.FieldSchema) : list string * gset string :=
  let '(errs, fieldNames) := st in
  let '(errs1, fieldNames1) :=
    if String.eqb (SchemaValidator.name field) "" then
      ((errs ++ ["All fields must have a name"])%list, fieldNames)
    else if bool_decide (SchemaValidator.name field ∈ fieldNames) then
      ((errs ++ [duplicateNameMessage (SchemaValidator.name field)])%list,
       fieldNames)
    else (errs, {[ SchemaValidator.name field ]} ∪ fieldNames) in
  (if String.eqb (SchemaValidator.label field) "" then
     (errs1 ++ [missingLabelMessage (SchemaValidator.name field)])%list
   else errs1,
   fieldNames1).

Definition validateSchema (schema : SchemaValidator.ServiceInputSchema)
    : ListValidation :=
  let errs0 := match SchemaValidator.fields schema with
               | [] => ["Service must have at least one input field"]
               | _ => []
               end in
  listValidation
    (fst (fold_left validateSchemaStep (SchemaValidator.fields schema)
                    (errs0, ∅))).

Definition canAccessService (service : Service) (userRole : string) : bool :=
  match allowedRoles service with
  | None | Some [] => true
  | Some roles => includes roles userRole
  end.

Definition filterByRole (services : list Service) (userRole : string)
    : list Service :=
  List.filter (fun service => canAccessService service userRole) services.

Definition supportsBulkOrders (service : Service) : bool := supportsBulk service.

Definition getBaseCost (service : Service) : Z := baseCost service.

(** [checkDuplicateSlugs] of [BulkServiceManager]. *)
Definition duplicateSlugsStep (st : gset string * list string)
    (service : ServiceCreateInput) : gset string * list string :=
  let '(slugs, duplicates) := st in
  if bool_decide (in_slug service ∈ slugs)
  then (slugs, (duplicates ++ [in_slug service])%list)
  else ({[ in_slug service ]} ∪ slugs, duplicates).

Definition checkDuplicateSlugs (services : list ServiceCreateInput)
    : list string :=
  snd (fold_left duplicateSlugsStep services (∅, [])).

(** *** [generateSlug]

    The two regular expressions are fixed, so their effect is written out
    on the characters of the string: [/[^a-z0-9]+/g] replaces every
    maximal run of characters outside a-z and 0-9 by one dash, and
    [/^-+|-+$/g] removes the dashes at both ends. *)
Definition isSlugChar (c : ascii) : bool :=
  let n := nat_of_ascii c in
  ((Nat.leb 97 n && Nat.leb n 122) || (Nat.leb 48 n && Nat.leb n 57))%bool.

Definition dash : ascii := "-"%char.

Definition isDash (c : ascii) : bool := Ascii.eqb c dash.

(** [inRun] tells that the previous character was outside a-z0-9. *)
Fixpoint replaceRuns (inRun : bool) (l : list ascii) : list ascii :=
  match l with
  | [] => []
  | c :: r =>
    if isSlugChar c then c :: replaceRuns false r
    else if inRun then replaceRuns true r
    else dash :: replaceRuns true r
  end.

Fixpoint dropLeadingDashes (l : list ascii) : list ascii :=
  match l with
  | c :: r => if isDash c then dropLeadingDashes r else l
  | [] => []
  end.

Fixpoint dropTrailingDashes (l : list ascii) : list ascii :=
  match l with
  | [] => []
  | c :: r =>
    match dropTrailingDashes r with
    | [] => if isDash c then [] else [c]
    | r' => c :: r'
    end
  end.

Section Slug.

(** [String.prototype.toLowerCase]. *)
Variable toLowerCase : string -> string.

Definition generateSlug (name : string) : string :=
  string_of_list_ascii
    (dropTrailingDashes
       (dropLeadingDashes
          (replaceRuns false (list_ascii_of_string (toLowerCase name))))).

End Slug.

(** A well-formed slug: characters a-z, 0-9 and dash, no dash at either
    end and no two dashes in a row. *)
Fixpoint noDoubleDash (l : list ascii) : bool :=
  match l with
  | c1 :: ((c2 :: _) as r) => negb (isDash c1 && isDash c2) && noDoubleDash r
  | _ => true
  end.

Definition slugChars (l : list ascii) : Prop :=
  Forall (fun c => isSlugChar c = true \/ c = dash) l
  /\ noDoubleDash l = true
  /\ head l <> Some dash
  /\ last l <> Some dash.

Definition isSlug (s : string) : Prop := slugChars (list_ascii_of_string s).

(** Lower-casing of the letters A-Z, for running the examples. *)
Definition lowerAscii (c : ascii) : ascii :=
  let n := nat_of_ascii c in
  if (Nat.leb 65 n && Nat.leb n 90)%bool then ascii_of_nat (n + 32) else c.

Fixpoint asciiToLowerCase (s : string) : string :=
  match s with
  | EmptyString => EmptyString
  | String c r => String (lowerAscii c) (asciiToLowerCase r)
  end.

End ServiceManager.

(** ** providers/base.ts, the manual provider and the provider registry *)
Module Providers.

(** A JSON payload handed through unchanged. *)
#[warnings="-register-all"]
Inductive Json : Type :=
| JPrim (v : SchemaValidator.JsValue)
| JData (d : gmap string SchemaValidator.JsValue)
| JObject (members : list (string * Json)).

Record ProviderConfig : Type := mkProviderConfig {
  id : string;
  name : string;
  type : string;
  credentials : gmap string SchemaValidator.JsValue;
  config : gmap string SchemaValidator.JsValue;
  statusMapping : gmap string string
}.

Record ProviderOrderInput : Type := mkProviderOrderInput {
  serviceId : string;
  inputData : gmap string SchemaValidator.JsValue;
  metadata : option Json
}.

Record ProviderError : Type := mkProviderError {
  code : string;
  message : string
}.

Record ProviderOrderResponse : Type := mkProviderOrderResponse {
  success : bool;
  providerOrderId : option string;
  status : string;
  data : option Json;
  error : option ProviderError
}.

Record ProviderStatusResponse : Type := mkProviderStatusResponse {
  st_providerOrderId : string;
  st_status : string;
  st_data : option Json;
  st_completedAt : option string
}.

Record InputValidation : Type := mkInputValidation {
  valid : bool;
  errors : option (list string)
}.

(** The abstract class [BaseProvider]: its four abstract methods.  An
    implementation may throw (or reject), which is [Err message].
    [normalizeStatus] returns a string by its type; through [mapStatus]
    it can return a member inherited from [Object.prototype] instead. *)
Record BaseProvider : Type := mkProvider {
  validateInput : gmap string SchemaValidator.JsValue
                  -> Result string InputValidation;
  placeOrder : ProviderOrderInput -> Result string ProviderOrderResponse;
  checkStatus : string -> Result string ProviderStatusResponse;
  normalizeStatus : string -> Result string (OrInherited string)
}.

(** [mapStatus]: [statusMapping[providerStatus] || 'processing'];
    [statusMapping] holds the own properties of the object. *)
Definition mapStatus (cfg : ProviderConfig) (providerStatus : string)
    : OrInherited string :=
  lookupOr (fun s => negb (String.eqb s ""))
           (statusMapping cfg !! providerStatus) providerStatus "processing".

(** [ManualProvider]; [nowMs] is the reading of [Date.now()]. *)
Definition ManualProvider (nowMs : string) (cfg : ProviderConfig) : BaseProvider :=
  {| validateInput := fun _ => Ok (mkInputValidation true None);
     placeOrder := fun input =>
       Ok {| success := true;
             providerOrderId := Some ("manual-" ++ nowMs);
             status := "pending_manual";
             data := Some (JObject
                             [("requiresManualFulfillment",
                               JPrim (SchemaValidator.JBool true));
                              ("inputData", JData (inputData input))]);
             error := None |};
     checkStatus := fun providerOrderId =>
       Ok {| st_providerOrderId := providerOrderId;
             st_status := "pending_manual";
             st_data := Some (JObject
                                [("message",
                                  JPrim (SchemaValidator.JString
                                           "Awaiting manual fulfillment"))]);
             st_completedAt := None |};
     normalizeStatus := fun providerStatus => Ok (mapStatus cfg providerStatus) |}.

(** The static map of [ProviderRegistry], from type to class. *)
Definition Registry : Type := gmap string (ProviderConfig -> BaseProvider).

Definition register (type : string) (providerClass : ProviderConfig -> BaseProvider)
    (providers : Registry) : Registry :=
  <[type := providerClass]> providers.

Definition notRegisteredMessage (type : string) : string :=
  "Provider type '" ++ type ++ "' not registered".

Definition create (providers : Registry) (cfg : ProviderConfig)
    : Result string BaseProvider :=
  match providers !! type cfg with
  | None => Err (notRegisteredMessage (type cfg))
  | Some ProviderClass => Ok (ProviderClass cfg)
  end.

Definition isSupported (providers : Registry) (type : string) : bool :=
  bool_decide (is_Some (providers !! type)).

End Providers.

(** ** order-manager.ts and the provider synchronisation *)
Module Orders.

(** A row of the [orders] table.  The code reads [status] as an
    [OrderStatus] ([order.status as OrderStatus]). *)
Record Order : Type := mkOrder {
  id : option string;
  tenantId : string;
  userId : string;
  serviceId : string;
  providerId : option string;
  orderNumber : string;
  status : OrderStateMachine.OrderStatus;
  inputData : gmap string SchemaValidator.JsValue;
  outputData : option Providers.Json;
  baseCost : Z;
  markup : Z;
  totalAmount : Z;
  paidAmount : Z;
  currency : string;
  providerOrderId : option string;
  metadata : option Providers.Json
}.

End Orders.

Module OrderManager.
Import OrderStateMachine.

Record OrderCreateInput : Type := mkOrderCreateInput {
  in_tenantId : string;
  in_userId : string;
  in_serviceId : string;
  in_inputData : SchemaValidator.JsInput;
  in_userRole : string;
  in_metadata : option Providers.Json
}.

Record PlacementError : Type := mkPlacementError {
  code : string;
  message : string;
  validationErrors : option (gmap string (list string))
}.

Record OrderPlacementResult : Type := mkPlacementResult {
  success : bool;
  order : option Orders.Order;
  error : option PlacementError
}.

(** [status] is an [OrderStatus] by its type; [fulfillOrder] fills it
    with what its status table returns. *)
Record OrderFulfillmentResult : Type := mkFulfillmentResult {
  f_success : bool;
  f_status : OrInherited OrderStatus;
  f_outputData : option Providers.Json;
  f_error : option Providers.ProviderError
}.

Section Placement.

(** The runtime services of the validator and the order number
    ([Date.now()] and [Math.random()]) the call draws. *)
Variable regexTest : string -> string -> Result string bool.
Variable stringToNumber : string -> SchemaValidator.JsNum.
Variable numberToString : SchemaValidator.JsNum -> string.
Variable orderNumber : string.

(** [ServiceManager.validateOrderInput]. *)
Definition validateOrderInput (service : ServiceManager.Service)
    (input : SchemaValidator.JsInput)
    : Result string SchemaValidator.ValidationResult :=
  SchemaValidator.validate regexTest stringToNumber numberToString
    (ServiceManager.inputSchema service) input.

(** [validation.data!]: the data of a valid result. *)
Definition dataOf (validation : SchemaValidator.ValidationResult)
    : gmap string SchemaValidator.JsValue :=
  match SchemaValidator.data validation with
  | Some d => d
  | None => ∅
  end.

(** [placeOrder]; what the validator or the pricing engine throws rejects
    the promise. *)
Definition placeOrder (input : OrderCreateInput)
    (service : ServiceManager.Service)
    (pricingRules : list PricingEngine.PricingRule)
    : Result string OrderPlacementResult :=
  let* validation := validateOrderInput service (in_inputData input) in
  if negb (SchemaValidator.valid validation) then
    Ok {| success := false; order := None;
          error := Some {| code := "VALIDATION_ERROR";
                           message := "Invalid input data";
                           validationErrors := SchemaValidator.errors validation |} |}
  else if negb (ServiceManager.canAccessService service (in_userRole input)) then
    Ok {| success := false; order := None;
          error := Some {| code := "ACCESS_DENIED";
                           message := "Service not available for your role";
                           validationErrors := None |} |}
  else
    match PricingEngine.calculatePrice (ServiceManager.baseCost service)
            pricingRules (in_userRole input) 1
            (ServiceManager.currency service) with
    | Err e => Err e
    | Ok pricing =>
      let initialStatus :=
        if ServiceManager.requiresApproval service then pending
        else payment_confirmed in
      Ok {| success := true;
            order := Some
              {| Orders.id := None;
                 Orders.tenantId := in_tenantId input;
                 Orders.userId := in_userId input;
                 Orders.serviceId := in_serviceId input;
                 Orders.providerId := None;
                 Orders.orderNumber := orderNumber;
                 Orders.status := initialStatus;
                 Orders.inputData := dataOf validation;
                 Orders.outputData := None;
                 Orders.baseCost := ServiceManager.baseCost service;
                 Orders.markup := PricingEngine.markup pricing;
                 Orders.totalAmount := PricingEngine.totalAmount pricing;
                 Orders.paidAmount := 0;
                 Orders.currency := ServiceManager.currency service;
                 Orders.providerOrderId := None;
                 Orders.metadata :=
                   Some (match in_metadata input with
                         | Some m => m
                         | None => Providers.JObject []
                         end) |};
            error := None |}
    end.

End Placement.

Definition transitionOrder (currentStatus newStatus : OrderStatus)
    (userRole : option string) : TransitionResult :=
  canTransition currentStatus newStatus userRole.

Definition getAvailableTransitions (order : Orders.Order)
    (userRole : option string) : list OrderStatus :=
  OrderStateMachine.getAvailableTransitions (Orders.status order) userRole.

Definition isTerminal (order : Orders.Order) : bool :=
  isTerminalState (Orders.status order).

Definition approveOrder (order : Orders.Order) (approvedBy userRole : string)
    : TransitionResult :=
  if negb (String.eqb userRole "super_admin") && negb (String.eqb userRole "admin")
  then mkResult false (Some "Only admins can approve orders")
  else transitionOrder (Orders.status order) approved (Some userRole).

Definition cancelOrder (order : Orders.Order) (userRole : string)
    : TransitionResult :=
  transitionOrder (Orders.status order) cancelled (Some userRole).

Definition refundOrder (order : Orders.Order) (userRole : string)
    : TransitionResult :=
  transitionOrder (Orders.status order) refunded (Some userRole).

(** The private table of [OrderManager] (no lower-casing, six keys): its
    own properties. *)
Definition statusMap : list (string * OrderStatus) :=
  [ ("pending", processing);
    ("processing", processing);
    ("completed", delivered);
    ("delivered", delivered);
    ("failed", failed);
    ("error", failed) ].

Definition lookupStatus (m : list (string * OrderStatus)) (k : string)
    : option OrderStatus :=
  option_map snd (jsFind (fun kv => String.eqb (fst kv) k) m).

(** The property key a value passed as [providerStatus] is read under: a
    string itself, the text of anything else. *)
Definition keyOf (providerStatus : OrInherited string) : string :=
  match providerStatus with
  | Own s => s
  | Inherited member => inheritedText member
  end.

(** [statusMap[providerStatus] || 'processing']. *)
Definition mapProviderStatusToOrderStatus (providerStatus : OrInherited string)
    : OrInherited OrderStatus :=
  lookupOr (fun _ => true) (lookupStatus statusMap (keyOf providerStatus))
           (keyOf providerStatus) processing.

(** [inputValidation.errors?.join(', ') || 'Provider validation failed']. *)
Definition validationMessage (errs : option (list string)) : string :=
  orDefault (option_map (SchemaValidator.join ", ") errs)
            "Provider validation failed".

(** [fulfillOrder]: everything thrown inside is caught. *)
Definition fulfillOrder (providers : Providers.Registry)
    (order : Orders.Order) (service : ServiceManager.Service)
    (provider : Providers.ProviderConfig) : OrderFulfillmentResult :=
  let caught (msg : string) :=
    mkFulfillmentResult false (Own failed) None
      (Some (Providers.mkProviderError "FULFILLMENT_ERROR" msg)) in
  match Providers.create providers provider with
  | Err msg => caught msg
  | Ok providerInstance =>
    match Providers.validateInput providerInstance
            (Orders.inputData order) with
    | Err msg => caught msg
    | Ok inputValidation =>
      if negb (Providers.valid inputValidation) then
        mkFulfillmentResult false (Own failed) None
          (Some (Providers.mkProviderError "PROVIDER_VALIDATION_ERROR"
                   (validationMessage (Providers.errors inputValidation))))
      else
        match Providers.placeOrder providerInstance
                {| Providers.serviceId := ServiceManager.id service;
                   Providers.inputData := Orders.inputData order;
                   Providers.metadata := Orders.metadata order |} with
        | Err msg => caught msg
        | Ok providerResponse =>
          if negb (Providers.success providerResponse) then
            mkFulfillmentResult false (Own failed) None
              (Providers.error providerResponse)
          else
            match Providers.normalizeStatus providerInstance
                    (Providers.status providerResponse) with
            | Err msg => caught msg
            | Ok normalizedStatus =>
              mkFulfillmentResult true
                (mapProviderStatusToOrderStatus normalizedStatus)
                (Providers.data providerResponse) None
            end
        end
    end
  end.

(** Sample data for the examples. *)
Definition sampleService : ServiceManager.Service :=
  ServiceManager.mkService "service-1" "t1" None "IMEI check" "imei-check" None
    SchemaValidator.exampleIMEISchema 10000 "USD" true
    (Some ["reseller"; "admin"]) false false None.

Definition sampleOrderInput : OrderCreateInput :=
  mkOrderCreateInput "t1" "u1" "service-1"
    (SchemaValidator.plainObject
       {[ "imei" := SchemaValidator.JString "123456789012345" ]})
    "reseller" None.

End OrderManager.

Module ProviderSync.
Import OrderStateMachine.

(** [normalizedStatus] is an [OrderStatus] by its type; [syncOrder] fills
    it with what its status table returns. *)
Record OrderSyncUpdate : Type := mkUpdate {
  orderId : option string;
  providerStatus : string;
  normalizedStatus : OrInherited OrderStatus;
  outputData : option Providers.Json;
  completedAt : option string
}.

Record SyncOrderResult : Type := mkSyncOrderResult {
  o_success : bool;
  o_update : option OrderSyncUpdate;
  o_error : option string
}.

Record SyncError : Type := mkSyncError {
  e_orderId : option string;
  e_error : string
}.

Record SyncResult : Type := mkSyncResult {
  success : bool;
  syncedCount : Z;
  failedCount : Z;
  errors : option (list SyncError)
}.

(** The table of [ProviderSync] (nine keys, looked up in lower case): its
    own properties. *)
Definition statusMap : list (string * OrderStatus) :=
  [ ("pending", processing);
    ("processing", processing);
    ("completed", delivered);
    ("delivered", delivered);
    ("success", delivered);
    ("failed", failed);
    ("error", failed);
    ("cancelled", cancelled);
    ("refunded", refunded) ].

Definition invalidTransitionMessage (reason : option string) : string :=
  "Invalid status transition: "
  ++ match reason with Some r => r | None => "undefined" end.

(** [order.providerId === provider.id && order.providerOrderId &&
    !isTerminalState(order.status)]. *)
Definition requiresSync (providerId : string) (order : Orders.Order) : bool :=
  match Orders.providerId order with
  | Some p => String.eqb p providerId
  | None => false
  end
  && match Orders.providerOrderId order with
     | Some i => negb (String.eqb i "")
     | None => false
     end
  && negb (isTerminalState (Orders.status order)).

Definition getOrdersRequiringSync (orders : list Orders.Order)
    (providerId : string) : list Orders.Order :=
  List.filter (requiresSync providerId) orders.

(** [Array.prototype.slice(start, end)] with integer arguments. *)
Definition jsSlice {A : Type} (l : list A) (first last : Z) : list A :=
  let len := Z.of_nat (length l) in
  let k := if first <? 0 then Z.max (len + first) 0 else Z.min first len in
  let final := if last <? 0 then Z.max (len + last) 0 else Z.min last len in
  firstn (Z.to_nat (final - k)) (skipn (Z.to_nat k) l).

(** The loop that cuts [orders] into batches; it does not end when
    [batchSize] is not positive, so it runs on fuel. *)
Fixpoint splitBatches (fuel : nat) (orders : list Orders.Order)
    (batchSize i : Z) : option (list (list Orders.Order)) :=
  if i <? Z.of_nat (length orders) then
    match fuel with
    | O => None
    | S fuel' =>
      option_map (cons (jsSlice orders i (i + batchSize)))
                 (splitBatches fuel' orders batchSize (i + batchSize))
    end
  else Some [].

Section Sync.

Variable toLowerCase : string -> string.
Variable providers : Providers.Registry.

(** [statusMap[providerStatus.toLowerCase()] || 'processing']; a value
    that is no string has no [toLowerCase], and the call throws a
    [TypeError]. *)
Definition mapProviderStatusToOrderStatus (providerStatus : OrInherited string)
    : Result string (OrInherited OrderStatus) :=
  match providerStatus with
  | Own s =>
    Ok (lookupOr (fun _ => true)
                 (OrderManager.lookupStatus statusMap (toLowerCase s))
                 (toLowerCase s) processing)
  | Inherited _ => Err "providerStatus.toLowerCase is not a function"
  end.

(** [syncOrder]; [provider] stands for the configuration the function
    copies out of the provider row.  Everything thrown inside is caught and
    becomes the error message. *)
Definition syncOrder (order : Orders.Order)
    (provider : Providers.ProviderConfig) : SyncOrderResult :=
  match Orders.providerOrderId order with
  | None => mkSyncOrderResult false None (Some "Order has no provider order ID")
  | Some providerOrderId =>
    if String.eqb providerOrderId "" then
      mkSyncOrderResult false None (Some "Order has no provider order ID")
    else
      match Providers.create providers provider with
      | Err msg => mkSyncOrderResult false None (Some msg)
      | Ok providerInstance =>
        match Providers.checkStatus providerInstance providerOrderId with
        | Err msg => mkSyncOrderResult false None (Some msg)
        | Ok statusResponse =>
          match Providers.normalizeStatus providerInstance
                  (Providers.st_status statusResponse) with
          | Err msg => mkSyncOrderResult false None (Some msg)
          | Ok normalized =>
            match mapProviderStatusToOrderStatus normalized with
            | Err msg => mkSyncOrderResult false None (Some msg)
            | Ok orderStatus =>
              let transition :=
                canTransitionTo (Orders.status order) orderStatus None in
              if negb (allowed transition) then
                mkSyncOrderResult false None
                  (Some (invalidTransitionMessage (reason transition)))
              else
                mkSyncOrderResult true
                  (Some {| orderId := Orders.id order;
                           providerStatus := Providers.st_status statusResponse;
                           normalizedStatus := orderStatus;
                           outputData := Providers.st_data statusResponse;
                           completedAt := Providers.st_completedAt statusResponse |})
                  None
            end
          end
        end
      end
  end.

(** Body of the loop of [syncOrders]; the state is ([errors],
    [syncedCount], [failedCount]). *)
Definition syncOrdersStep (provider : Providers.ProviderConfig)
    (st : list SyncError * Z * Z) (order : Orders.Order)
    : list SyncError * Z * Z :=
  let '(errs, synced, failedN) := st in
  let result := syncOrder order provider in
  if o_success result then (errs, synced + 1, failedN)
  else ((errs ++ [mkSyncError (Orders.id order)
                    (orDefault (o_error result) "Unknown error")])%list,
        synced, failedN + 1).

Definition syncOrders (orders : list Orders.Order)
    (provider : Providers.ProviderConfig) : SyncResult :=
  let '(errs, synced, failedN) :=
    fold_left (syncOrdersStep provider) orders ([], 0, 0) in
  {| success := failedN =? 0;
     syncedCount := synced;
     failedCount := failedN;
     errors := match errs with [] => None | _ => Some errs end |}.

Definition syncPendingOrders (orders : list Orders.Order)
    (provider : Providers.ProviderConfig) : SyncResult :=
  syncOrders (List.filter (requiresSync (Providers.id provider)) orders) provider.

(** Body of the loop over the batches of [syncWithRateLimit]; the pause
    between two batches has no effect on the result. *)
Definition rateLimitStep (provider : Providers.ProviderConfig)
    (st : Z * Z * list SyncError) (batch : list Orders.Order)
    : Z * Z * list SyncError :=
  let '(totalSynced, totalFailed, allErrors) := st in
  let result := syncOrders batch provider in
  (totalSynced + syncedCount result,
   totalFailed + failedCount result,
   match errors result with
   | Some es => (allErrors ++ es)%list
   | None => allErrors
   end).

Definition syncWithRateLimit (fuel : nat) (orders : list Orders.Order)
    (provider : Providers.ProviderConfig) (batchSize : Z)
    : option SyncResult :=
  match splitBatches fuel orders batchSize 0 with
  | None => None
  | Some batches =>
    let '(totalSynced, totalFailed, allErrors) :=
      fold_left (rateLimitStep provider) batches (0, 0, []) in
    Some {| success := totalFailed =? 0;
            syncedCount := totalSynced;
            failedCount := totalFailed;
            errors := match allErrors with [] => None | _ => Some allErrors end |}
  end.

End Sync.

Record SyncStats : Type := mkSyncStats {
  total : nat;
  s_pending : nat;
  s_processing : nat;
  s_delivered : nat;
  s_failed : nat;
  needsSync : nat
}.

Definition getSyncStats (orders : list Orders.Order) (providerId : string)
    : SyncStats :=
  let providerOrders :=
    List.filter (fun o => match Orders.providerId o with
                          | Some p => String.eqb p providerId
                          | None => false
                          end) orders in
  let count (s : OrderStatus) :=
    length (List.filter (fun o => OrderStatus_eqb (Orders.status o) s)
                        providerOrders) in
  {| total := length providerOrders;
     s_pending := count pending;
     s_processing := count processing;
     s_delivered := count delivered;
     s_failed := count failed;
     needsSync := length (getOrdersRequiringSync orders providerId) |}.

(** Sample data for the examples. *)
Definition sampleProvider : Providers.ProviderConfig :=
  Providers.mkProviderConfig "provider-1" "Manual desk" "manual" ∅ ∅
    {[ "pending_manual" := "pending"; "done" := "completed" ]}.

Definition sampleRegistry : Providers.Registry :=
  Providers.register "manual" (Providers.ManualProvider "1700000000000") ∅.

Definition sampleOrder (i : string) (s : OrderStatus) : Orders.Order :=
  Orders.mkOrder (Some i) "t1" "u1" "service-1" (Some "provider-1")
    ("ORD-" ++ i) s ∅ None 10000 1000 11000 0 "USD"
    (Some ("manual-" ++ i)) None.

End ProviderSync.

(** * Properties *)

(** ** The wallet ledger *)
Module WalletManagerFacts.
Import WalletManager.

(** The entry's contribution to the sum for type [ty]. *)
Lemma balanceStep_sums (tx : Transaction) (av lk : Z) :
  balanceStep (av, lk) tx
  = (av + availableSpec [tx], lk + lockedSpec [tx]).
Proof.
  destruct tx as [i tn wl ty am cu st rt ri pa de me cb cr ca].
  unfold balanceStep, availableSpec, lockedSpec; cbn.
  destruct (String.eqb st "completed"); cbn; [|f_equal; lia].
  destruct (String.eqb ty "credit") eqn:Hc;
    [apply String.eqb_eq in Hc; subst ty; cbn; f_equal; lia|].
  destruct (String.eqb ty "debit") eqn:Hd;
    [apply String.eqb_eq in Hd; subst ty; cbn; f_equal; lia|].
  destruct (String.eqb ty "lock") eqn:Hl;
    [apply String.eqb_eq in Hl; subst ty; cbn; f_equal; lia|].
  destruct (String.eqb ty "unlock") eqn:Hu;
    [apply String.eqb_eq in Hu; subst ty; cbn; f_equal; lia|].
  destruct (String.eqb ty "refund") eqn:Hr;
    [apply String.eqb_eq in Hr; subst ty; cbn; f_equal; lia|].
  f_equal; lia.
Qed.

Lemma balanceStep_fold (txs : list Transaction) (av lk : Z) :
  fold_left balanceStep txs (av, lk)
  = (av + availableSpec txs, lk + lockedSpec txs).
Proof.
  revert av lk.
  induction txs as [|tx txs IH]; intros av lk.
  - unfold availableSpec, lockedSpec; simpl. f_equal; lia.
  - cbn [fold_left]. rewrite balanceStep_sums, IH.
    unfold availableSpec, lockedSpec. cbn [sumOf]. f_equal; lia.
Qed.

Lemma calculateBalance_fields (txs : list Transaction) :
  available (calculateBalance txs) = availableSpec txs
  /\ locked (calculateBalance txs) = lockedSpec txs
  /\ total (calculateBalance txs) = availableSpec txs + lockedSpec txs.
Proof.
  unfold calculateBalance. rewrite balanceStep_fold. cbn. repeat split; lia.
Qed.

Lemma sumOf_app (ty : string) (l1 l2 : list Transaction) :
  sumOf ty (l1 ++ l2) = sumOf ty l1 + sumOf ty l2.
Proof.
  induction l1 as [|x l1 IH]; cbn [sumOf app]; [lia|]. rewrite IH. lia.
Qed.

Lemma sumOf_filter_completed (ty : string) (txs : list Transaction) :
  sumOf ty (List.filter (fun tx => String.eqb (status tx) "completed") txs)
  = sumOf ty txs.
Proof.
  induction txs as [|tx txs IH]; [reflexivity|].
  cbn [List.filter sumOf].
  destruct (String.eqb (status tx) "completed") eqn:Hs; cbn [sumOf andb].
  - rewrite Hs, IH. reflexivity.
  - rewrite IH. lia.
Qed.

(** C1.  [calculateBalance] returns the ledger formula of the
    specification: available is credits - debits - locks + unlocks +
    refunds, locked is locks - unlocks, both over the completed entries
    only (dropping every entry in another status changes nothing), and
    total is available + locked. *)
Theorem calculateBalance_ledger_formula (txs : list Transaction) :
  available (calculateBalance txs)
  = sumOf "credit" txs - sumOf "debit" txs - sumOf "lock" txs
    + sumOf "unlock" txs + sumOf "refund" txs
  /\ locked (calculateBalance txs) = sumOf "lock" txs - sumOf "unlock" txs
  /\ total (calculateBalance txs)
     = available (calculateBalance txs) + locked (calculateBalance txs)
  /\ (let completed :=
        List.filter (fun tx => String.eqb (status tx) "completed") txs in
      available (calculateBalance completed) = available (calculateBalance txs)
      /\ locked (calculateBalance completed) = locked (calculateBalance txs)).
Proof.
  pose proof (calculateBalance_fields txs) as (Ha & Hl & Ht).
  pose proof (calculateBalance_fields
                (List.filter (fun tx => String.eqb (status tx) "completed") txs))
    as (Ha' & Hl' & _).
  cbv zeta. rewrite Ha', Hl', Ha, Hl, Ht.
  unfold availableSpec, lockedSpec. rewrite !sumOf_filter_completed.
  repeat split; reflexivity.
Qed.

Lemma availableSpec_app (l1 l2 : list Transaction) :
  availableSpec (l1 ++ l2) = availableSpec l1 + availableSpec l2.
Proof. unfold availableSpec. rewrite !sumOf_app. lia. Qed.

Lemma lockedSpec_app (l1 l2 : list Transaction) :
  lockedSpec (l1 ++ l2) = lockedSpec l1 + lockedSpec l2.
Proof. unfold lockedSpec. rewrite !sumOf_app. lia. Qed.

(** Each operation either rejects or returns the literal [mkTx]. *)
Lemma lock_Ok now input bal tx :
  lock now input bal = Ok tx ->
  0 < in_amount input /\ in_amount input <= available bal
  /\ tx = mkTx now input "lock" None "Funds locked".
Proof.
  unfold lock. destruct (in_amount input <=? 0) eqn:H0; [discriminate|].
  destruct (available bal <? in_amount input) eqn:H1; [discriminate|].
  intros [= <-]. repeat split; lia.
Qed.

Lemma debit_Ok now input bal tx :
  debit now input bal = Ok tx ->
  0 < in_amount input /\ in_amount input <= available bal
  /\ tx = mkTx now input "debit" None "Wallet debit".
Proof.
  unfold debit. destruct (in_amount input <=? 0) eqn:H0; [discriminate|].
  destruct (available bal <? in_amount input) eqn:H1; [discriminate|].
  intros [= <-]. repeat split; lia.
Qed.

Lemma unlock_Ok now input lockId bal tx :
  unlock now input lockId bal = Ok tx ->
  0 < in_amount input /\ in_amount input <= locked bal
  /\ tx = mkTx now input "unlock" (Some lockId) "Funds unlocked".
Proof.
  unfold unlock. destruct (in_amount input <=? 0) eqn:H0; [discriminate|].
  destruct (locked bal <? in_amount input) eqn:H1; [discriminate|].
  intros [= <-]. repeat split; lia.
Qed.

Lemma credit_Ok now input tx :
  credit now input = Ok tx ->
  0 < in_amount input /\ tx = mkTx now input "credit" None "Wallet credit".
Proof.
  unfold credit. destruct (in_amount input <=? 0) eqn:H0; [discriminate|].
  intros [= <-]. split; [lia|reflexivity].
Qed.

Lemma refund_Ok now input orig tx :
  refund now input orig = Ok tx ->
  0 < in_amount input /\ tx = mkTx now input "refund" (Some orig) "Refund".
Proof.
  unfold refund. destruct (in_amount input <=? 0) eqn:H0; [discriminate|].
  intros [= <-]. split; [lia|reflexivity].
Qed.

Lemma completeOrderPayment_Ok now1 now2 w t o amt lockId u bal un db :
  completeOrderPayment now1 now2 w t o amt lockId u bal = Ok (un, db) ->
  0 < amt /\ amt <= locked bal
  /\ un = mkTx now1 (orderInput w t o "unlock" amt "Unlock for order " u)
               "unlock" (Some lockId) "Funds unlocked"
  /\ db = mkTx now2 (orderInput w t o "debit" amt "Payment for order " u)
               "debit" None "Wallet debit".
Proof.
  unfold completeOrderPayment.
  destruct (unlock _ _ _ _) as [un'|e] eqn:Hu; [|discriminate].
  destruct (debit _ _ _) as [db'|e] eqn:Hd; [|discriminate].
  intros [= <- <-].
  apply unlock_Ok in Hu as (Hp & Hl & ->).
  apply debit_Ok in Hd as (_ & _ & ->).
  cbn in Hp, Hl. repeat split; assumption.
Qed.

(** C3.  On a ledger whose available balance covers a positive [amount],
    [processOrderPayment] emits a lock entry; appending it and then the
    unlock and debit entries of [completeOrderPayment] lowers the available
    balance by exactly [amount] and leaves the locked balance as it was.
    (When the prior locked balance is not negative, [completeOrderPayment]
    does emit its two entries on the balance computed after the lock.) *)
Theorem completeOrderPayment_net_debit
    (txs : list Transaction) (amt : Z)
    (now now1 now2 w t o lockId u : string) :
  0 < amt -> amt <= available (calculateBalance txs) ->
  exists lockTx,
    processOrderPayment now w t o amt u (calculateBalance txs) = Ok lockTx
    /\ (0 <= locked (calculateBalance txs) ->
        isOk (completeOrderPayment now1 now2 w t o amt lockId u
                (calculateBalance (txs ++ [lockTx]))) = true)
    /\ forall bal un db,
         completeOrderPayment now1 now2 w t o amt lockId u bal = Ok (un, db) ->
         available (calculateBalance (txs ++ [lockTx; un; db]))
         = available (calculateBalance txs) - amt
         /\ locked (calculateBalance (txs ++ [lockTx; un; db]))
            = locked (calculateBalance txs).
Proof.
  intros Hpos Hav.
  pose proof (calculateBalance_fields txs) as (Ha & Hl & _).
  exists (mkTx now (orderInput w t o "lock" amt "Payment for order " u)
               "lock" None "Funds locked").
  split; [|split].
  - unfold processOrderPayment, lock. cbn [in_amount orderInput].
    destruct (amt <=? 0) eqn:H0; [lia|].
    destruct (available (calculateBalance txs) <? amt) eqn:H1; [lia|].
    reflexivity.
  - intros Hlk.
    pose proof (calculateBalance_fields
      (txs ++ [mkTx now (orderInput w t o "lock" amt "Payment for order " u)
                    "lock" None "Funds locked"])) as (Ha' & Hl' & _).
    rewrite availableSpec_app in Ha'. rewrite lockedSpec_app in Hl'.
    unfold availableSpec, lockedSpec in Ha', Hl', Ha, Hl. cbn in Ha', Hl'.
    unfold completeOrderPayment, unlock, debit.
    cbn [in_amount orderInput available locked].
    destruct (amt <=? 0) eqn:H0; [lia|].
    destruct (locked _ <? amt) eqn:H1; [lia|].
    destruct (available _ + amt <? amt) eqn:H2; [lia|].
    reflexivity.
  - intros bal un db Hc.
    apply completeOrderPayment_Ok in Hc as (_ & _ & -> & ->).
    match goal with
    | |- context [calculateBalance (txs ++ ?l)] =>
        pose proof (calculateBalance_fields (txs ++ l)) as (Ha' & Hl' & _)
    end.
    rewrite availableSpec_app in Ha'. rewrite lockedSpec_app in Hl'.
    unfold availableSpec, lockedSpec in Ha', Hl'. cbn in Ha', Hl'.
    unfold availableSpec, lockedSpec in Ha, Hl.
    split; lia.
Qed.

Lemma completeOrderPayment_net_debit_witness :
  0 < 1200 /\ 1200 <= available (calculateBalance [sampleCredit])
  /\ exists lockTx,
      processOrderPayment "n0" "w1" "t1" "o1" 1200 "u1"
        (calculateBalance [sampleCredit]) = Ok lockTx
      /\ (0 <= locked (calculateBalance [sampleCredit]) ->
          isOk (completeOrderPayment "n1" "n2" "w1" "t1" "o1" 1200 "l1" "u1"
                  (calculateBalance ([sampleCredit] ++ [lockTx]))) = true)
      /\ forall bal un db,
           completeOrderPayment "n1" "n2" "w1" "t1" "o1" 1200 "l1" "u1" bal
           = Ok (un, db) ->
           available (calculateBalance ([sampleCredit] ++ [lockTx; un; db]))
           = available (calculateBalance [sampleCredit]) - 1200
           /\ locked (calculateBalance ([sampleCredit] ++ [lockTx; un; db]))
              = locked (calculateBalance [sampleCredit]).
Proof.
  split; [lia|]. split; [vm_compute; discriminate|].
  apply (completeOrderPayment_net_debit [sampleCredit] 1200
           "n0" "n1" "n2" "w1" "t1" "o1" "l1" "u1").
  - lia.
  - vm_compute; discriminate.
Defined.

(** C4.  For a positive amount, [debit] and [lock] reject with code
    INSUFFICIENT_BALANCE exactly when the available balance is below the
    amount, a rejection carries no ledger entry, and otherwise each returns
    one entry of its own type. *)
Theorem debit_lock_insufficient_balance
    (now : string) (input : TransactionCreateInput) (bal : WalletBalance) :
  0 < in_amount input ->
  (available bal < in_amount input
   <-> exists e, debit now input bal = Err e /\ code e = "INSUFFICIENT_BALANCE")
  /\ (available bal < in_amount input
      <-> exists e, lock now input bal = Err e /\ code e = "INSUFFICIENT_BALANCE")
  /\ (available bal < in_amount input ->
      forall tx, debit now input bal <> Ok tx /\ lock now input bal <> Ok tx)
  /\ (in_amount input <= available bal ->
      exists d l,
        debit now input bal = Ok d /\ type d = "debit" /\ amount d = in_amount input
        /\ lock now input bal = Ok l /\ type l = "lock" /\ amount l = in_amount input).
Proof.
  intros Hpos. unfold debit, lock.
  destruct (in_amount input <=? 0) eqn:H0; [lia|].
  destruct (available bal <? in_amount input) eqn:H1.
  - assert (available bal < in_amount input) as Hlt by lia.
    repeat split; try (intros; assumption); try (intros; discriminate).
    + intros _. eexists; split; reflexivity.
    + intros _. eexists; split; reflexivity.
    + intros Hle. lia.
  - assert (in_amount input <= available bal) as Hle by lia.
    repeat split.
    + lia.
    + intros (e & He & _); discriminate.
    + lia.
    + intros (e & He & _); discriminate.
    + lia.
    + lia.
    + intros _. do 2 eexists. repeat split; reflexivity.
Qed.

Lemma debit_lock_insufficient_balance_witness :
  let input := sampleInput "debit" 700 in
  let bal := calculateBalance [sampleCredit] in
  0 < in_amount input
  /\ exists d l,
       debit "n0" input bal = Ok d /\ type d = "debit" /\ amount d = 700
       /\ lock "n0" input bal = Ok l /\ type l = "lock" /\ amount l = 700.
Proof.
  cbv zeta. split; [cbn; lia|].
  apply (debit_lock_insufficient_balance "n0" (sampleInput "debit" 700)
           (calculateBalance [sampleCredit])).
  - cbn; lia.
  - vm_compute; discriminate.
Defined.

Lemma mkTx_Emitted now input ty parent descr :
  0 < in_amount input ->
  In ty ["credit"; "debit"; "lock"; "unlock"; "refund"] ->
  Emitted ty (in_amount input) now (mkTx now input ty parent descr).
Proof.
  intros Hpos Hty. unfold Emitted. cbn [status type amount completedAt mkTx].
  repeat split.
  intros [av lk].
  cbn in Hty.
  destruct Hty as [<-|[<-|[<-|[<-|[<-|[]]]]]];
    unfold balanceStep; cbn; intros [= H1]; lia.
Qed.

(** C10.  Every entry produced by [credit], [debit], [lock], [unlock] and
    [refund], and so by the four order-payment helpers, has status
    completed, the type of the operation that produced it, the input
    amount and a completion timestamp, and it changes the balance
    [calculateBalance] derives: no pending entry is ever emitted. *)
Theorem emitted_entries_completed :
  (forall now input tx,
      credit now input = Ok tx -> Emitted "credit" (in_amount input) now tx)
  /\ (forall now input bal tx,
      debit now input bal = Ok tx -> Emitted "debit" (in_amount input) now tx)
  /\ (forall now input bal tx,
      lock now input bal = Ok tx -> Emitted "lock" (in_amount input) now tx)
  /\ (forall now input lockId bal tx,
      unlock now input lockId bal = Ok tx ->
      Emitted "unlock" (in_amount input) now tx)
  /\ (forall now input orig tx,
      refund now input orig = Ok tx -> Emitted "refund" (in_amount input) now tx)
  /\ (forall now w t o amt u bal tx,
      processOrderPayment now w t o amt u bal = Ok tx ->
      Emitted "lock" amt now tx)
  /\ (forall now1 now2 w t o amt lockId u bal un db,
      completeOrderPayment now1 now2 w t o amt lockId u bal = Ok (un, db) ->
      Emitted "unlock" amt now1 un /\ Emitted "debit" amt now2 db)
  /\ (forall now w t o amt lockId u bal tx,
      cancelOrderPayment now w t o amt lockId u bal = Ok tx ->
      Emitted "unlock" amt now tx)
  /\ (forall now w t o amt orig u tx,
      refundOrder now w t o amt orig u = Ok tx ->
      Emitted "refund" amt now tx).
Proof.
  repeat apply conj.
  - intros now input tx H. apply credit_Ok in H as (Hp & ->).
    apply mkTx_Emitted; [assumption|cbn; tauto].
  - intros now input bal tx H. apply debit_Ok in H as (Hp & _ & ->).
    apply mkTx_Emitted; [assumption|cbn; tauto].
  - intros now input bal tx H. apply lock_Ok in H as (Hp & _ & ->).
    apply mkTx_Emitted; [assumption|cbn; tauto].
  - intros now input lockId bal tx H. apply unlock_Ok in H as (Hp & _ & ->).
    apply mkTx_Emitted; [assumption|cbn; tauto].
  - intros now input orig tx H. apply refund_Ok in H as (Hp & ->).
    apply mkTx_Emitted; [assumption|cbn; tauto].
  - intros now w t o amt u bal tx H. unfold processOrderPayment in H.
    apply lock_Ok in H as (Hp & _ & ->).
    apply (mkTx_Emitted now (orderInput w t o "lock" amt _ u));
      [assumption|cbn; tauto].
  - intros now1 now2 w t o amt lockId u bal un db H.
    apply completeOrderPayment_Ok in H as (Hp & _ & -> & ->).
    split.
    + apply (mkTx_Emitted now1 (orderInput w t o "unlock" amt _ u));
        [assumption|cbn; tauto].
    + apply (mkTx_Emitted now2 (orderInput w t o "debit" amt _ u));
        [assumption|cbn; tauto].
  - intros now w t o amt lockId u bal tx H. unfold cancelOrderPayment in H.
    apply unlock_Ok in H as (Hp & _ & ->).
    apply (mkTx_Emitted now (orderInput w t o "unlock" amt _ u));
      [assumption|cbn; tauto].
  - intros now w t o amt orig u tx H. unfold refundOrder in H.
    apply refund_Ok in H as (Hp & ->).
    apply (mkTx_Emitted now (orderInput w t o "refund" amt _ u));
      [assumption|cbn; tauto].
Qed.

Lemma emitted_entries_completed_witness :
  exists tx,
    credit "n0" (sampleInput "credit" 5000) = Ok tx
    /\ Emitted "credit" 5000 "n0" tx.
Proof.
  eexists. split; [reflexivity|].
  apply (proj1 emitted_entries_completed "n0" (sampleInput "credit" 5000)).
  reflexivity.
Defined.

(** A pending entry does not count; a lock moves funds from available to
    locked. *)
Example calculateBalance_sample :
  calculateBalance
    [ sampleCredit;
      mkTx "n1" (sampleInput "lock" 1200) "lock" None "Funds locked";
      mkTransaction (Some "tx-3") "t1" "w1" "debit" 300 "USD" "pending"
                    None None None "Wallet debit" None "u1" None None ]
  = mkBalance 3800 1200 5000 "USD".
Proof. reflexivity. Qed.

(** On a ledger whose locked balance is negative, the unlock of
    [completeOrderPayment] is rejected after a successful lock. *)
Example completeOrderPayment_negative_locked :
  let ledger :=
    [ mkTx "n0" (sampleInput "unlock" 500) "unlock" (Some "l0") "Funds unlocked";
      mkTx "n0" (sampleInput "credit" 1500) "credit" None "Wallet credit" ] in
  calculateBalance ledger = mkBalance 2000 (-500) 1500 "USD"
  /\ exists lockTx,
       processOrderPayment "n1" "w1" "t1" "o1" 1000 "u1" (calculateBalance ledger)
       = Ok lockTx
       /\ completeOrderPayment "n2" "n3" "w1" "t1" "o1" 1000 "l1" "u1"
            (calculateBalance (ledger ++ [lockTx]))
          = Err (mkWalletError "Insufficient locked balance"
                               "INSUFFICIENT_LOCKED_BALANCE").
Proof. cbv zeta. split; [reflexivity|]. eexists. split; reflexivity. Qed.

End WalletManagerFacts.

(** ** The order state machine *)
Module OrderStateMachineFacts.
Import OrderStateMachine.

Lemma OrderStatus_eqb_eq (a b : OrderStatus) :
  OrderStatus_eqb a b = true <-> a = b.
Proof. destruct a, b; cbn; split; congruence. Qed.

Lemma role_reason_nonempty (r : string) :
  "Role '" ++ r ++ "' cannot perform this transition" <> "".
Proof. discriminate. Qed.

(** The table does contain an edge out of the terminal state [delivered]:
    an administrator may refund a delivered order. *)
Lemma delivered_refunded_allowed :
  isTerminalState delivered = true
  /\ refunded <> delivered
  /\ canTransition delivered refunded (Some "admin") = mkResult true None.
Proof. repeat split; discriminate. Qed.

(** C2 (amended).  From a terminal state, every request to move to a
    different state is rejected with a non-empty reason, whatever the role,
    except along the table's edge delivered -> refunded; that edge is
    rejected, with a reason, exactly for callers who give a non-empty role
    other than super_admin and admin. *)
Theorem terminal_states_reject
    (s t : OrderStatus) (userRole : option string) :
  isTerminalState s = true -> t <> s ->
  (~ (s = delivered /\ t = refunded) -> Rejected (canTransition s t userRole))
  /\ (s = delivered -> t = refunded ->
      match roleGiven userRole with
      | Some r =>
        if includes ["super_admin"; "admin"] r
        then canTransition s t userRole = mkResult true None
        else Rejected (canTransition s t userRole)
      | None => canTransition s t userRole = mkResult true None
      end).
Proof.
  intros Hterm Hne. split.
  - intros Hedge. unfold Rejected.
    destruct s; try discriminate Hterm;
      destruct t; try congruence; try (exfalso; apply Hedge; split; reflexivity);
      cbn; (split; [reflexivity|eexists; split; [reflexivity|discriminate]]).
  - intros -> ->. unfold canTransition. cbn -[includes roleGiven].
    destruct (roleGiven userRole) as [r|]; [|reflexivity].
    destruct (includes ["super_admin"; "admin"] r) eqn:Hin; cbn [negb].
    + reflexivity.
    + split; [reflexivity|]. eexists; split; [reflexivity|].
      apply role_reason_nonempty.
Qed.

Lemma terminal_states_reject_witness :
  isTerminalState cancelled = true /\ processing <> cancelled
  /\ Rejected (canTransition cancelled processing (Some "super_admin")).
Proof.
  split; [reflexivity|]. split; [discriminate|].
  apply (terminal_states_reject cancelled processing (Some "super_admin")).
  - reflexivity.
  - discriminate.
  - intros [H _]; discriminate H.
Defined.

(** A caller who supplies no role passes a role-gated edge. *)
Lemma gated_edge_allows_missing_role :
  In (adminEdge payment_confirmed approved) transitions
  /\ requiresRole (adminEdge payment_confirmed approved)
     = Some ["super_admin"; "admin"]
  /\ canTransition payment_confirmed approved None = mkResult true None.
Proof. repeat split. cbn. tauto. Qed.

(** C7 (amended).  On every edge of the table that carries a required-role
    set, a caller who supplies a (non-empty) role outside that set is
    rejected with a reason naming the role, while a caller who supplies no
    role, or the empty string, is not role-checked and is allowed. *)
Theorem gated_edges_reject_other_roles
    (tr : StateTransition) (roles : list string) :
  In tr transitions -> requiresRole tr = Some roles ->
  (forall r, r <> "" -> includes roles r = false ->
     canTransition (from tr) (to tr) (Some r)
     = mkResult false (Some ("Role '" ++ r ++ "' cannot perform this transition"))
     /\ Rejected (canTransition (from tr) (to tr) (Some r)))
  /\ canTransition (from tr) (to tr) None = mkResult true None
  /\ canTransition (from tr) (to tr) (Some "") = mkResult true None.
Proof.
  intros Hin Hreq. split.
  - intros r Hr Hincl.
    assert (String.eqb r "" = false) as Hr' by (apply String.eqb_neq; exact Hr).
    assert (canTransition (from tr) (to tr) (Some r)
            = mkResult false
                (Some ("Role '" ++ r ++ "' cannot perform this transition")))
      as Heq.
    { cbn in Hin.
      repeat (destruct Hin as [<-|Hin]; [try discriminate Hreq|]);
        try contradiction;
        injection Hreq as <-;
        unfold canTransition; cbn -[includes String.eqb];
        rewrite Hr', Hincl; reflexivity. }
    split; [exact Heq|]. rewrite Heq. split; [reflexivity|].
    eexists; split; [reflexivity|]. apply role_reason_nonempty.
  - cbn in Hin.
    repeat (destruct Hin as [<-|Hin]; [try discriminate Hreq|]);
      try contradiction; split; reflexivity.
Qed.

Lemma gated_edges_reject_other_roles_witness :
  (canTransition failed refunded (Some "reseller")
   = mkResult false (Some "Role 'reseller' cannot perform this transition")
   /\ Rejected (canTransition failed refunded (Some "reseller")))
  /\ canTransition failed refunded None = mkResult true None
  /\ canTransition failed refunded (Some "") = mkResult true None.
Proof.
  destruct (gated_edges_reject_other_roles (adminEdge failed refunded)
              ["super_admin"; "admin"]) as (Hother & Hnone & Hempty).
  - cbn. tauto.
  - reflexivity.
  - split; [|split; [exact Hnone|exact Hempty]].
    apply (Hother "reseller"); [discriminate|reflexivity].
Defined.

Example delivered_to_processing_rejected :
  canTransition delivered processing None
  = mkResult false
      (Some "Transition from 'delivered' to 'processing' is not allowed").
Proof. reflexivity. Qed.

Example same_state_allowed (s : OrderStatus) (userRole : option string) :
  canTransition s s userRole = mkResult true None.
Proof. destruct s; reflexivity. Qed.

End OrderStateMachineFacts.

(** ** The pricing engine *)
Module PricingEngineFacts.
Import PricingEngine.

Lemma applyLimits_clampSpec (rule : PricingRule) (m : Z) :
  applyLimits rule m = clampSpec (minProfit rule) (maxProfit rule) m.
Proof.
  unfold applyLimits, clampSpec.
  destruct (minProfit rule) as [mn|], (maxProfit rule) as [mx|]; cbv zeta.
  - destruct (m <? mn) eqn:H1.
    + rewrite Z.max_r by lia.
      destruct (mx <? mn) eqn:H2; [rewrite Z.min_r|rewrite Z.min_l]; lia.
    + rewrite Z.max_l by lia.
      destruct (mx <? m) eqn:H2; [rewrite Z.min_r|rewrite Z.min_l]; lia.
  - destruct (m <? mn) eqn:H1; [rewrite Z.max_r|rewrite Z.max_l]; lia.
  - destruct (mx <? m) eqn:H2; [rewrite Z.min_r|rewrite Z.min_l]; lia.
  - reflexivity.
Qed.

(** [rules.find] returns the first rule of the list whose role is the
    caller's. *)
Lemma jsFind_first_match (pre post : list PricingRule) (rule : PricingRule)
    (userRole : string) :
  Forall (fun r => role r <> userRole) pre -> role rule = userRole ->
  jsFind (fun r => String.eqb (role r) userRole) (pre ++ rule :: post)
  = Some rule.
Proof.
  intros Hpre Hrole. induction Hpre as [|r pre Hr _ IH]; cbn.
  - rewrite (proj2 (String.eqb_eq _ _) Hrole). reflexivity.
  - rewrite (proj2 (String.eqb_neq _ _) Hr). exact IH.
Qed.

(** The claim on two lists of rules.  A percentage rule of 10% whose
    max_profit is 500 gives, on a base cost of 10000 and a quantity of 1,
    a markup of 500 and a total of 10500; and a percentage rule that
    matches the caller's role but stands behind another rule of that role
    is not the one applied. *)
Lemma percentage_markup_capped_or_shadowed :
  (let rule := sampleRule percentage 1000 None (Some 500) in
   role rule = "reseller" /\ markupType rule = percentage
   /\ markupValue rule = 1000
   /\ exists p,
        calculatePrice 10000 [rule] "reseller" 1 "USD" = Ok p
        /\ markup p = 500 /\ totalAmount p = 10500
        /\ markup p <> 1000 /\ totalAmount p <> 11000)
  /\ (let first := sampleRule fixed 250 None None in
      let rule := sampleRule percentage 1000 None None in
      role rule = "reseller" /\ markupType rule = percentage
      /\ exists p,
           calculatePrice 10000 [first; rule] "reseller" 1 "USD" = Ok p
           /\ markup p = 250
           /\ markup p <> (10000 * markupValue rule) / 10000).
Proof.
  split; cbv zeta; repeat apply conj; try reflexivity;
    eexists; (split; [reflexivity|]); cbn; repeat apply conj;
    try reflexivity; discriminate.
Qed.

(** C5 (amended).  When the first rule of the list whose role is the
    caller's is a percentage rule, the markup is
    floor(baseCost * markup_value / 10000), raised to min_profit and then
    capped at max_profit when these are set; the total is
    (baseCost + markup) * quantity and the profit markup * quantity.  With
    markup_value 1000, baseCost 10000 and quantity 1 the markup is 1000
    and the total 11000 when min_profit, if set, is at most 1000 and
    max_profit, if set, at least 1000. *)
Theorem calculatePrice_percentage
    (baseCost : Z) (pre post : list PricingRule) (userRole : string)
    (quantity : Z) (currency : string) (rule : PricingRule) :
  Forall (fun r => role r <> userRole) pre ->
  role rule = userRole ->
  markupType rule = percentage ->
  let m := clampSpec (minProfit rule) (maxProfit rule)
                     ((baseCost * markupValue rule) / 10000) in
  calculatePrice baseCost (pre ++ rule :: post) userRole quantity currency
  = Ok {| PricingEngine.baseCost := baseCost;
          markup := m;
          totalAmount := (baseCost + m) * quantity;
          profit := m * quantity;
          priceCurrency := currency;
          appliedRule := Some rule |}
  /\ (baseCost = 10000 -> markupValue rule = 1000 -> quantity = 1 ->
      (forall mn, minProfit rule = Some mn -> mn <= 1000) ->
      (forall mx, maxProfit rule = Some mx -> 1000 <= mx) ->
      m = 1000 /\ (baseCost + m) * quantity = 11000).
Proof.
  intros Hpre Hrole Hty m. split.
  - unfold calculatePrice.
    rewrite (jsFind_first_match pre post rule userRole Hpre Hrole), Hty.
    rewrite applyLimits_clampSpec. reflexivity.
  - intros -> Hv -> Hmn Hmx.
    assert (m = 1000) as ->; [|split; reflexivity].
    subst m. rewrite Hv. change (10000 * 1000 / 10000) with 1000.
    unfold clampSpec.
    destruct (minProfit rule) as [mn|], (maxProfit rule) as [mx|];
      try specialize (Hmn _ eq_refl); try specialize (Hmx _ eq_refl); lia.
Qed.

Lemma calculatePrice_percentage_witness :
  calculatePrice 10000
    ([sampleRule' "admin" fixed 250 None None]
     ++ sampleRule percentage 1000 (Some 100) (Some 5000) :: [])
    "reseller" 1 "USD"
  = Ok {| PricingEngine.baseCost := 10000; markup := 1000; totalAmount := 11000;
          profit := 1000; priceCurrency := "USD";
          appliedRule := Some (sampleRule percentage 1000 (Some 100) (Some 5000)) |}.
Proof.
  refine (proj1 (calculatePrice_percentage 10000
                   [sampleRule' "admin" fixed 250 None None] [] "reseller" 1 "USD"
                   (sampleRule percentage 1000 (Some 100) (Some 5000))
                   _ eq_refl eq_refl)).
  constructor; [discriminate|constructor].
Defined.

(** C6 (the code departs from the claim).  [validateRule] accepts a fixed
    rule whose max_profit is negative, and a tiered rule with a negative
    tier markup value; for a non-negative base cost [calculatePrice] then
    returns a negative markup for either. *)
Theorem validateRule_accepts_negative_markup :
  (let rule := sampleRule fixed 100 None (Some (-5)) in
   valid (fst (validateRule rule)) = true
   /\ errors (fst (validateRule rule)) = None
   /\ exists p,
        calculatePrice 10000 [snd (validateRule rule)] "reseller" 1 "USD" = Ok p
        /\ markup p = -5 /\ totalAmount p = 9995)
  /\ (let rule :=
        mkRule "rule-2" "service-1" "reseller" tiered 0 None None
               (Some (mkTierConfig [mkTier 1 None (-500)])) in
      valid (fst (validateRule rule)) = true
      /\ errors (fst (validateRule rule)) = None
      /\ exists p,
           calculatePrice 10000 [snd (validateRule rule)] "reseller" 1 "USD" = Ok p
           /\ markup p = -500 /\ totalAmount p = 9500).
Proof.
  cbv zeta. split.
  - split; [reflexivity|]. split; [reflexivity|].
    eexists. repeat split; reflexivity.
  - split; [reflexivity|]. split; [reflexivity|].
    eexists. repeat split; reflexivity.
Qed.

Lemma jsFind_Some {A : Type} (p : A -> bool) (l : list A) (x : A) :
  jsFind p l = Some x -> In x l /\ p x = true.
Proof.
  induction l as [|y l IH]; cbn; [discriminate|].
  destruct (p y) eqn:Hp.
  - intros [= ->]. split; [left; reflexivity|assumption].
  - intros H. destruct (IH H) as [Hin Hx]. split; [right|]; assumption.
Qed.

Lemma bps_nonneg (baseCost value : Z) :
  0 <= baseCost -> 0 <= value -> 0 <= bps baseCost value.
Proof.
  intros Hb Hv. unfold bps. apply Z.div_pos; [|lia].
  apply Z.mul_nonneg_nonneg; assumption.
Qed.

Lemma sumProfit_app (l1 l2 : list Share) :
  sumProfit (l1 ++ l2) = sumProfit l1 + sumProfit l2.
Proof.
  induction l1 as [|x l1 IH]; cbn [app sumProfit]; [lia|]. rewrite IH. lia.
Qed.

Lemma sumProfit_rev (l : list Share) : sumProfit (rev l) = sumProfit l.
Proof.
  induction l as [|x l IH]; [reflexivity|].
  cbn [rev]. rewrite sumProfit_app, IH. cbn [sumProfit]. lia.
Qed.

(** One level of the hierarchy: the share is between 0 and what remains of
    the pool, and the pool is decremented by it. *)
Lemma distributeStep_share
    (baseCost : Z) (rules : list PricingRule)
    (d : list Share) (remaining : Z) (m : Member) :
  0 <= baseCost -> Forall ruleNonneg rules -> 0 <= remaining ->
  exists s,
    distributeStep baseCost rules (d, remaining) m
    = ((d ++ [s])%list, remaining - shareProfit s)
    /\ 0 <= shareProfit s <= remaining.
Proof.
  intros Hb Hrules Hrem. unfold distributeStep.
  destruct (jsFind _ rules) as [rule|] eqn:Hfind.
  2:{ eexists; split; [f_equal; cbn; lia|cbn; lia]. }
  destruct (remaining <=? 0) eqn:H0.
  { eexists; split; [f_equal; cbn; lia|cbn; lia]. }
  apply jsFind_Some in Hfind as [Hin _].
  rewrite Forall_forall in Hrules.
  destruct (Hrules rule) as (Hv & Hmn & Hmx).
  { apply list_elem_of_In. exact Hin. }
  pose proof (bps_nonneg baseCost (markupValue rule) Hb Hv) as Hbps.
  eexists (mkShare _ _ _); split; [reflexivity|]. cbn [shareProfit].
  set (p0 := match markupType rule with
             | fixed => _ | percentage => _ | tiered => _ end).
  assert (0 <= p0 <= remaining) as Hp0.
  { subst p0. destruct (markupType rule); lia. }
  set (p1 := match minProfit rule with Some mn => _ | None => _ end).
  assert (0 <= p1 <= remaining) as Hp1.
  { subst p1. destruct (minProfit rule) as [mn|]; [|exact Hp0].
    specialize (Hmn mn eq_refl). destruct (p0 <? mn); lia. }
  destruct (maxProfit rule) as [mx|]; [|exact Hp1].
  specialize (Hmx mx eq_refl). destruct (mx <? p1) eqn:H1; lia.
Qed.

Lemma distribute_fold
    (baseCost : Z) (rules : list PricingRule) (ms : list Member)
    (d : list Share) (remaining : Z) :
  0 <= baseCost -> Forall ruleNonneg rules -> 0 <= remaining ->
  Forall (fun s => 0 <= shareProfit s) d ->
  let '(d', remaining') :=
    fold_left (distributeStep baseCost rules) ms (d, remaining) in
  Forall (fun s => 0 <= shareProfit s) d'
  /\ sumProfit d' + remaining' = sumProfit d + remaining
  /\ 0 <= remaining'
  /\ length d' = (length d + length ms)%nat.
Proof.
  intros Hb Hrules. revert d remaining.
  induction ms as [|m ms IH]; intros d remaining Hrem Hd.
  - cbn. repeat split; try assumption; lia.
  - cbn [fold_left].
    destruct (distributeStep_share baseCost rules d remaining m Hb Hrules Hrem)
      as (s & -> & Hs).
    specialize (IH (d ++ [s])%list (remaining - shareProfit s)).
    destruct (fold_left _ ms _) as [d' remaining'].
    destruct IH as (H1 & H2 & H3 & H4).
    + lia.
    + apply Forall_app. split; [assumption|]. constructor; [lia|constructor].
    + rewrite sumProfit_app in H2. cbn [sumProfit] in H2.
      rewrite length_app in H4. cbn [length] in *.
      repeat split; try assumption; lia.
Qed.

(** What does hold: with non-negative profit bounds and tier values the
    markup of an applied rule is non-negative. *)
Lemma calculatePrice_markup_nonneg
    (baseCost : Z) (rules : list PricingRule) (userRole : string)
    (quantity : Z) (currency : string) (p : PriceCalculation) :
  0 <= baseCost -> Forall ruleNonneg rules ->
  Forall (fun r => forall cfg, tierConfig r = Some cfg ->
                   Forall (fun t => 0 <= tierMarkupValue t) (tiers cfg)) rules ->
  calculatePrice baseCost rules userRole quantity currency = Ok p ->
  0 <= markup p.
Proof.
  intros Hb Hrules Htiers. unfold calculatePrice.
  destruct (jsFind _ rules) as [rule|] eqn:Hfind; [|intros [= <-]; cbn; lia].
  apply jsFind_Some in Hfind as [Hin _].
  rewrite Forall_forall in Hrules, Htiers.
  apply list_elem_of_In in Hin.
  destruct (Hrules rule Hin) as (Hv & Hmn & Hmx).
  specialize (Htiers rule Hin).
  assert (forall m0, 0 <= m0 -> 0 <= applyLimits rule m0) as Hlim.
  { intros m0 Hm0. unfold applyLimits.
    destruct (minProfit rule) as [mn|]; [specialize (Hmn mn eq_refl)|];
      destruct (maxProfit rule) as [mx|]; try specialize (Hmx mx eq_refl);
      repeat match goal with |- context [?a <? ?b] => destruct (a <? b) eqn:? end;
      lia. }
  destruct (markupType rule).
  - intros [= <-]. cbn. apply Hlim, Hv.
  - intros [= <-]. cbn. apply Hlim, bps_nonneg; assumption.
  - destruct (tierConfig rule) as [cfg|]; [|intros [= <-]; cbn; apply Hlim; lia].
    specialize (Htiers cfg eq_refl). rewrite Forall_forall in Htiers.
    unfold calculateTieredMarkup.
    destruct (jsFind _ (tiers cfg)) as [tier|] eqn:Ht.
    + apply jsFind_Some in Ht as [Ht _]. apply list_elem_of_In in Ht.
      intros [= <-]. cbn. apply Hlim, bps_nonneg; [assumption|]. apply Htiers, Ht.
    + destruct (tiers cfg) as [|firstTier rest]; [discriminate|].
      intros [= <-]. cbn. apply Hlim, bps_nonneg; [assumption|].
      apply Htiers. left.
Qed.

(** With a negative base cost the percentage share of a role is
    negative, although the final price is not below the base cost. *)
Lemma negative_baseCost_negative_share :
  -10000 <= 0
  /\ Forall ruleNonneg [sampleRule percentage 1000 None None]
  /\ calculateProfitDistribution (-10000) 0 [mkMember "reseller" "user-1"]
       [sampleRule percentage 1000 None None]
     = [mkShare "user-1" "reseller" (-1000)].
Proof.
  split; [lia|]. split; [|reflexivity].
  constructor; [|constructor].
  unfold ruleNonneg; cbn. repeat split; [lia|discriminate|discriminate].
Qed.

(** C9 (amended).  For a non-negative base cost, a final price at least the
    base cost and rules whose markup values and profit bounds are
    non-negative, every role of the hierarchy receives one share, each
    share is non-negative, and the shares together do not exceed the pool
    finalPrice - baseCost. *)
Theorem profit_distribution_bounded
    (baseCost finalPrice : Z) (roleHierarchy : list Member)
    (rules : list PricingRule) :
  0 <= baseCost -> baseCost <= finalPrice -> Forall ruleNonneg rules ->
  Forall (fun s => 0 <= shareProfit s)
         (calculateProfitDistribution baseCost finalPrice roleHierarchy rules)
  /\ sumProfit (calculateProfitDistribution baseCost finalPrice roleHierarchy rules)
     <= finalPrice - baseCost
  /\ length (calculateProfitDistribution baseCost finalPrice roleHierarchy rules)
     = length roleHierarchy.
Proof.
  intros Hb Hle Hrules. unfold calculateProfitDistribution.
  pose proof (distribute_fold baseCost rules (rev roleHierarchy) []
                (finalPrice - baseCost) Hb Hrules) as H.
  destruct (fold_left _ _ _) as [d' remaining'].
  destruct H as (H1 & H2 & H3 & H4); [lia|constructor|].
  cbn [fst]. repeat split.
  - apply Forall_rev. exact H1.
  - rewrite sumProfit_rev. cbn [sumProfit] in H2. lia.
  - rewrite length_rev, H4, length_rev. reflexivity.
Qed.

Lemma profit_distribution_bounded_witness :
  let d := calculateProfitDistribution 10000 11500
             [mkMember "distributor" "user-0"; mkMember "reseller" "user-1"]
             [sampleRule percentage 1000 None None] in
  Forall (fun s => 0 <= shareProfit s) d
  /\ sumProfit d <= 11500 - 10000
  /\ length d = 2%nat.
Proof.
  apply (profit_distribution_bounded 10000 11500
           [mkMember "distributor" "user-0"; mkMember "reseller" "user-1"]
           [sampleRule percentage 1000 None None]).
  - lia.
  - lia.
  - constructor; [|constructor].
    unfold ruleNonneg; cbn. repeat split; [lia|discriminate|discriminate].
Defined.

(** A raw markup of 200 is raised to a min_profit of 500. *)
Example min_profit_raises_markup :
  calculatePrice 2000 [sampleRule percentage 1000 (Some 500) None]
                 "reseller" 1 "USD"
  = Ok (mkPrice 2000 500 2500 500 "USD"
          (Some (sampleRule percentage 1000 (Some 500) None))).
Proof. reflexivity. Qed.

(** No rule for the role: no markup. *)
Example no_rule_no_markup :
  calculatePrice 5000 [sampleRule fixed 300 None None] "customer" 1 "USD"
  = Ok (mkPrice 5000 0 5000 0 "USD" None).
Proof. reflexivity. Qed.

(** The leaf is served first; the root gets what remains of the pool. *)
Example distribution_sample :
  calculateProfitDistribution 10000 11500
    [mkMember "reseller" "user-0"; mkMember "reseller" "user-1"]
    [sampleRule percentage 1000 None None]
  = [mkShare "user-0" "reseller" 500; mkShare "user-1" "reseller" 1000].
Proof. reflexivity. Qed.

End PricingEngineFacts.

(** ** The schema validator *)
Module SchemaValidatorFacts.
Import SchemaValidator.

Section Collect.

Variable regexTest : string -> string -> Result string bool.
Variable stringToNumber : string -> JsNum.
Variable numberToString : JsNum -> string.
Variable input : JsInput.

Local Abbreviation step :=
  (validateStep regexTest stringToNumber numberToString input).
Local Abbreviation outcome :=
  (fieldOutcome regexTest stringToNumber numberToString input).

(** One turn of the loop, for a field whose check returns. *)
Lemma validateStep_Ok
    (st : gmap string (list string) * gmap string JsValue) (f : FieldSchema)
    (o : list string * option JsValue) :
  outcome f = Ok o ->
  step st f
  = Ok (match errorEntryOf (outcome f) with
        | Some es => assign (name f) es (fst st)
        | None => fst st
        end,
        match storedOfOutcome (outcome f) with
        | Some v => assign (name f) v (snd st)
        | None => snd st
        end).
Proof.
  unfold fieldOutcome, validateStep. intros ->.
  destruct o as [es stored]. cbn. destruct es; reflexivity.
Qed.

Lemma validateStep_Err
    (st : gmap string (list string) * gmap string JsValue) (f : FieldSchema)
    (e : string) :
  outcome f = Err e -> step st f = Err e.
Proof. unfold fieldOutcome, validateStep. intros ->. reflexivity. Qed.

(** The loop of [validate] returns exactly when the check of every field
    returns, and is then two independent series of assignments. *)
Lemma forEach_validateStep_Ok (l : list FieldSchema)
    (st st' : gmap string (list string) * gmap string JsValue) :
  forEach step l st = Ok st'
  <-> Forall (fun f => isOk (outcome f) = true) l
      /\ st' = (assignEach name (fun f => errorEntryOf (outcome f)) l (fst st),
                assignEach name (fun f => storedOfOutcome (outcome f)) l (snd st)).
Proof.
  unfold assignEach. revert st. induction l as [|f l IH]; intros st.
  - cbn. destruct st as [errs dat]. split.
    + intros [= <-]. split; [constructor|reflexivity].
    + intros [_ ->]. reflexivity.
  - cbn [forEach fold_left].
    destruct (outcome f) as [o|e] eqn:Ho.
    + rewrite (validateStep_Ok st f o Ho). cbn [bind]. rewrite IH.
      cbn [fst snd]. rewrite Ho. split.
      * intros [Hall ->]. split; [|reflexivity].
        constructor; [rewrite Ho; reflexivity|exact Hall].
      * intros [Hall ->]. split; [|reflexivity].
        apply Forall_cons in Hall as [_ Hall]. exact Hall.
    + rewrite (validateStep_Err st f e Ho). cbn [bind]. split; [discriminate|].
      intros [Hall _]. apply Forall_cons in Hall as [Hf _].
      rewrite Ho in Hf. discriminate.
Qed.

(** The exception the loop ends with is the one of the first field whose
    check throws. *)
Lemma forEach_validateStep_Err (l : list FieldSchema)
    (st : gmap string (list string) * gmap string JsValue) (e : string) :
  forEach step l st = Err e
  <-> exists pre f post,
        l = (pre ++ f :: post)%list
        /\ Forall (fun g => isOk (outcome g) = true) pre
        /\ outcome f = Err e.
Proof.
  revert st. induction l as [|f l IH]; intros st.
  - cbn. split; [discriminate|]. intros ([|? ?] & ? & ? & H & _); discriminate.
  - cbn [forEach]. destruct (outcome f) as [o|e'] eqn:Ho.
    + rewrite (validateStep_Ok st f o Ho). cbn [bind]. rewrite IH. split.
      * intros (pre & g & post & -> & Hpre & Hg).
        exists (f :: pre), g, post. split; [reflexivity|].
        split; [|exact Hg]. constructor; [rewrite Ho; reflexivity|exact Hpre].
      * intros ([|f' pre] & g & post & Heq & Hpre & Hg).
        -- injection Heq as <- _. congruence.
        -- injection Heq as <- ->. apply Forall_cons in Hpre as [_ Hpre].
           exists pre, g, post. split; [reflexivity|]. split; assumption.
    + rewrite (validateStep_Err st f e' Ho). cbn [bind]. split.
      * intros [= <-]. exists [], f, l. split; [reflexivity|].
        split; [constructor|exact Ho].
      * intros ([|f' pre] & g & post & Heq & Hpre & Hg).
        -- injection Heq as <- _. congruence.
        -- injection Heq as <- _. apply Forall_cons in Hpre as [Hf _].
           rewrite Ho in Hf. discriminate.
Qed.

(** The result of [validate] in terms of the two objects the loop
    fills. *)
Lemma validate_Ok (schema : ServiceInputSchema) (r : ValidationResult) :
  validate regexTest stringToNumber numberToString schema input = Ok r
  <-> Forall (fun f => isOk (outcome f) = true) (fields schema)
      /\ let em := assignEach name (fun f => errorEntryOf (outcome f))
                     (fields schema) ∅ in
         let dm := assignEach name (fun f => storedOfOutcome (outcome f))
                     (fields schema) ∅ in
         r = {| valid := Nat.eqb (size em) 0;
                errors := if Nat.ltb 0 (size em) then Some em else None;
                data := if Nat.eqb (size em) 0 then Some dm else None |}.
Proof.
  cbv zeta. unfold validate.
  destruct (forEach step (fields schema) (∅, ∅)) as [st|e] eqn:Hloop; cbn [bind].
  - apply forEach_validateStep_Ok in Hloop as [Hall ->]. cbn [fst snd]. split.
    + intros [= <-]. split; [exact Hall|reflexivity].
    + intros [_ ->]. reflexivity.
  - split; [discriminate|]. intros [Hall _].
    assert (exists st', forEach step (fields schema) (∅, ∅) = Ok st') as [st' H].
    { eexists. apply forEach_validateStep_Ok. split; [exact Hall|reflexivity]. }
    congruence.
Qed.

End Collect.

(** The scenario of the specification, on [exampleIMEISchema]: the input
    [{imei: "12345"}] is rejected with errors under [imei], the input
    [{imei: "123456789012345"}] is accepted. *)
Example imei_short_rejected
    (regexTest : string -> string -> Result string bool)
    (stringToNumber : string -> JsNum) (numberToString : JsNum -> string) :
  regexTest "^[0-9]{15}$" "12345" = Ok false ->
  numberToString (Num 15) = "15" ->
  validate regexTest stringToNumber numberToString exampleIMEISchema
           (plainObject {[ "imei" := JString "12345" ]})
  = Ok {| valid := false;
          errors := Some {[ "imei" := [ "IMEI Number format is invalid";
                                        "IMEI Number must be at least 15 characters" ] ]};
          data := None |}.
Proof.
  intros Hre Hshow. vm_compute in Hshow. vm_compute.
  rewrite Hre. vm_compute. rewrite Hshow. reflexivity.
Qed.

Example imei_full_accepted
    (regexTest : string -> string -> Result string bool)
    (stringToNumber : string -> JsNum) (numberToString : JsNum -> string) :
  regexTest "^[0-9]{15}$" "123456789012345" = Ok true ->
  validate regexTest stringToNumber numberToString exampleIMEISchema
           (plainObject {[ "imei" := JString "123456789012345" ]})
  = Ok {| valid := true;
          errors := None;
          data := Some {[ "imei" := JString "123456789012345" ]} |}.
Proof.
  intros Hre. vm_compute. rewrite Hre. vm_compute. reflexivity.
Qed.

(** C8 (the code departs from the claim).  A field named [__proto__] that
    produces an error is not reported: on the schema whose one field is
    the required e-mail field [__proto__] -- a schema [validateSchema]
    accepts -- and the input [{}], the check of the field pushes
    "Contact must be a valid email", yet [validate] returns valid = true,
    no errors and the data [{}].  The assignment
    [errors[field.name] = fieldErrors] creates no property under that
    name, so [Object.keys(errors)] stays empty. *)
Theorem validate_loses_proto_errors
    (regexTest : string -> string -> Result string bool)
    (stringToNumber : string -> JsNum) (numberToString : JsNum -> string) :
  let schema := {| fields := [protoField] |} in
  ServiceManager.valid (ServiceManager.validateSchema schema) = true
  /\ fieldOutcome regexTest stringToNumber numberToString
       (plainObject ∅) protoField
     = Ok (["Contact must be a valid email"], None)
  /\ validate regexTest stringToNumber numberToString schema (plainObject ∅)
     = Ok {| valid := true; errors := None; data := Some ∅ |}.
Proof.
  cbv zeta. split; [|split]; vm_compute; reflexivity.
Qed.

End SchemaValidatorFacts.


(** * Further properties of the code *)

(** ** The wallet ledger: errors, effects and invariants *)
Module WalletManagerMore.
Import WalletManager WalletManagerFacts.

(** The balance a ledger extended by one entry has. *)
Lemma calculateBalance_snoc (txs : list Transaction) (tx : Transaction) :
  available (calculateBalance (txs ++ [tx]))
  = available (calculateBalance txs) + availableSpec [tx]
  /\ locked (calculateBalance (txs ++ [tx]))
     = locked (calculateBalance txs) + lockedSpec [tx]
  /\ total (calculateBalance (txs ++ [tx]))
     = total (calculateBalance txs) + availableSpec [tx] + lockedSpec [tx].
Proof.
  pose proof (calculateBalance_fields txs) as (Ha & Hl & Ht).
  pose proof (calculateBalance_fields (txs ++ [tx])) as (Ha' & Hl' & Ht').
  rewrite Ha, Hl, Ht, Ha', Hl', Ht', availableSpec_app, lockedSpec_app.
  repeat split; lia.
Qed.

(** X1.  A non-positive amount is rejected by every operation with code
    INVALID_AMOUNT, before the balance is looked at. *)
Theorem nonpositive_amount_rejected
    (now : string) (input : TransactionCreateInput) (bal : WalletBalance)
    (ref : string) :
  in_amount input <= 0 ->
  (exists e, credit now input = Err e /\ code e = "INVALID_AMOUNT")
  /\ (exists e, debit now input bal = Err e /\ code e = "INVALID_AMOUNT")
  /\ (exists e, lock now input bal = Err e /\ code e = "INVALID_AMOUNT")
  /\ (exists e, unlock now input ref bal = Err e /\ code e = "INVALID_AMOUNT")
  /\ (exists e, refund now input ref = Err e /\ code e = "INVALID_AMOUNT").
Proof.
  intros Hle. unfold credit, debit, lock, unlock, refund.
  destruct (in_amount input <=? 0) eqn:H0; [|lia].
  repeat split; eexists; split; reflexivity.
Qed.

Lemma nonpositive_amount_rejected_witness :
  exists e,
    debit "n0" (sampleInput "debit" 0) (calculateBalance [sampleCredit]) = Err e
    /\ code e = "INVALID_AMOUNT".
Proof.
  apply (nonpositive_amount_rejected "n0" (sampleInput "debit" 0)
           (calculateBalance [sampleCredit]) "tx-1").
  cbn. lia.
Defined.

(** X2.  For a positive amount, [unlock] rejects with code
    INSUFFICIENT_LOCKED_BALANCE exactly when the locked balance is below
    the amount (the available balance plays no part); otherwise it returns
    an unlock entry that names the lock it releases. *)
Theorem unlock_insufficient_locked
    (now : string) (input : TransactionCreateInput) (lockId : string)
    (bal : WalletBalance) :
  0 < in_amount input ->
  (locked bal < in_amount input
   <-> exists e, unlock now input lockId bal = Err e
                 /\ code e = "INSUFFICIENT_LOCKED_BALANCE")
  /\ (in_amount input <= locked bal ->
      exists tx,
        unlock now input lockId bal = Ok tx
        /\ type tx = "unlock" /\ amount tx = in_amount input
        /\ parentTransactionId tx = Some lockId).
Proof.
  intros Hpos. unfold unlock.
  destruct (in_amount input <=? 0) eqn:H0; [lia|].
  destruct (locked bal <? in_amount input) eqn:H1.
  - split; [split|]; intros; try lia.
    eexists; split; reflexivity.
  - split; [split|].
    + lia.
    + intros (e & He & _). discriminate.
    + intros _. eexists. repeat split; reflexivity.
Qed.

Lemma unlock_insufficient_locked_witness :
  exists e,
    unlock "n0" (sampleInput "unlock" 100) "tx-1"
           (calculateBalance [sampleCredit]) = Err e
    /\ code e = "INSUFFICIENT_LOCKED_BALANCE".
Proof.
  apply (unlock_insufficient_locked "n0" (sampleInput "unlock" 100) "tx-1"
           (calculateBalance [sampleCredit])).
  - cbn. lia.
  - vm_compute. reflexivity.
Defined.

(** X3.  What each accepted entry does to the derived balance: a credit or a
    refund raises available (and total) by the amount, a debit lowers
    them, a lock moves the amount from available to locked and an unlock
    moves it back, both leaving the total as it was. *)
Theorem accepted_entry_effect
    (txs : list Transaction) (now : string) (input : TransactionCreateInput)
    (ref : string) (tx : Transaction) :
  let b := calculateBalance txs in
  let b' := calculateBalance (txs ++ [tx]) in
  let amt := in_amount input in
  (credit now input = Ok tx ->
   available b' = available b + amt /\ locked b' = locked b
   /\ total b' = total b + amt)
  /\ (debit now input b = Ok tx ->
      available b' = available b - amt /\ locked b' = locked b
      /\ total b' = total b - amt)
  /\ (lock now input b = Ok tx ->
      available b' = available b - amt /\ locked b' = locked b + amt
      /\ total b' = total b)
  /\ (unlock now input ref b = Ok tx ->
      available b' = available b + amt /\ locked b' = locked b - amt
      /\ total b' = total b)
  /\ (refund now input ref = Ok tx ->
      available b' = available b + amt /\ locked b' = locked b
      /\ total b' = total b + amt).
Proof.
  cbv zeta.
  pose proof (calculateBalance_snoc txs tx) as (Ha & Hl & Ht).
  repeat apply conj; intros H.
  - apply credit_Ok in H as (_ & ->).
    unfold availableSpec, lockedSpec in *; cbn in *; lia.
  - apply debit_Ok in H as (_ & _ & ->).
    unfold availableSpec, lockedSpec in *; cbn in *; lia.
  - apply lock_Ok in H as (_ & _ & ->).
    unfold availableSpec, lockedSpec in *; cbn in *; lia.
  - apply unlock_Ok in H as (_ & _ & ->).
    unfold availableSpec, lockedSpec in *; cbn in *; lia.
  - apply refund_Ok in H as (_ & ->).
    unfold availableSpec, lockedSpec in *; cbn in *; lia.
Qed.

Lemma accepted_entry_effect_witness :
  exists tx,
    lock "n1" (sampleInput "lock" 1200) (calculateBalance [sampleCredit]) = Ok tx
    /\ available (calculateBalance ([sampleCredit] ++ [tx]))
       = available (calculateBalance [sampleCredit]) - 1200
    /\ locked (calculateBalance ([sampleCredit] ++ [tx]))
       = locked (calculateBalance [sampleCredit]) + 1200
    /\ total (calculateBalance ([sampleCredit] ++ [tx]))
       = total (calculateBalance [sampleCredit]).
Proof.
  eexists. split; [reflexivity|].
  apply (proj1 (proj2 (proj2 (accepted_entry_effect [sampleCredit] "n1"
                                (sampleInput "lock" 1200) "tx-1" _)))).
  reflexivity.
Defined.

(** X4.  Neither balance goes negative: on a ledger whose available and locked
    balances are non-negative, an entry accepted by any of the five
    operations against the ledger's computed balance leaves both
    non-negative. *)
Theorem accepted_entry_keeps_balances_nonnegative
    (txs : list Transaction) (now : string) (input : TransactionCreateInput)
    (ref : string) (tx : Transaction) :
  0 <= available (calculateBalance txs) ->
  0 <= locked (calculateBalance txs) ->
  Accepted now input ref txs tx ->
  0 <= available (calculateBalance (txs ++ [tx]))
  /\ 0 <= locked (calculateBalance (txs ++ [tx])).
Proof.
  intros Hav Hlk Hacc.
  pose proof (calculateBalance_snoc txs tx) as (Ha & Hl & _).
  rewrite Ha, Hl. unfold availableSpec, lockedSpec.
  destruct Hacc as [H|[H|[H|[H|H]]]].
  - apply credit_Ok in H as (Hp & ->). cbn. lia.
  - apply debit_Ok in H as (Hp & Hle & ->). cbn. lia.
  - apply lock_Ok in H as (Hp & Hle & ->). cbn. lia.
  - apply unlock_Ok in H as (Hp & Hle & ->). cbn. lia.
  - apply refund_Ok in H as (Hp & ->). cbn. lia.
Qed.

Lemma accepted_entry_keeps_balances_nonnegative_witness :
  exists tx,
    0 <= available (calculateBalance ([sampleCredit] ++ [tx]))
    /\ 0 <= locked (calculateBalance ([sampleCredit] ++ [tx])).
Proof.
  exists (mkTx "n1" (sampleInput "debit" 5000) "debit" None "Wallet debit").
  apply (accepted_entry_keeps_balances_nonnegative [sampleCredit] "n1"
           (sampleInput "debit" 5000) "tx-1").
  - vm_compute. discriminate.
  - vm_compute. discriminate.
  - right. left. reflexivity.
Defined.

(** X5.  Locking funds for an order and then cancelling the payment restores
    the balance: on a ledger that covers the amount and whose locked
    balance is not negative, both calls succeed and the ledger extended by
    the lock and the unlock has the available, locked and total balance it
    had before. *)
Theorem cancelOrderPayment_restores_balance
    (txs : list Transaction) (amt : Z) (now now' w t o lockId u : string) :
  0 < amt -> amt <= available (calculateBalance txs) ->
  0 <= locked (calculateBalance txs) ->
  exists lockTx un,
    processOrderPayment now w t o amt u (calculateBalance txs) = Ok lockTx
    /\ cancelOrderPayment now' w t o amt lockId u
         (calculateBalance (txs ++ [lockTx])) = Ok un
    /\ available (calculateBalance (txs ++ [lockTx; un]))
       = available (calculateBalance txs)
    /\ locked (calculateBalance (txs ++ [lockTx; un]))
       = locked (calculateBalance txs)
    /\ total (calculateBalance (txs ++ [lockTx; un]))
       = total (calculateBalance txs).
Proof.
  intros Hpos Hav Hlk.
  set (lockTx := mkTx now (orderInput w t o "lock" amt "Payment for order " u)
                      "lock" None "Funds locked").
  set (un := mkTx now' (orderInput w t o "unlock" amt "Cancelled order " u)
                  "unlock" (Some lockId) "Funds unlocked").
  exists lockTx, un.
  pose proof (calculateBalance_snoc txs lockTx) as (Ha1 & Hl1 & Ht1).
  pose proof (calculateBalance_snoc (txs ++ [lockTx]) un) as (Ha2 & Hl2 & Ht2).
  rewrite <- app_assoc in Ha2, Hl2, Ht2. cbn [app] in Ha2, Hl2, Ht2.
  unfold availableSpec, lockedSpec in *. cbn in Ha1, Hl1, Ht1, Ha2, Hl2, Ht2.
  split; [|split].
  - unfold processOrderPayment, lock. cbn [in_amount orderInput].
    destruct (amt <=? 0) eqn:H0; [lia|].
    destruct (available (calculateBalance txs) <? amt) eqn:H1; [lia|].
    reflexivity.
  - unfold cancelOrderPayment, unlock. cbn [in_amount orderInput].
    destruct (amt <=? 0) eqn:H0; [lia|].
    destruct (locked _ <? amt) eqn:H1; [lia|].
    reflexivity.
  - repeat split; lia.
Qed.

Lemma cancelOrderPayment_restores_balance_witness :
  exists lockTx un,
    processOrderPayment "n1" "w1" "t1" "o1" 1200 "u1"
      (calculateBalance [sampleCredit]) = Ok lockTx
    /\ cancelOrderPayment "n2" "w1" "t1" "o1" 1200 "l1" "u1"
         (calculateBalance ([sampleCredit] ++ [lockTx])) = Ok un
    /\ available (calculateBalance ([sampleCredit] ++ [lockTx; un]))
       = available (calculateBalance [sampleCredit])
    /\ locked (calculateBalance ([sampleCredit] ++ [lockTx; un]))
       = locked (calculateBalance [sampleCredit])
    /\ total (calculateBalance ([sampleCredit] ++ [lockTx; un]))
       = total (calculateBalance [sampleCredit]).
Proof.
  apply (cancelOrderPayment_restores_balance [sampleCredit] 1200
           "n1" "n2" "w1" "t1" "o1" "l1" "u1").
  - lia.
  - vm_compute. discriminate.
  - vm_compute. discriminate.
Defined.

Lemma sumOf_filter_status_other (st ty : string) (txs : list Transaction) :
  st <> "completed" ->
  sumOf ty (List.filter (fun tx => String.eqb (status tx) st) txs) = 0.
Proof.
  intros Hst. induction txs as [|tx txs IH]; [reflexivity|].
  cbn [List.filter].
  destruct (String.eqb (status tx) st) eqn:Hs; [|exact IH].
  cbn [sumOf]. rewrite IH.
  apply String.eqb_eq in Hs.
  destruct (String.eqb (status tx) "completed") eqn:Hc; [|reflexivity].
  apply String.eqb_eq in Hc. congruence.
Qed.

Lemma sumOf_filter_type (ty ty' : string) (txs : list Transaction) :
  sumOf ty' (filterTransactionsByType txs ty)
  = if String.eqb ty ty' then sumOf ty txs else 0.
Proof.
  unfold filterTransactionsByType.
  induction txs as [|tx txs IH].
  - cbn. destruct (String.eqb ty ty'); reflexivity.
  - destruct tx as [i tn wl tty am cu st rt ri pa de me cb cr ca].
    cbn -[String.eqb] in *.
    destruct (String.eqb tty ty) eqn:Ht.
    + apply String.eqb_eq in Ht. subst tty. cbn -[String.eqb]. rewrite IH.
      destruct (String.eqb ty ty') eqn:Hty.
      * reflexivity.
      * rewrite andb_false_r. lia.
    + rewrite IH. destruct (String.eqb ty ty') eqn:Hty; [|reflexivity].
      apply String.eqb_eq in Hty. subst ty'. rewrite ?Ht, andb_false_r. lia.
Qed.

(** X6.  The ledger is additive: the balance of two ledgers laid end to end is
    the sum of their balances, a ledger of pending entries has balance
    zero, and the available balance is the sum of the available balances
    of the five per-type histories [filterTransactionsByType] returns. *)
Theorem calculateBalance_additive (l1 l2 txs : list Transaction) :
  (available (calculateBalance (l1 ++ l2))
   = available (calculateBalance l1) + available (calculateBalance l2)
   /\ locked (calculateBalance (l1 ++ l2))
      = locked (calculateBalance l1) + locked (calculateBalance l2)
   /\ total (calculateBalance (l1 ++ l2))
      = total (calculateBalance l1) + total (calculateBalance l2))
  /\ (available (calculateBalance (getPendingTransactions txs)) = 0
      /\ locked (calculateBalance (getPendingTransactions txs)) = 0)
  /\ available (calculateBalance txs)
     = available (calculateBalance (filterTransactionsByType txs "credit"))
       + available (calculateBalance (filterTransactionsByType txs "debit"))
       + available (calculateBalance (filterTransactionsByType txs "lock"))
       + available (calculateBalance (filterTransactionsByType txs "unlock"))
       + available (calculateBalance (filterTransactionsByType txs "refund")).
Proof.
  repeat apply conj.
  - pose proof (calculateBalance_fields (l1 ++ l2)) as (-> & _).
    pose proof (calculateBalance_fields l1) as (-> & _).
    pose proof (calculateBalance_fields l2) as (-> & _).
    apply availableSpec_app.
  - pose proof (calculateBalance_fields (l1 ++ l2)) as (_ & -> & _).
    pose proof (calculateBalance_fields l1) as (_ & -> & _).
    pose proof (calculateBalance_fields l2) as (_ & -> & _).
    apply lockedSpec_app.
  - pose proof (calculateBalance_fields (l1 ++ l2)) as (_ & _ & ->).
    pose proof (calculateBalance_fields l1) as (_ & _ & ->).
    pose proof (calculateBalance_fields l2) as (_ & _ & ->).
    rewrite availableSpec_app, lockedSpec_app. lia.
  - pose proof (calculateBalance_fields (getPendingTransactions txs)) as (-> & _).
    unfold availableSpec, getPendingTransactions.
    rewrite !sumOf_filter_status_other by discriminate. reflexivity.
  - pose proof (calculateBalance_fields (getPendingTransactions txs)) as (_ & -> & _).
    unfold lockedSpec, getPendingTransactions.
    rewrite !sumOf_filter_status_other by discriminate. reflexivity.
  - rewrite (proj1 (calculateBalance_fields txs)).
    rewrite !(fun l => proj1 (calculateBalance_fields l)).
    unfold availableSpec. rewrite !sumOf_filter_type. cbn. lia.
Qed.

(** X7.  [validateTransaction] accepts exactly the entries with a positive
    amount, a wallet id and a type, and reports no error list for them;
    every entry the five operations emit for an input that names a wallet
    passes it. *)
Theorem validateTransaction_accepts_emitted
    (tx : Transaction) (txs : list Transaction) (now ref : string)
    (input : TransactionCreateInput) :
  (txValid (validateTransaction tx) = true
   <-> 0 < amount tx /\ walletId tx <> "" /\ type tx <> "")
  /\ (txErrors (validateTransaction tx) = None
      <-> txValid (validateTransaction tx) = true)
  /\ (Accepted now input ref txs tx -> in_walletId input <> "" ->
      txValid (validateTransaction tx) = true).
Proof.
  assert (txValid (validateTransaction tx) = true
          <-> 0 < amount tx /\ walletId tx <> "" /\ type tx <> "") as Hchar.
  { unfold validateTransaction. cbv zeta.
    destruct (Z.leb_spec (amount tx) 0) as [Ha|Ha];
      destruct (String.eqb_spec (walletId tx) "") as [Hw|Hw];
      destruct (String.eqb_spec (type tx) "") as [Ht|Ht]; cbn;
      (split; [try discriminate|try (intros (H1 & H2 & H3); first [lia|congruence])]).
    intros _. repeat split; [lia|assumption|assumption]. }
  split; [exact Hchar|]. split.
  - unfold validateTransaction. cbv zeta.
    destruct (amount tx <=? 0); destruct (String.eqb (walletId tx) "");
      destruct (String.eqb (type tx) ""); cbn; split; congruence.
  - intros Hacc Hw. apply Hchar.
    destruct Hacc as [H|[H|[H|[H|H]]]].
    + apply credit_Ok in H as (Hp & ->). cbn. repeat split; [lia|exact Hw|discriminate].
    + apply debit_Ok in H as (Hp & _ & ->). cbn. repeat split; [lia|exact Hw|discriminate].
    + apply lock_Ok in H as (Hp & _ & ->). cbn. repeat split; [lia|exact Hw|discriminate].
    + apply unlock_Ok in H as (Hp & _ & ->). cbn. repeat split; [lia|exact Hw|discriminate].
    + apply refund_Ok in H as (Hp & ->). cbn. repeat split; [lia|exact Hw|discriminate].
Qed.

Lemma validateTransaction_accepts_emitted_witness :
  txValid (validateTransaction
             (mkTx "n1" (sampleInput "lock" 1200) "lock" None "Funds locked"))
  = true.
Proof.
  apply (proj2 (proj2 (validateTransaction_accepts_emitted
                         (mkTx "n1" (sampleInput "lock" 1200) "lock" None
                               "Funds locked")
                         [sampleCredit] "n1" "tx-1" (sampleInput "lock" 1200)))).
  - right. right. left. reflexivity.
  - discriminate.
Defined.

(** X8.  Every entry of the order-payment helpers is traceable: it carries the
    reference ("order", orderId), the wallet, tenant and user it was made
    for and the currency USD; the unlock entries name the lock they
    release, the refund names the transaction it reverses, and the lock
    and debit entries name no parent. *)
Theorem order_entries_traceable
    (now now' w t o lockId orig u : string) (amt : Z) (bal : WalletBalance) :
  let tagged (tx : Transaction) :=
    referenceType tx = Some "order" /\ referenceId tx = Some o
    /\ walletId tx = w /\ tenantId tx = t /\ createdBy tx = u
    /\ currency tx = "USD" in
  (forall tx, processOrderPayment now w t o amt u bal = Ok tx ->
     tagged tx /\ parentTransactionId tx = None)
  /\ (forall un db,
        completeOrderPayment now now' w t o amt lockId u bal = Ok (un, db) ->
        tagged un /\ parentTransactionId un = Some lockId
        /\ tagged db /\ parentTransactionId db = None)
  /\ (forall tx, cancelOrderPayment now w t o amt lockId u bal = Ok tx ->
        tagged tx /\ parentTransactionId tx = Some lockId)
  /\ (forall tx, refundOrder now w t o amt orig u = Ok tx ->
        tagged tx /\ parentTransactionId tx = Some orig).
Proof.
  cbv zeta. repeat apply conj.
  - intros tx H. unfold processOrderPayment in H.
    apply lock_Ok in H as (_ & _ & ->). cbn. repeat split.
  - intros un db H. apply completeOrderPayment_Ok in H as (_ & _ & -> & ->).
    cbn. repeat split.
  - intros tx H. unfold cancelOrderPayment in H.
    apply unlock_Ok in H as (_ & _ & ->). cbn. repeat split.
  - intros tx H. unfold refundOrder in H.
    apply refund_Ok in H as (_ & ->). cbn. repeat split.
Qed.

Lemma order_entries_traceable_witness :
  exists tx,
    refundOrder "n1" "w1" "t1" "o1" 300 "tx-9" "u1" = Ok tx
    /\ referenceId tx = Some "o1" /\ parentTransactionId tx = Some "tx-9".
Proof.
  eexists. split; [reflexivity|].
  destruct (proj2 (proj2 (proj2 (order_entries_traceable
              "n1" "n1" "w1" "t1" "o1" "l1" "tx-9" "u1" 300
              (calculateBalance [sampleCredit])))) _ eq_refl)
    as ((_ & Hr & _) & Hp).
  split; [exact Hr|exact Hp].
Defined.

End WalletManagerMore.

(** ** The order state machines: what a caller can reach *)
Module OrderStateMachineMore.
Import OrderStateMachine.

(** X9.  [getAvailableTransitions] and [canTransition] agree: the states
    offered from [s] are exactly the states other than [s] that
    [canTransition] allows, for the same caller. *)
Theorem getAvailableTransitions_canTransition
    (s t : OrderStatus) (userRole : option string) :
  In t (getAvailableTransitions s userRole)
  <-> t <> s /\ allowed (canTransition s t userRole) = true.
Proof.
  unfold getAvailableTransitions, canTransition.
  destruct (roleGiven userRole) as [r|].
  - destruct (includes ["super_admin"; "admin"] r) eqn:Hin;
      destruct s, t; cbn -[includes]; rewrite ?Hin; cbn;
      intuition (discriminate || congruence).
  - destruct s, t; cbn; intuition (discriminate || congruence).
Qed.

(** X10.  Dead ends.  Whatever the caller, a state offers no transition exactly
    when it is refunded or cancelled, or it is delivered and the caller
    gives a role that is not an administrator's; every other state always
    offers one. *)
Theorem getAvailableTransitions_empty
    (s : OrderStatus) (userRole : option string) :
  getAvailableTransitions s userRole = []
  <-> s = refunded \/ s = cancelled
      \/ (s = delivered
          /\ exists r, roleGiven userRole = Some r
                       /\ includes ["super_admin"; "admin"] r = false).
Proof.
  unfold getAvailableTransitions.
  destruct (roleGiven userRole) as [r|].
  - destruct (includes ["super_admin"; "admin"] r) eqn:Hin.
    + destruct s; cbn -[includes]; rewrite ?Hin; cbn -[includes]; split;
        try discriminate; try tauto;
        intros [H|[H|(H & r' & Hr & Hr')]]; try discriminate H; congruence.
    + destruct s; cbn -[includes]; rewrite ?Hin; cbn -[includes]; split;
        try discriminate; try tauto;
        try (intros [H|[H|(H & r' & Hr & Hr')]]; discriminate H).
      intros _. right. right. split; [reflexivity|]. exists r. split; congruence.
  - destruct s; cbn; split; try discriminate; try tauto;
      intros [H|[H|(H & r' & Hr & Hr')]]; discriminate.
Qed.

Lemma moves_not_to_pending (userRole : option string) (s t : OrderStatus) :
  moves userRole s t -> t <> pending.
Proof.
  intros [Hne Hal] ->. destruct s; try (apply Hne; reflexivity);
    unfold canTransition in Hal; cbn in Hal; discriminate.
Qed.

Lemma plainRole_given (userRole : option string) :
  plainRole userRole ->
  exists r, roleGiven userRole = Some r
            /\ includes ["super_admin"; "admin"] r = false.
Proof.
  intros (r & -> & Hne & Hin). exists r. split; [|exact Hin].
  cbn. apply String.eqb_neq in Hne. rewrite Hne. reflexivity.
Qed.

Lemma plainRole_closed (userRole : option string) (s t : OrderStatus) :
  plainRole userRole -> moves userRole s t ->
  s <> approved -> s <> refunded ->
  t <> approved /\ t <> refunded.
Proof.
  intros Hplain [Hne Hal] Hs1 Hs2.
  apply plainRole_given in Hplain as (r & Hr & Hin).
  unfold canTransition in Hal. rewrite Hr in Hal.
  destruct s, t; try congruence; cbn -[includes] in Hal;
    rewrite ?Hin in Hal; cbn in Hal; try discriminate; split; discriminate.
Qed.

(** X11.  Reachability.  By a chain of allowed transitions, (1) an administrator
    can take an order from pending to every state; (2) no caller can ever
    bring an order back to pending; (3) a caller with a role that is not
    an administrator's can never bring a pending order to approved or to
    refunded. *)
Theorem reachable_states :
  (forall s, rtc (moves (Some "admin")) pending s)
  /\ (forall userRole s, rtc (moves userRole) s pending -> s = pending)
  /\ (forall userRole s,
        plainRole userRole -> rtc (moves userRole) pending s ->
        s <> approved /\ s <> refunded).
Proof.
  assert (forall a b, a <> b ->
            allowed (canTransition a b (Some "admin")) = true ->
            moves (Some "admin") a b) as Hmove by (intros a b H1 H2; split; assumption).
  assert (rtc (moves (Some "admin")) pending payment_confirmed) as Hpc.
  { apply rtc_once, Hmove; [discriminate|reflexivity]. }
  assert (rtc (moves (Some "admin")) pending processing) as Hpr.
  { eapply rtc_r; [exact Hpc|]. apply Hmove; [discriminate|reflexivity]. }
  assert (rtc (moves (Some "admin")) pending failed) as Hfa.
  { eapply rtc_r; [exact Hpr|]. apply Hmove; [discriminate|reflexivity]. }
  repeat apply conj.
  - intros s. destruct s.
    + apply rtc_refl.
    + exact Hpc.
    + eapply rtc_r; [exact Hpc|]. apply Hmove; [discriminate|reflexivity].
    + exact Hpr.
    + eapply rtc_r; [exact Hpr|]. apply Hmove; [discriminate|reflexivity].
    + exact Hfa.
    + eapply rtc_r; [exact Hfa|]. apply Hmove; [discriminate|reflexivity].
    + apply rtc_once, Hmove; [discriminate|reflexivity].
  - intros userRole s Hrtc.
    apply rtc_inv_r in Hrtc as [Heq|(m & _ & Hm)]; [exact Heq|].
    exfalso. exact (moves_not_to_pending _ _ _ Hm eq_refl).
  - intros userRole s Hplain Hrtc.
    assert (forall a b, rtc (moves userRole) a b ->
              a <> approved /\ a <> refunded -> b <> approved /\ b <> refunded)
      as Hinv.
    { intros a b Hab. induction Hab as [a|a m b Ham _ IH]; [tauto|].
      intros [H1 H2]. apply IH.
      exact (plainRole_closed userRole a m Hplain Ham H1 H2). }
    apply (Hinv pending s Hrtc). split; discriminate.
Qed.

Lemma reachable_states_witness :
  plainRole (Some "reseller")
  /\ rtc (moves (Some "reseller")) pending processing
  /\ (processing <> approved /\ processing <> refunded).
Proof.
  assert (plainRole (Some "reseller")) as Hplain.
  { exists "reseller". split; [reflexivity|]. split; [discriminate|reflexivity]. }
  assert (rtc (moves (Some "reseller")) pending processing) as Hrtc.
  { apply rtc_l with payment_confirmed; [split; [discriminate|reflexivity]|].
    apply rtc_once. split; [discriminate|reflexivity]. }
  split; [exact Hplain|]. split; [exact Hrtc|].
  exact (proj2 (proj2 reachable_states) (Some "reseller") processing Hplain Hrtc).
Defined.

End OrderStateMachineMore.

Module OrderItemStateMachineFacts.
Import OrderItemStateMachine.

(** X12.  The item machine: the states offered from [s] are exactly the other
    states [canTransition] allows, a refusal carries a non-empty reason,
    and delivered is the only state that offers nothing; failed, which
    [isTerminalState] reports terminal, still offers the retry. *)
Theorem item_transitions (s t : OrderItemStatus) :
  (In t (getAvailableTransitions s)
   <-> t <> s /\ OrderStateMachine.allowed (canTransition s t) = true)
  /\ (OrderStateMachine.allowed (canTransition s t) = false ->
      OrderStateMachine.Rejected (canTransition s t))
  /\ (getAvailableTransitions s = [] <-> s = delivered)
  /\ (isTerminalState failed = true
      /\ getAvailableTransitions failed = [processing]).
Proof.
  split; [|split; [|split; [|split]]].
  - destruct s, t; cbn; intuition (discriminate || congruence).
  - unfold OrderStateMachine.Rejected.
    destruct s, t; cbn; try discriminate; intros _;
      (split; [reflexivity|eexists; split; [reflexivity|discriminate]]).
  - destruct s; cbn; split; congruence.
  - reflexivity.
  - reflexivity.
Qed.

End OrderItemStateMachineFacts.

(** ** The pricing engine: limits, failures and the tier order *)
Module PricingEngineMore.
Import PricingEngine PricingEngineFacts.

Lemma validateRule_limits_ordered (rule : PricingRule) (mn mx : Z) :
  valid (fst (validateRule rule)) = true ->
  minProfit rule = Some mn -> maxProfit rule = Some mx -> mn <= mx.
Proof.
  unfold validateRule. cbn [fst valid].
  destruct (validateRuleErrors rule) as [|e es] eqn:He; [|discriminate].
  intros _ Hmn Hmx. unfold validateRuleErrors in He. rewrite Hmn, Hmx in He.
  apply app_eq_nil in He as [_ He]. apply app_eq_nil in He as [_ He].
  apply app_eq_nil in He as [He _].
  destruct (mx <? mn) eqn:Hlt; [discriminate|lia].
Qed.

Lemma validateRule_tiers_nonempty (rule : PricingRule) :
  valid (fst (validateRule rule)) = true ->
  markupType rule = tiered ->
  exists cfg t ts, tierConfig rule = Some cfg /\ tiers cfg = t :: ts.
Proof.
  unfold validateRule. cbn [fst valid].
  destruct (validateRuleErrors rule) as [|e es] eqn:He; [|discriminate].
  intros _ Hty. unfold validateRuleErrors in He. rewrite Hty in He.
  apply app_eq_nil in He as [_ He]. apply app_eq_nil in He as [_ He].
  apply app_eq_nil in He as [_ He].
  destruct (tierConfig rule) as [cfg|]; [|discriminate].
  destruct (tiers cfg) as [|t ts] eqn:Ht; [discriminate|].
  exists cfg, t, ts. split; [reflexivity|exact Ht].
Qed.

(** X13.  The markup never exceeds a configured max_profit, and for a rule
    [validateRule] accepts it is never below a configured min_profit
    either. *)
Theorem markup_within_profit_limits
    (baseCost : Z) (rules : list PricingRule) (userRole : string)
    (quantity : Z) (currency : string) (rule : PricingRule)
    (p : PriceCalculation) :
  jsFind (fun r => String.eqb (role r) userRole) rules = Some rule ->
  calculatePrice baseCost rules userRole quantity currency = Ok p ->
  (forall mx, maxProfit rule = Some mx -> markup p <= mx)
  /\ (valid (fst (validateRule rule)) = true ->
      forall mn, minProfit rule = Some mn -> mn <= markup p).
Proof.
  intros Hfind. unfold calculatePrice. rewrite Hfind.
  destruct (match markupType rule with
            | fixed => _ | percentage => _ | tiered => _ end) as [m0|e];
    [|discriminate].
  intros [= <-]. cbn [markup]. unfold applyLimits. split.
  - intros mx ->. destruct (minProfit rule) as [mn|];
      repeat match goal with |- context [?a <? ?b] => destruct (a <? b) eqn:? end;
      lia.
  - intros Hvalid mn Hmn.
    pose proof (validateRule_limits_ordered rule mn) as Hord.
    rewrite Hmn. destruct (maxProfit rule) as [mx|].
    + specialize (Hord mx Hvalid Hmn eq_refl).
      repeat match goal with |- context [?a <? ?b] => destruct (a <? b) eqn:? end;
        lia.
    + destruct (m0 <? mn) eqn:?; lia.
Qed.

Lemma markup_within_profit_limits_witness :
  exists p,
    calculatePrice 2000 [sampleRule percentage 1000 (Some 500) (Some 900)]
                   "reseller" 1 "USD" = Ok p
    /\ 500 <= markup p <= 900.
Proof.
  eexists. split; [reflexivity|].
  destruct (markup_within_profit_limits 2000
              [sampleRule percentage 1000 (Some 500) (Some 900)]
              "reseller" 1 "USD"
              (sampleRule percentage 1000 (Some 500) (Some 900)) _
              eq_refl eq_refl) as [Hmax Hmin].
  split; [apply Hmin; reflexivity|apply Hmax; reflexivity].
Defined.

(** X14.  [calculatePrice] throws only on a tiered rule whose tier list is
    empty; a rule accepted by [validateRule] never makes it throw. *)
Theorem calculatePrice_throws_only_on_empty_tiers
    (baseCost : Z) (rules : list PricingRule) (userRole : string)
    (quantity : Z) (currency : string) :
  (isOk (calculatePrice baseCost rules userRole quantity currency) = false
   <-> exists rule cfg,
         jsFind (fun r => String.eqb (role r) userRole) rules = Some rule
         /\ markupType rule = tiered /\ tierConfig rule = Some cfg
         /\ tiers cfg = [])
  /\ (forall rule,
        jsFind (fun r => String.eqb (role r) userRole) rules = Some rule ->
        valid (fst (validateRule rule)) = true ->
        isOk (calculatePrice baseCost rules userRole quantity currency) = true).
Proof.
  assert (isOk (calculatePrice baseCost rules userRole quantity currency) = false
          <-> exists rule cfg,
                jsFind (fun r => String.eqb (role r) userRole) rules = Some rule
                /\ markupType rule = tiered /\ tierConfig rule = Some cfg
                /\ tiers cfg = []) as Hchar.
  { unfold calculatePrice.
    destruct (jsFind _ rules) as [rule|].
    2:{ cbn. split; [discriminate|]. intros (r & c & H & _). discriminate. }
    destruct (markupType rule) eqn:Hty.
    - cbn. split; [discriminate|]. intros (r & c & [= <-] & H & _). congruence.
    - cbn. split; [discriminate|]. intros (r & c & [= <-] & H & _). congruence.
    - destruct (tierConfig rule) as [cfg|] eqn:Hcfg.
      2:{ cbn. split; [discriminate|]. intros (r & c & [= <-] & _ & H & _). congruence. }
      unfold calculateTieredMarkup.
      destruct (jsFind _ (tiers cfg)) as [tier|] eqn:Hf.
      + cbn. split; [discriminate|].
        intros (r & c & [= <-] & _ & H & Hnil).
        assert (c = cfg) as -> by congruence. rewrite Hnil in Hf. discriminate.
      + destruct (tiers cfg) as [|t ts] eqn:Ht.
        * cbn. split; [|reflexivity]. intros _. exists rule, cfg. repeat split; assumption.
        * cbn. split; [discriminate|].
          intros (r & c & [= <-] & _ & H & Hnil).
          assert (c = cfg) as -> by congruence. congruence. }
  split; [exact Hchar|].
  intros rule Hfind Hvalid.
  apply not_false_iff_true. intros Hok.
  apply Hchar in Hok as (r & cfg & Hr & Hty & Hcfg & Hnil).
  assert (r = rule) as -> by congruence.
  destruct (validateRule_tiers_nonempty rule Hvalid Hty) as (c & t & ts & Hc & Ht).
  congruence.
Qed.

Lemma calculatePrice_throws_only_on_empty_tiers_witness :
  isOk (calculatePrice 10000
          [mkRule "rule-3" "service-1" "reseller" tiered 0 None None
                  (Some (mkTierConfig []))]
          "reseller" 1 "USD") = false.
Proof.
  apply (proj1 (calculatePrice_throws_only_on_empty_tiers 10000
                  [mkRule "rule-3" "service-1" "reseller" tiered 0 None None
                          (Some (mkTierConfig []))]
                  "reseller" 1 "USD")).
  eexists _, _. repeat split; reflexivity.
Defined.

Lemma insertTier_perm (t : Tier) (l : list Tier) :
  Permutation (insertTier t l) (t :: l).
Proof.
  induction l as [|x l IH]; cbn; [reflexivity|].
  destruct (minQuantity t <? minQuantity x); [reflexivity|].
  rewrite IH. apply perm_swap.
Qed.

Lemma insertTier_HdRel (x t : Tier) (l : list Tier) :
  tierLe x t -> HdRel tierLe x l -> HdRel tierLe x (insertTier t l).
Proof.
  intros Hxt Hl. destruct l as [|y l]; cbn; [constructor; exact Hxt|].
  destruct (minQuantity t <? minQuantity y).
  - constructor. exact Hxt.
  - constructor. inversion Hl; assumption.
Qed.

Lemma insertTier_sorted (t : Tier) (l : list Tier) :
  Sorted tierLe l -> Sorted tierLe (insertTier t l).
Proof.
  induction 1 as [|x l Hs IH Hhd]; cbn.
  - constructor; constructor.
  - destruct (minQuantity t <? minQuantity x) eqn:Hlt.
    + constructor; [constructor; assumption|]. constructor. unfold tierLe. lia.
    + constructor; [exact IH|]. apply insertTier_HdRel; [|exact Hhd].
      unfold tierLe. lia.
Qed.

Lemma sortTiers_fold (l acc : list Tier) :
  Sorted tierLe acc ->
  Permutation (fold_left (fun a t => insertTier t a) l acc) (acc ++ l)
  /\ Sorted tierLe (fold_left (fun a t => insertTier t a) l acc).
Proof.
  revert acc. induction l as [|t l IH]; intros acc Hacc; cbn [fold_left].
  - rewrite app_nil_r. split; [reflexivity|exact Hacc].
  - destruct (IH (insertTier t acc) (insertTier_sorted t acc Hacc)) as [Hp Hs].
    split; [|exact Hs]. rewrite Hp, insertTier_perm.
    cbn [app]. apply Permutation_middle.
Qed.

Lemma tiersOverlap_false (l : list Tier) :
  tiersOverlap l = false -> tiersDisjoint l.
Proof.
  unfold tiersDisjoint.
  induction l as [|x l IH]; intros Hov i a b m Ha Hb Hm Hm0.
  - discriminate Ha.
  - destruct l as [|y l]; [destruct i; discriminate Hb|].
    cbn [tiersOverlap] in Hov.
    destruct i as [|i].
    + cbn in Ha, Hb. injection Ha as ->. injection Hb as ->.
      rewrite Hm in Hov.
      destruct (m =? 0) eqn:H0; [lia|]. cbn [negb andb] in Hov.
      destruct (minQuantity b <=? m) eqn:Hle; [discriminate|lia].
    + apply (IH ltac:(destruct (maxQuantity x) as [mx|];
                      [destruct (negb (mx =? 0) && (minQuantity y <=? mx));
                       [discriminate|exact Hov]|exact Hov]) i a b m Ha Hb Hm Hm0).
Qed.

(** X15.  [validateRule] reorders the tiers of the rule it is given: a tiered
    rule with tiers comes back with the same tiers sorted by minQuantity,
    every other field untouched, and any other rule comes back as it was.
    When the rule is accepted, neighbouring tiers of the sorted list do
    not overlap. *)
Theorem validateRule_sorts_tiers (rule : PricingRule) :
  let rule' := snd (validateRule rule) in
  (PricingEngine.id rule' = PricingEngine.id rule
   /\ serviceId rule' = serviceId rule /\ role rule' = role rule
   /\ markupType rule' = markupType rule /\ markupValue rule' = markupValue rule
   /\ minProfit rule' = minProfit rule /\ maxProfit rule' = maxProfit rule)
  /\ (forall cfg,
        markupType rule = tiered -> tierConfig rule = Some cfg ->
        exists cfg',
          tierConfig rule' = Some cfg'
          /\ Permutation (tiers cfg') (tiers cfg)
          /\ Sorted tierLe (tiers cfg')
          /\ (valid (fst (validateRule rule)) = true -> tiersDisjoint (tiers cfg')))
  /\ (markupType rule <> tiered -> rule' = rule).
Proof.
  cbv zeta. unfold validateRule. cbn [snd fst valid].
  split; [|split].
  - unfold ruleAfterValidation.
    destruct (markupType rule) eqn:Hty; try (repeat split; congruence).
    destruct (tierConfig rule) as [cfg|]; [|repeat split; congruence].
    destruct (tiers cfg); cbn; repeat split; congruence.
  - intros cfg Hty Hcfg. unfold ruleAfterValidation. rewrite Hty, Hcfg.
    destruct (tiers cfg) as [|t ts] eqn:Ht.
    + exists cfg. rewrite Ht. split; [exact Hcfg|]. split; [reflexivity|].
      split; [constructor|]. intros _ i a b m Ha. discriminate Ha.
    + rewrite <- Ht. cbn [tierConfig tiers].
      destruct (sortTiers_fold (tiers cfg) [] ltac:(constructor)) as [Hp Hs].
      eexists. split; [reflexivity|]. cbn [tiers]. unfold sortTiers.
      split; [exact Hp|]. split; [exact Hs|].
      destruct (validateRuleErrors rule) as [|e es] eqn:He; [|discriminate].
      intros _. apply tiersOverlap_false.
      unfold validateRuleErrors in He. rewrite Hty, Hcfg, Ht in He.
      apply app_eq_nil in He as [_ He]. apply app_eq_nil in He as [_ He].
      apply app_eq_nil in He as [_ He]. rewrite <- Ht in He.
      unfold sortTiers in He.
      destruct (tiersOverlap _); [discriminate|reflexivity].
  - intros Hty. unfold ruleAfterValidation.
    destruct (markupType rule); [reflexivity|reflexivity|congruence].
Qed.

Lemma validateRule_sorts_tiers_witness :
  let rule :=
    mkRule "rule-4" "service-1" "reseller" tiered 0 None None
           (Some (mkTierConfig [mkTier 10 (Some 20) 500; mkTier 1 (Some 5) 700])) in
  exists cfg',
    tierConfig (snd (validateRule rule)) = Some cfg'
    /\ Permutation (tiers cfg')
                   [mkTier 10 (Some 20) 500; mkTier 1 (Some 5) 700]
    /\ Sorted tierLe (tiers cfg')
    /\ (valid (fst (validateRule rule)) = true -> tiersDisjoint (tiers cfg')).
Proof.
  cbv zeta.
  apply (proj1 (proj2 (validateRule_sorts_tiers
           (mkRule "rule-4" "service-1" "reseller" tiered 0 None None
              (Some (mkTierConfig
                       [mkTier 10 (Some 20) 500; mkTier 1 (Some 5) 700])))))
           (mkTierConfig [mkTier 10 (Some 20) 500; mkTier 1 (Some 5) 700])
           eq_refl eq_refl).
Defined.

(** Sorting is observable: the fallback of [calculateTieredMarkup] is the
    first tier, so the price of a quantity no tier covers differs before
    and after validation. *)
Example validateRule_changes_fallback_tier :
  let rule :=
    mkRule "rule-4" "service-1" "reseller" tiered 0 None None
           (Some (mkTierConfig [mkTier 10 (Some 20) 500; mkTier 1 (Some 5) 700])) in
  valid (fst (validateRule rule)) = true
  /\ (exists p, calculatePrice 10000 [rule] "reseller" 7 "USD" = Ok p
                /\ markup p = 500)
  /\ (exists p, calculatePrice 10000 [snd (validateRule rule)] "reseller" 7 "USD"
                = Ok p /\ markup p = 700).
Proof.
  cbv zeta. split; [reflexivity|]. split; eexists; split; reflexivity.
Qed.

Lemma distributeStep_entry
    (baseCost : Z) (rules : list PricingRule)
    (d : list Share) (remaining : Z) (m : Member) :
  exists profit remaining',
    distributeStep baseCost rules (d, remaining) m
    = ((d ++ [mkShare (userId m) (memberRole m) profit])%list, remaining')
    /\ (remaining <= 0 -> profit = 0 /\ remaining' = remaining)
    /\ (jsFind (fun r => String.eqb (role r) (memberRole m)) rules = None ->
        profit = 0 /\ remaining' = remaining).
Proof.
  unfold distributeStep.
  destruct (jsFind _ rules) as [rule|].
  - destruct (remaining <=? 0) eqn:H0.
    + do 2 eexists. split; [reflexivity|]. split; [tauto|discriminate].
    + do 2 eexists. split; [reflexivity|]. split; [lia|discriminate].
  - do 2 eexists. split; [reflexivity|]. split; tauto.
Qed.

Lemma distribute_fold_entries
    (baseCost : Z) (rules : list PricingRule) (ms : list Member)
    (d : list Share) (remaining : Z) :
  exists news remaining',
    fold_left (distributeStep baseCost rules) ms (d, remaining)
    = ((d ++ news)%list, remaining')
    /\ List.map shareUserId news = List.map userId ms
    /\ List.map shareRole news = List.map memberRole ms
    /\ (remaining <= 0 -> Forall (fun s => shareProfit s = 0) news)
    /\ Forall (fun s =>
                 jsFind (fun r => String.eqb (role r) (shareRole s)) rules = None ->
                 shareProfit s = 0) news.
Proof.
  revert d remaining. induction ms as [|m ms IH]; intros d remaining.
  - exists [], remaining. cbn. rewrite app_nil_r.
    repeat split; constructor.
  - cbn [fold_left].
    destruct (distributeStep_entry baseCost rules d remaining m)
      as (profit & rem1 & -> & Hzero & Hnone).
    destruct (IH (d ++ [mkShare (userId m) (memberRole m) profit])%list rem1)
      as (news & rem2 & -> & Hu & Hr & Hz & Hn).
    exists (mkShare (userId m) (memberRole m) profit :: news), rem2.
    split; [rewrite <- app_assoc; reflexivity|].
    cbn [List.map shareUserId shareRole]. rewrite Hu, Hr.
    repeat split.
    + intros Hle. destruct (Hzero Hle) as [-> ->].
      constructor; [reflexivity|]. apply Hz. exact Hle.
    + constructor; [|exact Hn]. cbn. intros Hnone'. apply Hnone, Hnone'.
Qed.

(** X16.  The distribution has one entry per member of the hierarchy, in the
    order of the hierarchy and with the member's user and role; a member
    whose role has no rule receives 0, and when the final price does not
    exceed the base cost everybody receives 0. *)
Theorem profit_distribution_entries
    (baseCost finalPrice : Z) (roleHierarchy : list Member)
    (rules : list PricingRule) :
  let d := calculateProfitDistribution baseCost finalPrice roleHierarchy rules in
  List.map shareUserId d = List.map userId roleHierarchy
  /\ List.map shareRole d = List.map memberRole roleHierarchy
  /\ Forall (fun s =>
               jsFind (fun r => String.eqb (role r) (shareRole s)) rules = None ->
               shareProfit s = 0) d
  /\ (finalPrice <= baseCost -> Forall (fun s => shareProfit s = 0) d).
Proof.
  cbv zeta. unfold calculateProfitDistribution.
  destruct (distribute_fold_entries baseCost rules (rev roleHierarchy) []
              (finalPrice - baseCost)) as (news & rem & -> & Hu & Hr & Hz & Hn).
  cbn [fst app].
  rewrite !map_rev, Hu, Hr, !map_rev, !rev_involutive.
  repeat split.
  - apply Forall_rev. exact Hn.
  - intros Hle. apply Forall_rev. apply Hz. lia.
Qed.

Lemma profit_distribution_entries_witness :
  Forall (fun s => shareProfit s = 0)
         (calculateProfitDistribution 10000 10000
            [mkMember "distributor" "user-0"; mkMember "reseller" "user-1"]
            [sampleRule percentage 1000 None None]).
Proof.
  apply (proj2 (proj2 (proj2 (profit_distribution_entries 10000 10000
           [mkMember "distributor" "user-0"; mkMember "reseller" "user-1"]
           [sampleRule percentage 1000 None None])))).
  lia.
Defined.

End PricingEngineMore.

(** ** The service manager and the validator's data *)
Module ServiceManagerFacts.
Import ServiceManager.

Local Abbreviation fname := SchemaValidator.name.
Local Abbreviation flabel := SchemaValidator.label.

(** The loop of [validateSchema]: the errors only grow, and none is added
    exactly when every field has a name and a label and no name was seen
    before. *)
Lemma validateSchema_fold (l : list SchemaValidator.FieldSchema)
    (errs : list string) (names : gset string) :
  fst (fold_left validateSchemaStep l (errs, names)) = []
  <-> errs = []
      /\ Forall (fun f => fname f <> "" /\ flabel f <> "") l
      /\ NoDup (List.map fname l)
      /\ (forall f, In f l -> fname f ∉ names).
Proof.
  revert errs names. induction l as [|f l IH]; intros errs names.
  - cbn. split; [intros ->; repeat split; [constructor|constructor|tauto]|tauto].
  - cbn [fold_left]. unfold validateSchemaStep at 2.
    destruct (String.eqb_spec (fname f) "") as [Hn|Hn];
      [|destruct (bool_decide_reflect (fname f ∈ names)) as [Hin|Hin]];
      destruct (String.eqb_spec (flabel f) "") as [Hl|Hl];
      rewrite IH; cbn [List.map]; split;
      try (intros (He & _); apply app_eq_nil in He as [_ He]; discriminate He);
      try (intros (_ & Hf & _); inversion Hf as [|? ? [H1 H2] ?]; congruence);
      try (intros (_ & _ & _ & Hnot); exfalso; apply (Hnot f); [left; reflexivity|exact Hin]).
    + intros (-> & Hf & Hnd & Hnot). split; [reflexivity|].
      split; [constructor; [split; assumption|exact Hf]|].
      split.
      * constructor; [|exact Hnd]. intros Hmem.
        apply list_elem_of_In, in_map_iff in Hmem as (g & Hg & Hgl).
        apply (Hnot g Hgl). rewrite Hg.
        apply elem_of_union. left. apply elem_of_singleton. reflexivity.
      * intros g [<-|Hg]; [exact Hin|].
        intros Hmem. apply (Hnot g Hg). apply elem_of_union. right. exact Hmem.
    + intros (-> & Hf & Hnd & Hnot). split; [reflexivity|].
      inversion Hf as [|? ? _ Hf']; subst. inversion Hnd as [|? ? Hnotin Hnd']; subst.
      split; [exact Hf'|]. split; [exact Hnd'|].
      intros g Hg Hmem. apply elem_of_union in Hmem as [Hmem|Hmem].
      * apply elem_of_singleton in Hmem. apply Hnotin. rewrite <- Hmem.
        apply list_elem_of_In, in_map. exact Hg.
      * apply (Hnot g); [right; exact Hg|exact Hmem].
Qed.

Lemma validateSchema_accepted_NoDup (schema : SchemaValidator.ServiceInputSchema) :
  valid (validateSchema schema) = true ->
  NoDup (List.map fname (SchemaValidator.fields schema)).
Proof.
  unfold validateSchema, listValidation. cbn [valid].
  destruct (fst (fold_left _ _ _)) as [|e es] eqn:Hfold; [|discriminate].
  intros _. apply validateSchema_fold in Hfold as (_ & _ & Hnd & _). exact Hnd.
Qed.

Lemma exampleIMEISchema_accepted :
  valid (validateSchema SchemaValidator.exampleIMEISchema) = true.
Proof. vm_compute. reflexivity. Qed.

(** X17.  [validateSchema] accepts a schema exactly when it has at least one
    field, every field has a non-empty name and label, and no two fields
    share a name. *)
Theorem validateSchema_valid_iff (schema : SchemaValidator.ServiceInputSchema) :
  valid (validateSchema schema) = true
  <-> SchemaValidator.fields schema <> []
      /\ Forall (fun f => fname f <> "" /\ flabel f <> "")
                (SchemaValidator.fields schema)
      /\ NoDup (List.map fname (SchemaValidator.fields schema)).
Proof.
  unfold validateSchema, listValidation. cbn [valid].
  pose proof (validateSchema_fold (SchemaValidator.fields schema)
                (match SchemaValidator.fields schema with
                 | [] => ["Service must have at least one input field"]
                 | _ => []
                 end) ∅) as Hfold.
  destruct (fst (fold_left _ _ _)) as [|e es].
  - destruct (proj1 Hfold eq_refl) as (H0 & Hf & Hnd & _).
    split; [|reflexivity]. intros _. split; [|split; assumption].
    destruct (SchemaValidator.fields schema); [discriminate H0|discriminate].
  - split; [discriminate|]. intros (Hne & Hf & Hnd).
    assert (e :: es = []) as Habs; [|discriminate Habs].
    apply Hfold. split; [|split; [exact Hf|split; [exact Hnd|]]].
    + destruct (SchemaValidator.fields schema); [congruence|reflexivity].
    + intros f _. apply not_elem_of_empty.
Qed.

Lemma validateSchema_valid_iff_witness :
  valid (validateSchema SchemaValidator.exampleIMEISchema) = true.
Proof.
  apply (proj2 (validateSchema_valid_iff SchemaValidator.exampleIMEISchema)).
  split; [discriminate|]. split.
  - repeat constructor; discriminate.
  - cbn. repeat constructor; rewrite ?elem_of_cons, ?elem_of_nil;
      intros H; decompose [or] H; discriminate || assumption.
Defined.

Lemma duplicateSlugs_fold (l : list ServiceCreateInput)
    (slugs : gset string) (dups : list string) :
  snd (fold_left duplicateSlugsStep l (slugs, dups)) = []
  <-> dups = []
      /\ NoDup (List.map in_slug l)
      /\ (forall x, In x l -> in_slug x ∉ slugs).
Proof.
  revert slugs dups. induction l as [|x l IH]; intros slugs dups.
  - cbn. split; [intros ->; repeat split; [constructor|tauto]|tauto].
  - cbn [fold_left]. unfold duplicateSlugsStep at 2.
    destruct (bool_decide_reflect (in_slug x ∈ slugs)) as [Hin|Hin];
      rewrite IH; cbn [List.map]; split.
    + intros (He & _). apply app_eq_nil in He as [_ He]. discriminate He.
    + intros (_ & _ & Hnot). exfalso. apply (Hnot x); [left; reflexivity|exact Hin].
    + intros (-> & Hnd & Hnot). split; [reflexivity|]. split.
      * constructor; [|exact Hnd]. intros Hmem.
        apply list_elem_of_In, in_map_iff in Hmem as (g & Hg & Hgl).
        apply (Hnot g Hgl). rewrite Hg.
        apply elem_of_union. left. apply elem_of_singleton. reflexivity.
      * intros g [<-|Hg]; [exact Hin|].
        intros Hmem. apply (Hnot g Hg). apply elem_of_union. right. exact Hmem.
    + intros (-> & Hnd & Hnot). split; [reflexivity|].
      inversion Hnd as [|? ? Hnotin Hnd']; subst.
      split; [exact Hnd'|].
      intros g Hg Hmem. apply elem_of_union in Hmem as [Hmem|Hmem].
      * apply elem_of_singleton in Hmem. apply Hnotin. rewrite <- Hmem.
        apply list_elem_of_In, in_map. exact Hg.
      * apply (Hnot g); [right; exact Hg|exact Hmem].
Qed.

Lemma duplicateSlugs_fold_sub (l : list ServiceCreateInput)
    (slugs : gset string) (dups : list string) (s : string) :
  In s (snd (fold_left duplicateSlugsStep l (slugs, dups))) ->
  In s dups \/ In s (List.map in_slug l).
Proof.
  revert slugs dups. induction l as [|x l IH]; intros slugs dups; [cbn; tauto|].
  cbn [fold_left List.map]. unfold duplicateSlugsStep at 2.
  destruct (bool_decide (in_slug x ∈ slugs)); intros H; apply IH in H.
  - destruct H as [H|H]; [|right; right; exact H].
    apply in_app_or in H as [H|[<-|[]]]; [left; exact H|right; left; reflexivity].
  - destruct H as [H|H]; [left; exact H|right; right; exact H].
Qed.

Lemma duplicateSlugs_fold_count (l : list ServiceCreateInput)
    (slugs : gset string) (dups : list string) :
  let r := fold_left duplicateSlugsStep l (slugs, dups) in
  fst r = list_to_set (List.map in_slug l) ∪ slugs
  /\ (length (snd r) + size (fst r) = length dups + size slugs + length l)%nat.
Proof.
  cbv zeta. revert slugs dups. induction l as [|x l IH]; intros slugs dups.
  - cbn. split; [|lia]. rewrite (left_id_L ∅ (∪)). reflexivity.
  - cbn [fold_left]. unfold duplicateSlugsStep at 2 4 6.
    destruct (bool_decide_reflect (in_slug x ∈ slugs)) as [Hin|Hin].
    + destruct (IH slugs (dups ++ [in_slug x])%list) as [H1 H2].
      split.
      * rewrite H1. cbn [List.map list_to_set].
        apply set_eq. intros y.
        rewrite !elem_of_union, elem_of_singleton.
        split; [tauto|]. intros [[->|H]|H]; tauto.
      * rewrite H2, length_app. cbn [length]. lia.
    + destruct (IH ({[in_slug x]} ∪ slugs) dups) as [H1 H2].
      split.
      * rewrite H1. cbn [List.map list_to_set].
        apply set_eq. intros y.
        rewrite !elem_of_union, elem_of_singleton. tauto.
      * rewrite H2, size_union, size_singleton; [cbn [length]; lia|].
        intros y Hy1 Hy2. apply elem_of_singleton in Hy1. subst y. exact (Hin Hy2).
Qed.

(** X18.  [checkDuplicateSlugs] reports nothing exactly when the slugs of the
    batch are pairwise different; it only reports slugs of the batch, and
    it reports one entry for every occurrence of a slug after the first:
    the reported entries and the distinct slugs together count the
    batch. *)
Theorem checkDuplicateSlugs_empty_iff (services : list ServiceCreateInput) :
  (checkDuplicateSlugs services = [] <-> NoDup (List.map in_slug services))
  /\ (forall s, In s (checkDuplicateSlugs services) ->
                In s (List.map in_slug services))
  /\ (length (checkDuplicateSlugs services)
      + size (list_to_set (List.map in_slug services) : gset string)
      = length services)%nat.
Proof.
  unfold checkDuplicateSlugs. split; [|split].
  - rewrite duplicateSlugs_fold. split.
    + intros (_ & H & _). exact H.
    + intros H. split; [reflexivity|]. split; [exact H|].
      intros x _. apply not_elem_of_empty.
  - intros s H. apply duplicateSlugs_fold_sub in H as [[]|H]. exact H.
  - destruct (duplicateSlugs_fold_count services ∅ []) as [H1 H2].
    rewrite H1 in H2. rewrite size_empty in H2. cbn [length] in H2.
    rewrite (right_id_L ∅ (∪)) in H2. lia.
Qed.

(** *** [generateSlug] *)

Lemma isSlugChar_not_dash (c : ascii) : isSlugChar c = true -> isDash c = false.
Proof.
  intros H. destruct (isDash c) eqn:Hd; [|reflexivity].
  apply Ascii.eqb_eq in Hd. subst c. vm_compute in H. discriminate.
Qed.

Lemma isDash_eq (c : ascii) : isDash c = true <-> c = dash.
Proof. apply Ascii.eqb_eq. Qed.

Lemma head_not_dash (c : ascii) (l : list ascii) :
  head (c :: l) <> Some dash <-> isDash c = false.
Proof.
  cbn. split.
  - intros H. destruct (isDash c) eqn:Hd; [|reflexivity].
    apply isDash_eq in Hd. congruence.
  - intros H [= ->]. vm_compute in H. discriminate.
Qed.

Lemma noDoubleDash_cons (c : ascii) (l : list ascii) :
  isDash c = false \/ head l <> Some dash ->
  noDoubleDash (c :: l) = noDoubleDash l.
Proof.
  intros H. destruct l as [|c2 l]; [reflexivity|].
  cbn [noDoubleDash].
  destruct H as [->|H]; [reflexivity|].
  apply head_not_dash in H. rewrite H, andb_false_r. reflexivity.
Qed.

Lemma replaceRuns_shape (b : bool) (l : list ascii) :
  Forall (fun c => isSlugChar c = true \/ c = dash) (replaceRuns b l)
  /\ noDoubleDash (replaceRuns b l) = true
  /\ (b = true -> head (replaceRuns b l) <> Some dash).
Proof.
  revert b. induction l as [|c l IH]; intros b.
  - cbn. repeat split; [constructor|discriminate].
  - cbn [replaceRuns]. destruct (isSlugChar c) eqn:Hc.
    + destruct (IH false) as (H1 & H2 & _). split; [|split].
      * constructor; [left; exact Hc|exact H1].
      * rewrite noDoubleDash_cons; [exact H2|].
        left. apply isSlugChar_not_dash, Hc.
      * intros _. apply head_not_dash, isSlugChar_not_dash, Hc.
    + destruct (IH true) as (H1 & H2 & H3). destruct b.
      * repeat split; [exact H1|exact H2|intros _; exact (H3 eq_refl)].
      * split; [|split].
        -- constructor; [right; reflexivity|exact H1].
        -- rewrite noDoubleDash_cons; [exact H2|]. right. exact (H3 eq_refl).
        -- discriminate.
Qed.

Lemma noDoubleDash_tail (c : ascii) (l : list ascii) :
  noDoubleDash (c :: l) = true -> noDoubleDash l = true.
Proof.
  destruct l as [|c2 l]; [reflexivity|]. cbn [noDoubleDash].
  intros H. apply andb_true_iff in H as [_ H]. exact H.
Qed.

Lemma dropLeadingDashes_shape (l : list ascii) :
  Forall (fun c => isSlugChar c = true \/ c = dash) l ->
  noDoubleDash l = true ->
  Forall (fun c => isSlugChar c = true \/ c = dash) (dropLeadingDashes l)
  /\ noDoubleDash (dropLeadingDashes l) = true
  /\ head (dropLeadingDashes l) <> Some dash.
Proof.
  induction l as [|c l IH]; intros Hf Hn.
  - cbn. repeat split; [constructor|discriminate].
  - cbn [dropLeadingDashes]. destruct (isDash c) eqn:Hd.
    + apply IH; [inversion Hf; assumption|exact (noDoubleDash_tail c l Hn)].
    + repeat split; [exact Hf|exact Hn|]. apply head_not_dash, Hd.
Qed.

Lemma dropTrailingDashes_head (l : list ascii) :
  dropTrailingDashes l = [] \/ head (dropTrailingDashes l) = head l.
Proof.
  destruct l as [|c l]; [left; reflexivity|].
  cbn [dropTrailingDashes]. destruct (dropTrailingDashes l).
  - destruct (isDash c); [left|right]; reflexivity.
  - right. reflexivity.
Qed.

Lemma dropTrailingDashes_shape (l : list ascii) :
  Forall (fun c => isSlugChar c = true \/ c = dash) l ->
  noDoubleDash l = true ->
  Forall (fun c => isSlugChar c = true \/ c = dash) (dropTrailingDashes l)
  /\ noDoubleDash (dropTrailingDashes l) = true
  /\ last (dropTrailingDashes l) <> Some dash.
Proof.
  induction l as [|c l IH]; intros Hf Hn.
  - cbn. repeat split; [constructor|discriminate].
  - inversion Hf as [|? ? Hc Hf']; subst.
    destruct (IH Hf' (noDoubleDash_tail c l Hn)) as (H1 & H2 & H3).
    pose proof (dropTrailingDashes_head l) as Hhead.
    cbn [dropTrailingDashes].
    destruct (dropTrailingDashes l) as [|c2 r'] eqn:Hr.
    + destruct (isDash c) eqn:Hd.
      * repeat split; [constructor|discriminate].
      * repeat split; [constructor; [exact Hc|constructor]|].
        cbn. intros [= ->]. vm_compute in Hd. discriminate.
    + destruct Hhead as [Habs|Hhead]; [discriminate|].
      split; [constructor; assumption|]. split.
      * destruct l as [|c3 l]; [discriminate Hr|].
        cbn in Hhead. injection Hhead as ->.
        cbn [noDoubleDash] in Hn |- *.
        apply andb_true_iff in Hn as [Hn1 _].
        rewrite Hn1. exact H2.
      * rewrite last_cons. destruct (last (c2 :: r')) eqn:Hl; [exact H3|].
        apply last_None in Hl. discriminate Hl.
Qed.

Lemma dropTrailingDashes_keeps_head (l : list ascii) :
  head l <> Some dash -> head (dropTrailingDashes l) <> Some dash.
Proof.
  intros H. destruct (dropTrailingDashes_head l) as [->| ->]; [discriminate|exact H].
Qed.

Lemma replaceRuns_id (b : bool) (l : list ascii) :
  Forall (fun c => isSlugChar c = true \/ c = dash) l ->
  noDoubleDash l = true ->
  (b = true -> head l <> Some dash) ->
  replaceRuns b l = l.
Proof.
  revert b. induction l as [|c l IH]; intros b Hf Hn Hb; [reflexivity|].
  inversion Hf as [|? ? Hc Hf']; subst.
  pose proof (noDoubleDash_tail c l Hn) as Hn'.
  cbn [replaceRuns]. destruct (isSlugChar c) eqn:Hs.
  - rewrite (IH false Hf' Hn'); [reflexivity|discriminate].
  - destruct Hc as [Hc|Hc]; [congruence|]. subst c.
    destruct b; [exfalso; apply (Hb eq_refl); reflexivity|].
    rewrite (IH true Hf' Hn'); [reflexivity|].
    intros _. destruct l as [|c2 l]; [discriminate|].
    cbn [noDoubleDash] in Hn. apply andb_true_iff in Hn as [Hn _].
    apply head_not_dash. change (isDash dash) with true in Hn.
    destruct (isDash c2); [discriminate Hn|reflexivity].
Qed.

Lemma dropLeadingDashes_id (l : list ascii) :
  head l <> Some dash -> dropLeadingDashes l = l.
Proof.
  destruct l as [|c l]; [reflexivity|]. intros H.
  apply head_not_dash in H. cbn. rewrite H. reflexivity.
Qed.

Lemma dropTrailingDashes_id (l : list ascii) :
  last l <> Some dash -> dropTrailingDashes l = l.
Proof.
  induction l as [|c l IH]; [reflexivity|]. intros H.
  cbn [dropTrailingDashes]. destruct l as [|c2 l].
  - cbn. destruct (isDash c) eqn:Hd; [|reflexivity].
    apply isDash_eq in Hd. subst c. exfalso. apply H. reflexivity.
  - rewrite IH by (rewrite last_cons in H; destruct (last (c2 :: l)) eqn:Hl;
                   [exact H|apply last_None in Hl; discriminate Hl]).
    reflexivity.
Qed.

(** X19.  The slug is well formed whatever the name: only a-z, 0-9 and dashes,
    no dash at either end, no two dashes in a row.  Provided lower-casing
    leaves well-formed slugs alone (they have no upper-case letter), a
    well-formed slug is its own slug, and so [generateSlug] is
    idempotent. *)
Theorem generateSlug_well_formed
    (toLowerCase : string -> string) (name : string) :
  isSlug (generateSlug toLowerCase name)
  /\ ((forall s, isSlug s -> toLowerCase s = s) ->
      (forall s, isSlug s -> generateSlug toLowerCase s = s)
      /\ generateSlug toLowerCase (generateSlug toLowerCase name)
         = generateSlug toLowerCase name).
Proof.
  assert (isSlug (generateSlug toLowerCase name)) as Hslug.
  { unfold isSlug, generateSlug, slugChars.
    rewrite list_ascii_of_string_of_list_ascii.
    destruct (replaceRuns_shape false
                (list_ascii_of_string (toLowerCase name))) as (R1 & R2 & _).
    destruct (dropLeadingDashes_shape _ R1 R2) as (L1 & L2 & L3).
    destruct (dropTrailingDashes_shape _ L1 L2) as (T1 & T2 & T3).
    repeat split; [exact T1|exact T2| |exact T3].
    apply dropTrailingDashes_keeps_head, L3. }
  split; [exact Hslug|]. intros Hlower.
  assert (forall s, isSlug s -> generateSlug toLowerCase s = s) as Hfix.
  { intros s Hs. unfold generateSlug. rewrite (Hlower s Hs).
    destruct Hs as (S1 & S2 & S3 & S4).
    rewrite replaceRuns_id by (assumption || discriminate).
    rewrite dropLeadingDashes_id by assumption.
    rewrite dropTrailingDashes_id by assumption.
    apply string_of_list_ascii_of_string. }
  split; [exact Hfix|]. apply Hfix, Hslug.
Qed.

Lemma asciiToLowerCase_slug (s : string) :
  isSlug s -> asciiToLowerCase s = s.
Proof.
  unfold isSlug, slugChars. intros (Hf & _). induction s as [|c s IH]; [reflexivity|].
  cbn in Hf. inversion Hf as [|? ? Hc Hf']; subst. cbn [asciiToLowerCase].
  rewrite (IH Hf'). f_equal. unfold lowerAscii.
  destruct Hc as [Hc| ->]; [|reflexivity].
  unfold isSlugChar in Hc.
  destruct (Nat.leb 65 (nat_of_ascii c) && Nat.leb (nat_of_ascii c) 90)%bool eqn:Hu;
    [|reflexivity].
  exfalso.
  apply andb_true_iff in Hu as [Hu1 Hu2].
  apply Nat.leb_le in Hu1, Hu2.
  apply orb_true_iff in Hc as [Hc|Hc]; apply andb_true_iff in Hc as [Hc1 Hc2];
    apply Nat.leb_le in Hc1, Hc2; lia.
Qed.

Lemma generateSlug_well_formed_witness :
  generateSlug asciiToLowerCase
    (generateSlug asciiToLowerCase "  iPhone 14 Pro -- Unlock!  ")
  = generateSlug asciiToLowerCase "  iPhone 14 Pro -- Unlock!  ".
Proof.
  apply (proj2 (generateSlug_well_formed asciiToLowerCase
                  "  iPhone 14 Pro -- Unlock!  ")).
  exact asciiToLowerCase_slug.
Defined.

Example generateSlug_sample :
  generateSlug asciiToLowerCase "  iPhone 14 Pro -- Unlock!  "
  = "iphone-14-pro-unlock".
Proof. reflexivity. Qed.

End ServiceManagerFacts.

(** ** The validator: what the errors and the data hold *)
Module SchemaValidatorMore.
Import SchemaValidator.

Lemma NoDup_map_filter {A B : Type} (f : A -> B) (p : A -> bool) (l : list A) :
  NoDup (List.map f l) -> NoDup (List.map f (List.filter p l)).
Proof.
  induction l as [|a l IH]; intros Hnd; [constructor|].
  cbn [List.map] in Hnd. apply NoDup_cons in Hnd as [Hnotin Hnd].
  cbn [List.filter]. destruct (p a); [|exact (IH Hnd)].
  cbn [List.map]. apply NoDup_cons. split; [|exact (IH Hnd)].
  intros Hin. apply Hnotin.
  apply list_elem_of_In, in_map_iff in Hin as (x & Hx & Hin).
  apply filter_In in Hin as [Hin _].
  rewrite <- Hx. apply list_elem_of_In, in_map, Hin.
Qed.

Section AssignEach.

Context {A V : Type} (key : A -> string) (val : A -> option V).

Lemma assign_proto (v : V) (m : gmap string V) : assign "__proto__" v m = m.
Proof. reflexivity. Qed.

Lemma assign_insert (k : string) (v : V) (m : gmap string V) :
  k <> "__proto__" -> assign k v m = <[k := v]> m.
Proof.
  intros Hk. unfold assign.
  rewrite (proj2 (String.eqb_neq _ _) Hk). reflexivity.
Qed.

Lemma assign_lookup_ne (k k' : string) (v : V) (m : gmap string V) :
  k <> k' -> assign k v m !! k' = m !! k'.
Proof.
  intros Hne. unfold assign. destruct (String.eqb k "__proto__"); [reflexivity|].
  apply lookup_insert_ne. exact Hne.
Qed.

Lemma assignEach_cons (a : A) (l : list A) (m : gmap string V) :
  assignEach key val (a :: l) m
  = assignEach key val l
      (match val a with Some v => assign (key a) v m | None => m end).
Proof. reflexivity. Qed.

(** No series of assignments creates the property [__proto__]. *)
Lemma assignEach_proto (l : list A) (m : gmap string V) :
  assignEach key val l m !! "__proto__" = m !! "__proto__".
Proof.
  revert m. induction l as [|a l IH]; intros m; [reflexivity|].
  rewrite assignEach_cons, IH. destruct (val a) as [v|]; [|reflexivity].
  destruct (decide (key a = "__proto__")) as [->|Hne].
  - rewrite assign_proto. reflexivity.
  - apply assign_lookup_ne. exact Hne.
Qed.

Lemma assignEach_keys (l : list A) (m : gmap string V) (k : string) :
  is_Some (assignEach key val l m !! k)
  <-> is_Some (m !! k)
      \/ (k <> "__proto__"
          /\ exists a, In a l /\ key a = k /\ is_Some (val a)).
Proof.
  revert m. induction l as [|a l IH]; intros m.
  - cbn. split; [tauto|]. intros [H|(_ & a & [] & _)]. exact H.
  - rewrite assignEach_cons, IH. split.
    + intros [H|(Hk & b & Hb & Hkb & Hv)].
      * destruct (val a) as [v|] eqn:Ha; [|left; exact H].
        destruct (decide (key a = k)) as [Heq|Hne].
        -- destruct (decide (k = "__proto__")) as [->|Hk].
           ++ rewrite Heq, assign_proto in H. left. exact H.
           ++ right. split; [exact Hk|]. exists a. rewrite Ha.
              split; [left; reflexivity|].
              split; [exact Heq|eexists; reflexivity].
        -- left. rewrite assign_lookup_ne in H by exact Hne. exact H.
      * right. split; [exact Hk|]. exists b.
        split; [right; exact Hb|]. split; assumption.
    + intros [H|(Hk & b & [<-|Hb] & Hkb & Hv)].
      * left. destruct (val a) as [v|]; [|exact H].
        destruct (decide (key a = k)) as [<-|Hne].
        -- destruct (decide (key a = "__proto__")) as [Hp|Hp].
           ++ rewrite Hp, assign_proto. rewrite Hp in H. exact H.
           ++ rewrite assign_insert by exact Hp.
              rewrite lookup_insert_eq. eexists; reflexivity.
        -- rewrite assign_lookup_ne by exact Hne. exact H.
      * left. destruct Hv as [v Hv]. rewrite Hv. subst k.
        rewrite assign_insert by exact Hk.
        rewrite lookup_insert_eq. eexists; reflexivity.
      * right. split; [exact Hk|]. exists b.
        split; [exact Hb|]. split; assumption.
Qed.

Lemma assignEach_values (l : list A) (m : gmap string V) (k : string) (v : V) :
  assignEach key val l m !! k = Some v ->
  m !! k = Some v
  \/ (k <> "__proto__" /\ exists a, In a l /\ key a = k /\ val a = Some v).
Proof.
  revert m. induction l as [|a l IH]; intros m; [cbn; tauto|].
  rewrite assignEach_cons. intros H.
  apply IH in H as [H|(Hk & b & Hb & Hkb & Hv)].
  - destruct (val a) as [w|] eqn:Ha; [|left; exact H].
    destruct (decide (key a = k)) as [<-|Hne].
    + destruct (decide (key a = "__proto__")) as [Hp|Hp].
      * rewrite Hp, assign_proto in H. rewrite Hp. left. exact H.
      * rewrite assign_insert, lookup_insert_eq in H by exact Hp.
        injection H as ->. right. split; [exact Hp|]. exists a.
        split; [left; reflexivity|]. split; [reflexivity|exact Ha].
    + left. rewrite assign_lookup_ne in H by exact Hne. exact H.
  - right. split; [exact Hk|]. exists b.
    split; [right; exact Hb|]. split; assumption.
Qed.

Lemma assignEach_other (l : list A) (m : gmap string V) (k : string) :
  ~ In k (List.map key l) -> assignEach key val l m !! k = m !! k.
Proof.
  revert m. induction l as [|a l IH]; intros m Hk; [reflexivity|].
  rewrite assignEach_cons. cbn [List.map] in Hk.
  rewrite IH by (intros H; apply Hk; right; exact H).
  destruct (val a); [|reflexivity].
  apply assign_lookup_ne. intros Heq. apply Hk. left. exact Heq.
Qed.

Lemma assignEach_exact (l : list A) (m : gmap string V) (a : A) :
  NoDup (List.map key l) -> In a l -> key a <> "__proto__" ->
  assignEach key val l m !! key a
  = match val a with Some v => Some v | None => m !! key a end.
Proof.
  revert m. induction l as [|b l IH]; intros m Hnd Hin Hp; [destruct Hin|].
  cbn [List.map] in Hnd. apply NoDup_cons in Hnd as [Hnotin Hnd].
  rewrite assignEach_cons.
  destruct Hin as [->|Hin].
  - rewrite assignEach_other by (rewrite <- list_elem_of_In; exact Hnotin).
    destruct (val a); [|reflexivity].
    rewrite assign_insert by exact Hp. apply lookup_insert_eq.
  - rewrite (IH _ Hnd Hin Hp).
    destruct (val a) as [v|]; [reflexivity|].
    destruct (val b); [|reflexivity].
    apply assign_lookup_ne. intros Heq. apply Hnotin.
    rewrite Heq. apply list_elem_of_In, in_map. exact Hin.
Qed.

End AssignEach.

Section Data.

Variable regexTest : string -> string -> Result string bool.
Variable stringToNumber : string -> JsNum.
Variable numberToString : JsNum -> string.

Local Abbreviation check := (typeCheck regexTest stringToNumber).
Local Abbreviation norm := (normalized stringToNumber).

(** The [switch] either stores the normalized value or pushes an
    error. *)
Lemma typeCheck_cases (f : FieldSchema) (v : JsValue) (es : list string)
    (st : option JsValue) :
  check f v = Ok (es, st) ->
  (es = [] /\ exists w, norm f v = Ok w /\ st = Some w)
  \/ (es <> [] /\ st = None).
Proof.
  unfold typeCheck, normalized.
  destruct (type f);
    try (intros [= <- <-]; left; split; [reflexivity|];
         eexists; split; reflexivity).
  - destruct v as [| |b|n|s|o]; cbn [isNumber Number_ bind];
      try destruct b; try destruct (toNumber o) as [x|e]; cbn [bind];
      try discriminate;
      try match goal with
          | |- context [isNaN ?x] => destruct (isNaN x)
          end;
      cbn [bind];
      intros [= <- <-];
      try (right; split; [discriminate|reflexivity]);
      left; (split; [reflexivity|]); eexists; split; reflexivity.
  - destruct v as [| |b|n|s|o];
      try (intros [= <- <-]; right; split; [discriminate|reflexivity]).
    destruct (isValidEmail regexTest s) as [[|]|e]; cbn [bind];
      try discriminate; intros [= <- <-].
    + left. split; [reflexivity|]. eexists; split; reflexivity.
    + right. split; [discriminate|reflexivity].
Qed.

Variable input : JsInput.

Local Abbreviation outcome :=
  (fieldOutcome regexTest stringToNumber numberToString input).

(** For a field without errors, a value is stored exactly when the input
    is not empty, and it is the normalized input. *)
Lemma stored_of_clean_field (f : FieldSchema) (st : option JsValue) :
  outcome f = Ok ([], st) ->
  if isEmpty (input (name f)) then st = None
  else exists w, norm f (input (name f)) = Ok w /\ st = Some w.
Proof.
  unfold fieldOutcome, validateField.
  set (v := input (name f)).
  destruct (isEmpty v), (required f); cbn [andb negb];
    try discriminate; try (intros [= <-]; reflexivity).
  - destruct (check f v) as [[es0 st0]|e] eqn:Hc; cbn [bind fst snd];
      [|discriminate].
    apply typeCheck_cases in Hc as [(-> & w & Hw & ->)|(Hne & ->)].
    + destruct (validation f) as [rules|].
      * destruct (ruleErrors _ _ _ f rules v) as [fe|e]; cbn [bind];
          [|discriminate].
        intros [= -> <-]. exists w. split; [exact Hw|reflexivity].
      * intros [= <-]. exists w. split; [exact Hw|reflexivity].
    + destruct es0 as [|e0 es0]; [congruence|].
      destruct (validation f); discriminate.
  - destruct (check f v) as [[es0 st0]|e] eqn:Hc; cbn [bind fst snd];
      [|discriminate].
    apply typeCheck_cases in Hc as [(-> & w & Hw & ->)|(Hne & ->)].
    + destruct (validation f) as [rules|].
      * destruct (ruleErrors _ _ _ f rules v) as [fe|e]; cbn [bind];
          [|discriminate].
        intros [= -> <-]. exists w. split; [exact Hw|reflexivity].
      * intros [= <-]. exists w. split; [exact Hw|reflexivity].
    + destruct es0 as [|e0 es0]; [congruence|].
      destruct (validation f); discriminate.
Qed.

Lemma errorEntryOf_Some (o : Result string (list string * option JsValue))
    (es : list string) :
  errorEntryOf o = Some es <-> errorsOfOutcome o = es /\ es <> [].
Proof.
  unfold errorEntryOf. destruct (errorsOfOutcome o) as [|e l].
  - split; [discriminate|]. intros [<- H]. congruence.
  - split; [intros [= <-]; split; [reflexivity|discriminate]|].
    intros [<- _]. reflexivity.
Qed.

Lemma errorEntryOf_is_Some (o : Result string (list string * option JsValue)) :
  is_Some (errorEntryOf o) <-> errorsOfOutcome o <> [].
Proof.
  unfold errorEntryOf. destruct (errorsOfOutcome o).
  - split; [intros [x Hx]; discriminate|congruence].
  - split; [discriminate|eexists; reflexivity].
Qed.

(** [validate] reports success exactly when no field other than one named
    [__proto__] has produced an error. *)
Lemma validate_valid (schema : ServiceInputSchema) (r : ValidationResult) :
  validate regexTest stringToNumber numberToString schema input = Ok r ->
  (valid r = true
   <-> forall f, In f (fields schema) -> name f <> "__proto__" ->
                 errorsOfOutcome (outcome f) = [])
  /\ (valid r = true -> errors r = None /\ is_Some (data r))
  /\ (valid r = false -> is_Some (errors r) /\ data r = None).
Proof.
  intros Hr. apply SchemaValidatorFacts.validate_Ok in Hr as [_ ->].
  cbv zeta. cbn [valid errors data].
  set (em := assignEach name (fun f => errorEntryOf (outcome f))
               (fields schema) ∅).
  split; [|split].
  - rewrite Nat.eqb_eq, map_size_empty_iff. split.
    + intros Hem f Hin Hp.
      destruct (errorsOfOutcome (outcome f)) as [|e es] eqn:Hf; [reflexivity|].
      assert (is_Some (em !! name f)) as [x Hx].
      { apply assignEach_keys. right. split; [exact Hp|]. exists f.
        split; [exact Hin|]. split; [reflexivity|].
        apply errorEntryOf_is_Some. rewrite Hf. discriminate. }
      rewrite Hem, lookup_empty in Hx. discriminate.
    + intros Hall. apply map_empty. intros k.
      destruct (em !! k) as [es|] eqn:Hk; [|reflexivity].
      apply assignEach_values in Hk as [Hk|(Hp & f & Hin & Hname & Hv)].
      * rewrite lookup_empty in Hk. discriminate.
      * apply errorEntryOf_Some in Hv as [Hv Hne].
        exfalso. apply Hne. rewrite <- Hv. apply Hall; [exact Hin|].
        rewrite Hname. exact Hp.
  - intros Hv. rewrite Hv. apply Nat.eqb_eq in Hv. rewrite Hv.
    split; [reflexivity|eexists; reflexivity].
  - intros Hv. rewrite Hv. destruct (size em); [discriminate Hv|].
    split; [eexists; reflexivity|reflexivity].
Qed.

End Data.

(** X20.  On a schema [validateSchema] accepts (its field names are pairwise
    different) and that names no field [__proto__], [validate] returns
    exactly when the check of no field throws, and what it returns is
    exact: it is valid exactly when no field has produced an error; a
    failing field is listed in the errors map under its name with
    precisely its own errors, every entry of the map is the error list of
    the field of that name, and the map has as many entries as there are
    failing fields; an invalid result carries no data. *)
Theorem validate_errors_exact
    (regexTest : string -> string -> Result string bool)
    (stringToNumber : string -> JsNum) (numberToString : JsNum -> string)
    (schema : ServiceInputSchema) (input : JsInput) :
  ServiceManager.valid (ServiceManager.validateSchema schema) = true ->
  Forall (fun f => name f <> "__proto__") (fields schema) ->
  let outcome := fieldOutcome regexTest stringToNumber numberToString input in
  let errorsOf := fun f => errorsOfOutcome (outcome f) in
  let run := validate regexTest stringToNumber numberToString schema input in
  ((exists r, run = Ok r)
   <-> forall f, In f (fields schema) -> isOk (outcome f) = true)
  /\ forall r, run = Ok r ->
       (valid r = true <-> forall f, In f (fields schema) -> errorsOf f = [])
       /\ (forall f, In f (fields schema) -> errorsOf f <> [] ->
             exists em, errors r = Some em /\ em !! name f = Some (errorsOf f))
       /\ (forall em k es, errors r = Some em -> em !! k = Some es ->
             exists f, In f (fields schema) /\ name f = k /\ errorsOf f = es
                       /\ es <> [])
       /\ (forall em, errors r = Some em ->
             size em
             = length (List.filter (fun f => match errorsOf f with
                                             | [] => false | _ => true end)
                                   (fields schema)))
       /\ (valid r = false -> data r = None).
Proof.
  intros Hschema Hproto outcome errorsOf run.
  apply ServiceManagerFacts.validateSchema_accepted_NoDup in Hschema as Hnd.
  rewrite List.Forall_forall in Hproto.
  split.
  - split.
    + intros [r Hr]. apply SchemaValidatorFacts.validate_Ok in Hr as [Hall _].
      rewrite List.Forall_forall in Hall. exact Hall.
    + intros Hall. eexists. apply SchemaValidatorFacts.validate_Ok.
      split; [apply List.Forall_forall; exact Hall|reflexivity].
  - intros r Hr.
    pose proof (validate_valid _ _ _ _ _ _ Hr) as (Hvalid & _ & Hinvalid).
    apply SchemaValidatorFacts.validate_Ok in Hr as [_ Hr]. cbv zeta in Hr.
    fold outcome in Hr, Hvalid.
    set (em0 := assignEach name (fun f => errorEntryOf (outcome f))
                  (fields schema) ∅) in Hr.
    assert (forall em, errors r = Some em -> em = em0) as Hem.
    { intros em. rewrite Hr. cbn [errors].
      destruct (Nat.ltb 0 _); [intros [= <-]; reflexivity|discriminate]. }
    split; [|split; [|split; [|split]]].
    + rewrite Hvalid. split.
      * intros H f Hin. apply H; [exact Hin|]. apply Hproto, Hin.
      * intros H f Hin _. apply H, Hin.
    + intros f Hin Hf.
      assert (em0 !! name f = Some (errorsOf f)) as Hlook.
      { unfold em0. rewrite (assignEach_exact name _ _ _ f Hnd Hin)
          by (apply Hproto, Hin).
        unfold errorEntryOf. fold (errorsOf f).
        destruct (errorsOf f); [congruence|reflexivity]. }
      exists em0. split; [|exact Hlook].
      rewrite Hr. cbn [errors].
      destruct (size em0) eqn:Hsize; [|reflexivity].
      apply map_size_empty_iff in Hsize.
      rewrite Hsize, lookup_empty in Hlook. discriminate.
    + intros em k es Hsome Hk. apply Hem in Hsome. subst em.
      apply assignEach_values in Hk as [Hk|(_ & f & Hin & Hname & Hv)].
      * rewrite lookup_empty in Hk. discriminate.
      * apply errorEntryOf_Some in Hv as [Hv Hne].
        exists f. repeat split; assumption.
    + intros em Hsome. apply Hem in Hsome. subst em.
      set (failing := List.filter _ (fields schema)).
      assert (dom em0 = list_to_set (List.map name failing)) as Hdom.
      { apply set_eq. intros k. unfold em0.
        rewrite elem_of_dom, assignEach_keys, elem_of_list_to_set.
        rewrite list_elem_of_In, in_map_iff. split.
        - intros [[x Hx]|(_ & f & Hin & Hk & Hv)].
          + rewrite lookup_empty in Hx. discriminate.
          + exists f. split; [exact Hk|]. apply filter_In. split; [exact Hin|].
            apply errorEntryOf_is_Some in Hv. fold (errorsOf f) in Hv.
            destruct (errorsOf f); [congruence|reflexivity].
        - intros (f & Hk & Hf). apply filter_In in Hf as [Hin Hf].
          right. split; [rewrite <- Hk; apply Hproto, Hin|].
          exists f. split; [exact Hin|]. split; [exact Hk|].
          apply errorEntryOf_is_Some. fold (errorsOf f).
          destruct (errorsOf f); [discriminate|discriminate]. }
      rewrite <- size_dom, Hdom, size_list_to_set.
      * apply length_map.
      * apply NoDup_map_filter. exact Hnd.
    + intros Hv. apply Hinvalid, Hv.
Qed.

Lemma validate_errors_exact_witness :
  exists r em,
    validate imeiRegexTest decimalToNumber wholeNumberToString
      exampleIMEISchema (plainObject {[ "imei" := JString "12345" ]}) = Ok r
    /\ valid r = false
    /\ errors r = Some em
    /\ em !! "imei" = Some [ "IMEI Number format is invalid";
                             "IMEI Number must be at least 15 characters" ]
    /\ data r = None.
Proof.
  destruct (validate_errors_exact imeiRegexTest decimalToNumber
              wholeNumberToString exampleIMEISchema
              (plainObject {[ "imei" := JString "12345" ]}))
    as [Hreturns Hexact].
  - vm_compute. reflexivity.
  - repeat constructor; discriminate.
  - destruct (proj2 Hreturns) as [r Hr].
    { intros f [<-|[<-|[]]]; vm_compute; reflexivity. }
    destruct (Hexact r Hr) as (Hvalid & Hlisted & _ & _ & Hdata).
    destruct (Hlisted (mkField "imei" text "IMEI Number" true
                         (Some "123456789012345")
                         (Some "15-digit IMEI number")
                         (Some (mkValidationRules (Some "^[0-9]{15}$")
                                  (Some (Num 15)) (Some (Num 15))
                                  None None None None None))))
      as (em & Hem & Hlook).
    { left. reflexivity. }
    { vm_compute. discriminate. }
    assert (valid r = false) as Hv.
    { destruct (valid r); [|reflexivity].
      pose proof (proj1 Hvalid eq_refl _ (or_introl eq_refl)) as Hclean.
      vm_compute in Hclean. discriminate Hclean. }
    exists r, em. split; [exact Hr|]. split; [exact Hv|].
    split; [exact Hem|]. split; [exact Hlook|]. exact (Hdata Hv).
Defined.

Section EmptyInput.

Variable regexTest : string -> string -> Result string bool.
Variable stringToNumber : string -> JsNum.
Variable numberToString : JsNum -> string.

Local Abbreviation outcome :=
  (fieldOutcome regexTest stringToNumber numberToString (plainObject ∅)).

(** The check of a field never throws on a member inherited from
    [Object.prototype]: its conversions return. *)
Lemma validateField_inherited_Ok (f : FieldSchema) (member : string) :
  isOk (validateField regexTest stringToNumber numberToString f
          (inheritedValue member)) = true.
Proof.
  unfold validateField, inheritedValue. cbn [isEmpty andb].
  rewrite !andb_false_r.
  assert (forall rules,
            isOk (ruleErrors regexTest stringToNumber numberToString f rules
                    (inheritedValue member)) = true) as Hrules.
  { intros rules.
    unfold ruleErrors, patternErrors, minErrors, maxErrors, optionsErrors,
      inheritedValue.
    destruct (pattern rules), (min rules), (max rules), (options rules);
      reflexivity. }
  unfold typeCheck.
  destruct (type f); cbn [bind fst snd isNumber Number_ toNumber];
    destruct (validation f) as [rules|]; try reflexivity;
    specialize (Hrules rules); unfold inheritedValue in Hrules;
    destruct (ruleErrors _ _ _ f rules _); try reflexivity; discriminate.
Qed.

Lemma outcome_empty_object (f : FieldSchema) :
  inherits (name f) = false ->
  outcome f = if required f then Ok ([label f ++ " is required"], None)
              else Ok ([], None).
Proof.
  intros Hf. unfold fieldOutcome, plainObject.
  rewrite lookup_empty, Hf. unfold validateField.
  destruct (required f); reflexivity.
Qed.

Lemma outcome_empty_object_Ok (f : FieldSchema) : isOk (outcome f) = true.
Proof.
  destruct (inherits (name f)) eqn:Hf.
  - unfold fieldOutcome, plainObject. rewrite lookup_empty, Hf.
    apply validateField_inherited_Ok.
  - rewrite (outcome_empty_object f Hf). destruct (required f); reflexivity.
Qed.

End EmptyInput.

(** X21.  The empty input [{}].  Its validation never throws, whatever the
    schema.  When no field is named after a member of [Object.prototype],
    it succeeds exactly when the schema has no required field; otherwise
    the errors map lists exactly the required field names, each with the
    single message "... is required" of a required field of that name;
    and nothing is stored in the data. *)
Theorem validate_empty_input
    (regexTest : string -> string -> Result string bool)
    (stringToNumber : string -> JsNum) (numberToString : JsNum -> string)
    (schema : ServiceInputSchema) :
  let run :=
    validate regexTest stringToNumber numberToString schema (plainObject ∅) in
  isOk run = true
  /\ (Forall (fun f => inherits (name f) = false) (fields schema) ->
      exists r,
        run = Ok r
        /\ (valid r = true <-> getRequiredFields schema = [])
        /\ (forall k, (exists em, errors r = Some em /\ is_Some (em !! k))
                      <-> In k (getRequiredFields schema))
        /\ (forall em k es, errors r = Some em -> em !! k = Some es ->
              exists f, In f (fields schema) /\ required f = true
                        /\ name f = k /\ es = [label f ++ " is required"])
        /\ (valid r = true -> data r = Some ∅)).
Proof.
  cbv zeta.
  assert (exists r, validate regexTest stringToNumber numberToString schema
                      (plainObject ∅) = Ok r) as [r Hr].
  { eexists. apply SchemaValidatorFacts.validate_Ok.
    split; [|reflexivity]. apply List.Forall_forall. intros f _.
    apply outcome_empty_object_Ok. }
  split; [rewrite Hr; reflexivity|].
  intros Hnames. rewrite List.Forall_forall in Hnames.
  exists r. split; [exact Hr|].
  pose proof (validate_valid _ _ _ _ _ _ Hr) as (Hvalid & _ & _).
  apply SchemaValidatorFacts.validate_Ok in Hr as [_ Hr]. cbv zeta in Hr.
  set (outcome := fieldOutcome regexTest stringToNumber numberToString
                    (plainObject ∅)) in *.
  assert (forall f, In f (fields schema) ->
            outcome f = if required f
                        then Ok ([label f ++ " is required"], None)
                        else Ok ([], None)) as Hfield.
  { intros f Hin. apply outcome_empty_object, Hnames, Hin. }
  assert (forall f, In f (fields schema) -> name f <> "__proto__") as Hproto.
  { intros f Hin Heq. specialize (Hnames f Hin). rewrite Heq in Hnames.
    discriminate Hnames. }
  assert (forall f, In f (fields schema) ->
            errorEntryOf (outcome f)
            = if required f then Some [label f ++ " is required"] else None)
    as Hentry.
  { intros f Hin. rewrite (Hfield f Hin). destruct (required f); reflexivity. }
  set (em0 := assignEach name (fun f => errorEntryOf (outcome f))
                (fields schema) ∅) in Hr.
  assert (forall k, is_Some (em0 !! k) <-> In k (getRequiredFields schema))
    as Hkeys.
  { intros k. unfold em0. rewrite assignEach_keys. unfold getRequiredFields.
    rewrite in_map_iff. split.
    - intros [[x Hx]|(_ & f & Hin & Hk & Hv)].
      + rewrite lookup_empty in Hx. discriminate.
      + exists f. split; [exact Hk|]. apply filter_In. split; [exact Hin|].
        rewrite (Hentry f Hin) in Hv. destruct (required f); [reflexivity|].
        destruct Hv; discriminate.
    - intros (f & Hk & Hf). apply filter_In in Hf as [Hin Hf].
      right. split; [rewrite <- Hk; apply Hproto, Hin|].
      exists f. split; [exact Hin|]. split; [exact Hk|].
      rewrite (Hentry f Hin), Hf. eexists; reflexivity. }
  assert (forall em, errors r = Some em -> em = em0) as Hem.
  { intros em. rewrite Hr. cbn [errors].
    destruct (Nat.ltb 0 _); [intros [= <-]; reflexivity|discriminate]. }
  split; [|split; [|split]].
  - rewrite Hvalid. unfold getRequiredFields. split.
    + intros Hall.
      destruct (List.filter required (fields schema)) as [|f l] eqn:Hf;
        [reflexivity|].
      assert (In f (List.filter required (fields schema))) as Hin
        by (rewrite Hf; left; reflexivity).
      apply filter_In in Hin as [Hin Hreq].
      specialize (Hall f Hin (Hproto f Hin)).
      rewrite (Hfield f Hin), Hreq in Hall. discriminate Hall.
    + intros Hnil f Hin _. rewrite (Hfield f Hin).
      destruct (required f) eqn:Hreq; [|reflexivity].
      assert (In (name f) (List.map name (List.filter required (fields schema))))
        as Habs by (apply in_map, filter_In; split; assumption).
      rewrite Hnil in Habs. destruct Habs.
  - intros k. rewrite <- Hkeys. rewrite Hr. cbn [errors]. fold em0.
    destruct (size em0) eqn:Hsize; cbn [Nat.ltb Nat.leb].
    + apply map_size_empty_iff in Hsize. rewrite Hsize. split.
      * intros (em & H & _). discriminate.
      * intros [x Hx]. rewrite lookup_empty in Hx. discriminate.
    + split; [intros (em & [= <-] & H); exact H|].
      intros H. eexists. split; [reflexivity|exact H].
  - intros em k es Hsome Hk. apply Hem in Hsome. subst em.
    apply assignEach_values in Hk as [Hk|(_ & f & Hin & Hname & Hv)].
    + rewrite lookup_empty in Hk. discriminate.
    + rewrite (Hentry f Hin) in Hv. exists f.
      destruct (required f); [|discriminate].
      injection Hv as <-. repeat split; assumption.
  - rewrite Hr. cbn [valid data]. intros ->. f_equal.
    apply map_eq. intros k. rewrite lookup_empty.
    destruct (assignEach _ _ _ _ !! k) as [v|] eqn:Hk; [|reflexivity].
    apply assignEach_values in Hk as [Hk|(_ & f & Hin & _ & Hv)].
    + rewrite lookup_empty in Hk. discriminate.
    + rewrite (Hfield f Hin) in Hv. destruct (required f); discriminate.
Qed.

Lemma validate_empty_input_witness :
  Forall (fun f => inherits (name f) = false) (fields exampleIMEISchema)
  /\ exists r,
       validate imeiRegexTest decimalToNumber wholeNumberToString
         exampleIMEISchema (plainObject ∅) = Ok r
       /\ valid r = false
       /\ (exists em, errors r = Some em /\ is_Some (em !! "imei")).
Proof.
  assert (Forall (fun f => inherits (name f) = false)
                 (fields exampleIMEISchema)) as Hnames
    by (repeat constructor).
  split; [exact Hnames|].
  destruct (proj2 (validate_empty_input imeiRegexTest decimalToNumber
                     wholeNumberToString exampleIMEISchema) Hnames)
    as (r & Hr & Hvalid & Hkeys & _).
  exists r. split; [exact Hr|]. split.
  - destruct (valid r); [|reflexivity].
    apply proj1 in Hvalid. specialize (Hvalid eq_refl). discriminate Hvalid.
  - apply Hkeys. left. reflexivity.
Defined.

(** On [{}], a required field named [constructor] is not missing: the
    read returns the function every object inherits. *)
Example required_constructor_passes
    (regexTest : string -> string -> Result string bool)
    (stringToNumber : string -> JsNum) (numberToString : JsNum -> string) :
  validate regexTest stringToNumber numberToString
    {| fields := [mkField "constructor" text "Builder" true None None None] |}
    (plainObject ∅)
  = Ok {| valid := true; errors := None;
          data := Some {[ "constructor" := inheritedValue "constructor" ]} |}.
Proof. vm_compute. reflexivity. Qed.

(** X22.  The data of a successful validation holds exactly the declared
    fields, other than [__proto__], whose input is not empty -- keys of
    the input that the schema does not declare are dropped -- and each
    value is the normalized input of a field of that name: a number for a
    number field, a boolean for a checkbox, the input itself otherwise. *)
Theorem validate_data_content
    (regexTest : string -> string -> Result string bool)
    (stringToNumber : string -> JsNum) (numberToString : JsNum -> string)
    (schema : ServiceInputSchema) (input : JsInput)
    (r : ValidationResult) (d : gmap string JsValue) :
  validate regexTest stringToNumber numberToString schema input = Ok r ->
  data r = Some d ->
  (forall k, is_Some (d !! k)
             <-> k <> "__proto__"
                 /\ exists f, In f (fields schema) /\ name f = k
                              /\ isEmpty (input k) = false)
  /\ (forall k v, d !! k = Some v ->
        exists f, In f (fields schema) /\ name f = k
                  /\ normalized stringToNumber f (input k) = Ok v).
Proof.
  intros Hr Hd.
  pose proof (validate_valid _ _ _ _ _ _ Hr) as (Hvalid & _ & Hinvalid).
  assert (valid r = true) as Hv.
  { destruct (valid r); [reflexivity|].
    destruct (Hinvalid eq_refl) as [_ Hnone]. congruence. }
  pose proof (proj1 Hvalid Hv) as Hclean.
  apply SchemaValidatorFacts.validate_Ok in Hr as [Hall Hr].
  rewrite List.Forall_forall in Hall. cbv zeta in Hr.
  set (outcome := fieldOutcome regexTest stringToNumber numberToString input)
    in *.
  assert (forall f, In f (fields schema) -> name f <> "__proto__" ->
            outcome f = Ok ([], storedOfOutcome (outcome f))) as Hok.
  { intros f Hin Hp. specialize (Hall f Hin). specialize (Hclean f Hin Hp).
    destruct (outcome f) as [[es st]|e]; [|discriminate Hall].
    cbn in Hclean. subst es. reflexivity. }
  rewrite Hr in Hd. cbn [data] in Hd.
  rewrite Hr in Hv. cbn [valid] in Hv. rewrite Hv in Hd. injection Hd as <-.
  split.
  - intros k. rewrite assignEach_keys. split.
    + intros [[x Hx]|(Hp & f & Hin & Hk & Hs)].
      * rewrite lookup_empty in Hx. discriminate.
      * split; [exact Hp|]. exists f. split; [exact Hin|]. split; [exact Hk|].
        assert (name f <> "__proto__") as Hpf by (rewrite Hk; exact Hp).
        pose proof (stored_of_clean_field _ _ _ _ f _ (Hok f Hin Hpf)) as Hst.
        rewrite Hk in Hst. destruct (isEmpty (input k)); [|reflexivity].
        rewrite Hst in Hs. destruct Hs; discriminate.
    + intros (Hp & f & Hin & Hk & He). right. split; [exact Hp|].
      exists f. split; [exact Hin|]. split; [exact Hk|].
      assert (name f <> "__proto__") as Hpf by (rewrite Hk; exact Hp).
      pose proof (stored_of_clean_field _ _ _ _ f _ (Hok f Hin Hpf)) as Hst.
      rewrite Hk, He in Hst. destruct Hst as (w & _ & ->).
      eexists; reflexivity.
  - intros k v Hk.
    apply assignEach_values in Hk as [Hk|(Hp & f & Hin & Hname & Hs)].
    + rewrite lookup_empty in Hk. discriminate.
    + exists f. split; [exact Hin|]. split; [exact Hname|].
      assert (name f <> "__proto__") as Hpf by (rewrite Hname; exact Hp).
      pose proof (stored_of_clean_field _ _ _ _ f _ (Hok f Hin Hpf)) as Hst.
      rewrite Hname in Hst.
      destruct (isEmpty (input k)); [congruence|].
      destruct Hst as (w & Hw & Hst). congruence.
Qed.

Lemma validate_data_content_witness :
  let input := plainObject {[ "imei" := JString "123456789012345";
                              "note" := JString "x" ]} in
  validate imeiRegexTest decimalToNumber wholeNumberToString
    exampleIMEISchema input
  = Ok {| valid := true; errors := None;
          data := Some {[ "imei" := JString "123456789012345" ]} |}
  /\ (is_Some (({[ "imei" := JString "123456789012345" ]}
                 : gmap string JsValue) !! "note")
      <-> "note" <> "__proto__"
          /\ exists f, In f (fields exampleIMEISchema) /\ name f = "note"
                       /\ isEmpty (input "note") = false).
Proof.
  cbv zeta.
  assert (validate imeiRegexTest decimalToNumber wholeNumberToString
            exampleIMEISchema
            (plainObject {[ "imei" := JString "123456789012345";
                            "note" := JString "x" ]})
          = Ok {| valid := true; errors := None;
                  data := Some {[ "imei" := JString "123456789012345" ]} |})
    as Hr by (vm_compute; reflexivity).
  split; [exact Hr|].
  exact (proj1 (validate_data_content imeiRegexTest decimalToNumber
                  wholeNumberToString exampleIMEISchema _ _ _ Hr eq_refl)
               "note").
Defined.

End SchemaValidatorMore.

(** ** The order manager *)
Module OrderManagerFacts.
Import OrderStateMachine OrderManager.

Lemma calculatePrice_breakdown
    (baseCost : Z) (rules : list PricingEngine.PricingRule) (userRole : string)
    (quantity : Z) (currency : string) (p : PricingEngine.PriceCalculation) :
  PricingEngine.calculatePrice baseCost rules userRole quantity currency = Ok p ->
  PricingEngine.baseCost p = baseCost
  /\ PricingEngine.totalAmount p = (baseCost + PricingEngine.markup p) * quantity
  /\ PricingEngine.profit p = PricingEngine.markup p * quantity
  /\ PricingEngine.priceCurrency p = currency.
Proof.
  unfold PricingEngine.calculatePrice.
  destruct (jsFind _ rules) as [rule|].
  - destruct (match PricingEngine.markupType rule with
              | PricingEngine.fixed => _
              | PricingEngine.percentage => _
              | PricingEngine.tiered => _ end) as [m0|e]; [|discriminate].
    intros [= <-]. cbn. repeat split.
  - intros [= <-]. cbn. repeat split; lia.
Qed.

(** X23.  [placeOrder] checks the input first, then the role, then prices the
    order.  What the validator throws rejects the call.  When the
    validator returns: an invalid input gives VALIDATION_ERROR with the
    validator's error map, whatever the role; a valid input from a role
    the service does not admit gives ACCESS_DENIED; otherwise, if the
    pricing engine returns, the order is unpaid, starts in pending when
    the service requires approval and in payment_confirmed when not,
    carries the validated data and a total of base cost plus markup.  A
    returned result is a success exactly when the input is valid and the
    role admitted. *)
Theorem placeOrder_outcome
    (regexTest : string -> string -> Result string bool)
    (stringToNumber : string -> SchemaValidator.JsNum)
    (numberToString : SchemaValidator.JsNum -> string) (orderNumber : string)
    (input : OrderCreateInput) (service : ServiceManager.Service)
    (rules : list PricingEngine.PricingRule) :
  let validated :=
    validateOrderInput regexTest stringToNumber numberToString service
      (in_inputData input) in
  let access := ServiceManager.canAccessService service (in_userRole input) in
  let result :=
    placeOrder regexTest stringToNumber numberToString orderNumber input
      service rules in
  (forall e, validated = Err e -> result = Err e)
  /\ forall validation, validated = Ok validation ->
  (SchemaValidator.valid validation = false ->
   result = Ok {| success := false; order := None;
                  error := Some {| code := "VALIDATION_ERROR";
                                   message := "Invalid input data";
                                   validationErrors :=
                                     SchemaValidator.errors validation |} |})
  /\ (SchemaValidator.valid validation = true -> access = false ->
      result = Ok {| success := false; order := None;
                     error := Some {| code := "ACCESS_DENIED";
                                      message := "Service not available for your role";
                                      validationErrors := None |} |})
  /\ (SchemaValidator.valid validation = true -> access = true ->
      forall pricing,
        PricingEngine.calculatePrice (ServiceManager.baseCost service) rules
          (in_userRole input) 1 (ServiceManager.currency service) = Ok pricing ->
        exists o,
          result = Ok {| success := true; order := Some o; error := None |}
          /\ Orders.status o
             = (if ServiceManager.requiresApproval service
                then pending else payment_confirmed)
          /\ Some (Orders.inputData o) = SchemaValidator.data validation
          /\ Orders.baseCost o = ServiceManager.baseCost service
          /\ Orders.markup o = PricingEngine.markup pricing
          /\ Orders.totalAmount o = Orders.baseCost o + Orders.markup o
          /\ Orders.paidAmount o = 0
          /\ Orders.orderNumber o = orderNumber)
  /\ (forall r, result = Ok r ->
        (success r = true
         <-> SchemaValidator.valid validation = true /\ access = true)).
Proof.
  cbv zeta. unfold placeOrder.
  set (access := ServiceManager.canAccessService service (in_userRole input)).
  split; [intros e ->; reflexivity|].
  intros validation Hvalidated. rewrite Hvalidated. cbn [bind].
  split; [|split; [|split]].
  - intros ->. reflexivity.
  - intros -> ->. reflexivity.
  - intros Hv Ha pricing Hp. rewrite Hv, Ha, Hp. cbn [negb].
    eexists. split; [reflexivity|]. cbn.
    destruct (calculatePrice_breakdown _ _ _ _ _ _ Hp) as (_ & Ht & _).
    repeat split; try lia.
    unfold dataOf. unfold validateOrderInput in Hvalidated.
    destruct (proj1 (proj2 (SchemaValidatorMore.validate_valid
                              _ _ _ _ _ _ Hvalidated)) Hv) as [_ [d Hd]].
    rewrite Hd. reflexivity.
  - intros r. destruct (SchemaValidator.valid validation); cbn [negb].
    + destruct access; cbn [negb].
      * destruct (PricingEngine.calculatePrice _ _ _ _ _); [|discriminate].
        intros [= <-]. cbn. tauto.
      * intros [= <-]. cbn. split; [discriminate|intros [_ H]; discriminate].
    + intros [= <-]. cbn. split; [discriminate|intros [H _]; discriminate].
Qed.

Lemma placeOrder_outcome_witness :
  exists o,
    placeOrder SchemaValidator.imeiRegexTest SchemaValidator.decimalToNumber
      SchemaValidator.wholeNumberToString
      "ORD-1700000000000-0042" sampleOrderInput sampleService
      [PricingEngine.sampleRule PricingEngine.percentage 1000 None None]
    = Ok {| success := true; order := Some o; error := None |}
    /\ Orders.status o = payment_confirmed
    /\ Orders.totalAmount o = 11000.
Proof.
  assert (validateOrderInput SchemaValidator.imeiRegexTest
            SchemaValidator.decimalToNumber SchemaValidator.wholeNumberToString
            sampleService (in_inputData sampleOrderInput)
          = Ok {| SchemaValidator.valid := true;
                  SchemaValidator.errors := None;
                  SchemaValidator.data :=
                    Some {[ "imei" :=
                              SchemaValidator.JString "123456789012345" ]} |})
    as Hvalidated by (vm_compute; reflexivity).
  destruct (proj2 (placeOrder_outcome
              SchemaValidator.imeiRegexTest SchemaValidator.decimalToNumber
              SchemaValidator.wholeNumberToString
              "ORD-1700000000000-0042" sampleOrderInput sampleService
              [PricingEngine.sampleRule PricingEngine.percentage 1000 None None])
             _ Hvalidated) as (_ & _ & Hplaced & _).
  destruct (Hplaced eq_refl ltac:(vm_compute; reflexivity) _ eq_refl)
    as (o & Ho & Hs & _ & Hb & Hm & Ht & _).
  exists o. split; [exact Ho|]. split; [exact Hs|].
  rewrite Ht, Hb, Hm. reflexivity.
Defined.

Lemma includes_admin (r : string) :
  includes ["super_admin"; "admin"] r = true
  <-> r = "super_admin" \/ r = "admin".
Proof.
  change (includes ["super_admin"; "admin"] r)
    with (String.eqb "super_admin" r || (String.eqb "admin" r || false)).
  rewrite orb_false_r, orb_true_iff, !String.eqb_eq.
  split; intros [H|H]; auto.
Qed.

(** X24.  Who may approve, cancel and refund.  Approval is granted exactly to an
    administrator on an order in payment_confirmed (or already approved):
    an order still in pending cannot be approved.  Cancelling is granted
    to anybody on a pending order and, on an order in payment_confirmed,
    approved or failed, to administrators and to callers passing the empty
    role; refunding, on a failed or delivered order, to the same callers.
    Repeating the state an order is in is always granted. *)
Theorem order_actions_granted
    (order : Orders.Order) (approvedBy userRole : string) :
  let s := Orders.status order in
  let admin := userRole = "super_admin" \/ userRole = "admin" in
  (allowed (approveOrder order approvedBy userRole) = true
   <-> admin /\ (s = payment_confirmed \/ s = approved))
  /\ (allowed (cancelOrder order userRole) = true
      <-> s = cancelled \/ s = pending
          \/ ((s = payment_confirmed \/ s = approved \/ s = failed)
              /\ (userRole = "" \/ admin)))
  /\ (allowed (refundOrder order userRole) = true
      <-> s = refunded
          \/ ((s = failed \/ s = delivered) /\ (userRole = "" \/ admin))).
Proof.
  cbv zeta. unfold approveOrder, cancelOrder, refundOrder, transitionOrder.
  pose proof (includes_admin userRole) as Hadm.
  assert (userRole = "" -> ~ (userRole = "super_admin" \/ userRole = "admin"))
    as Hempty by (intros -> [H|H]; discriminate).
  unfold canTransition, roleGiven.
  destruct (String.eqb_spec userRole "") as [He|He];
    destruct (includes ["super_admin"; "admin"] userRole) eqn:Hin;
    destruct (String.eqb_spec userRole "super_admin") as [H1|H1];
    destruct (String.eqb_spec userRole "admin") as [H2|H2];
    try (exfalso; apply Hempty; [exact He|tauto]);
    try (exfalso; destruct (proj1 Hadm eq_refl); contradiction);
    try (exfalso; assert (false = true) as Habs by (apply Hadm; tauto);
         discriminate Habs);
    destruct (Orders.status order); cbn -[includes]; rewrite ?Hin; cbn;
    repeat split; intros; try discriminate; try tauto;
    repeat match goal with
           | H : _ /\ _ |- _ => destruct H
           | H : _ \/ _ |- _ => destruct H
           end; try discriminate; try contradiction; try tauto.
Qed.

(** The text of an inherited member is no key of the table and no member
    name. *)
Lemma inheritedText_unknown (member : string) :
  lookupStatus statusMap (inheritedText member) = None
  /\ inherits (inheritedText member) = false.
Proof.
  unfold inheritedText. destruct (String.eqb member "__proto__").
  - split; reflexivity.
  - generalize (if String.eqb member "constructor" then "Object" else member).
    intros fn. split; vm_compute; reflexivity.
Qed.

Lemma mapProviderStatus_cases (providerStatus : OrInherited string) :
  let s := mapProviderStatusToOrderStatus providerStatus in
  s = Own processing \/ s = Own delivered \/ s = Own failed
  \/ exists member,
       providerStatus = Own member /\ inherits member = true
       /\ lookupStatus statusMap member = None
       /\ s = Inherited member.
Proof.
  cbv zeta. unfold mapProviderStatusToOrderStatus, lookupOr.
  destruct providerStatus as [k|member]; cbn [keyOf].
  - destruct (lookupStatus statusMap k) as [st|] eqn:Hk.
    + unfold lookupStatus, statusMap in Hk. cbn [jsFind fst snd] in Hk.
      repeat match type of Hk with
             | context [String.eqb ?a k] =>
                 destruct (String.eqb a k);
                 [cbn [option_map snd] in Hk; injection Hk as <-; tauto|]
             end.
      discriminate Hk.
    + destruct (inherits k) eqn:Hin; [|tauto].
      do 3 right. exists k. repeat split; assumption.
  - destruct (inheritedText_unknown member) as [-> ->]. tauto.
Qed.

(** X25.  A failure of [fulfillOrder] always ends in failed with no output
    data, and a success carries no error.  The status of a success is
    processing, delivered or failed -- unless the normalized status of
    the provider is the name of a member of [Object.prototype] that the
    table does not list: the status returned is then that member, which
    is no order status.  A provider whose type is not registered gives
    FULFILLMENT_ERROR with the registry's message. *)
Theorem fulfillOrder_outcome
    (providers : Providers.Registry) (order : Orders.Order)
    (service : ServiceManager.Service) (provider : Providers.ProviderConfig) :
  let r := fulfillOrder providers order service provider in
  (f_status r = Own processing \/ f_status r = Own delivered
   \/ f_status r = Own failed
   \/ exists member,
        inherits member = true /\ lookupStatus statusMap member = None
        /\ f_success r = true /\ f_status r = Inherited member)
  /\ (f_success r = false -> f_status r = Own failed /\ f_outputData r = None)
  /\ (f_success r = true -> f_error r = None)
  /\ (providers !! Providers.type provider = None ->
      r = mkFulfillmentResult false (Own failed) None
            (Some (Providers.mkProviderError "FULFILLMENT_ERROR"
                     (Providers.notRegisteredMessage (Providers.type provider))))).
Proof.
  cbv zeta. unfold fulfillOrder, Providers.create.
  split; [|split; [|split]].
  4:{ intros ->. reflexivity. }
  all: destruct (providers !! Providers.type provider) as [cls|]; cbn;
    [|try tauto; try (intros; discriminate); try (split; reflexivity)];
    destruct (Providers.validateInput _ _) as [iv|msg]; cbn;
    [|try tauto; try (intros; discriminate); try (split; reflexivity)];
    destruct (Providers.valid iv); cbn;
    [|try tauto; try (intros; discriminate); try (split; reflexivity)];
    destruct (Providers.placeOrder _ _) as [resp|msg]; cbn;
    [|try tauto; try (intros; discriminate); try (split; reflexivity)];
    destruct (Providers.success resp); cbn;
    [|try tauto; try (intros; discriminate); try (split; reflexivity)];
    destruct (Providers.normalizeStatus _ _) as [ns|msg]; cbn;
    try tauto; try (intros; discriminate); try (split; reflexivity);
    try reflexivity.
  destruct (mapProviderStatus_cases ns) as [H|[H|[H|(m & _ & Hin & Hk & H)]]];
    rewrite H; try tauto.
  do 3 right. exists m. repeat split; assumption.
Qed.

(** A manual provider whose status mapping sends its one status to
    "constructor": the order is fulfilled with a status that is the
    function [Object]. *)
Example fulfillOrder_inherited_status :
  let provider :=
    Providers.mkProviderConfig "provider-1" "Manual desk" "manual" ∅ ∅
      {[ "pending_manual" := "constructor" ]} in
  let order :=
    Orders.mkOrder (Some "o1") "t1" "u1" "service-1" (Some "provider-1")
      "ORD-1" processing ∅ None 10000 1000 11000 0 "USD" None None in
  let r :=
    fulfillOrder
      (Providers.register "manual" (Providers.ManualProvider "1700000000000") ∅)
      order sampleService provider in
  f_success r = true /\ f_status r = Inherited "constructor".
Proof. cbv zeta. split; vm_compute; reflexivity. Qed.

End OrderManagerFacts.

(** ** The provider synchronisation *)
Module ProviderSyncFacts.
Import OrderStateMachine ProviderSync.

Section Sync.

Variable toLowerCase : string -> string.
Variable providers : Providers.Registry.

Local Abbreviation mapStatusOf := (mapProviderStatusToOrderStatus toLowerCase).
Local Abbreviation sync := (syncOrder toLowerCase providers).

Lemma mapStatusOf_cases (s : string) :
  (toLowerCase s = "pending" /\ mapStatusOf (Own s) = Ok (Own processing))
  \/ (toLowerCase s = "processing" /\ mapStatusOf (Own s) = Ok (Own processing))
  \/ (toLowerCase s = "completed" /\ mapStatusOf (Own s) = Ok (Own delivered))
  \/ (toLowerCase s = "delivered" /\ mapStatusOf (Own s) = Ok (Own delivered))
  \/ (toLowerCase s = "success" /\ mapStatusOf (Own s) = Ok (Own delivered))
  \/ (toLowerCase s = "failed" /\ mapStatusOf (Own s) = Ok (Own failed))
  \/ (toLowerCase s = "error" /\ mapStatusOf (Own s) = Ok (Own failed))
  \/ (toLowerCase s = "cancelled" /\ mapStatusOf (Own s) = Ok (Own cancelled))
  \/ (toLowerCase s = "refunded" /\ mapStatusOf (Own s) = Ok (Own refunded))
  \/ (~ In (toLowerCase s) (List.map fst statusMap)
      /\ mapStatusOf (Own s)
         = Ok (if inherits (toLowerCase s) then Inherited (toLowerCase s)
               else Own processing)).
Proof.
  unfold mapProviderStatusToOrderStatus, lookupOr, OrderManager.lookupStatus,
    statusMap.
  cbn [jsFind fst snd List.map].
  repeat match goal with
         | |- context [String.eqb ?a (toLowerCase s)] =>
             destruct (String.eqb_spec a (toLowerCase s)) as [<-|?];
             [cbn; tauto|]
         end.
  cbn [option_map]. do 9 right. split; [|reflexivity]. cbn. intuition congruence.
Qed.

(** What the table can return: one of five statuses, or an inherited
    member. *)
Lemma mapStatusOf_range (providerStatus : OrInherited string)
    (st : OrInherited OrderStatus) :
  mapStatusOf providerStatus = Ok st ->
  st = Own processing \/ st = Own delivered \/ st = Own failed
  \/ st = Own cancelled \/ st = Own refunded
  \/ exists member, st = Inherited member.
Proof.
  destruct providerStatus as [s|member]; [|discriminate].
  destruct (mapStatusOf_cases s) as [H|[H|[H|[H|[H|[H|[H|[H|[H|H]]]]]]]]];
    destruct H as [_ ->]; intros [= <-]; try tauto.
  destruct (inherits (toLowerCase s)); [|tauto].
  do 5 right. eexists; reflexivity.
Qed.

(** X26.  A status the provider reports as a string never maps to pending,
    payment_confirmed or approved: it maps to processing, delivered,
    failed, cancelled or refunded, or -- when its lower-case form is the
    name of a member of [Object.prototype] -- to that member, which is no
    status.  A status the table does not know, and that is no such name,
    maps to processing; the lookup ignores case (when lower-casing is
    idempotent); and on lower-case statuses the map of [OrderManager]
    agrees with this one except on success, cancelled and refunded, which
    [OrderManager] maps to processing.  On a value that is no string this
    map throws where the map of [OrderManager] answers processing. *)
Theorem provider_status_map (s : string) :
  (exists st,
     mapStatusOf (Own s) = Ok st
     /\ (st = Own processing \/ st = Own delivered \/ st = Own failed
         \/ st = Own cancelled \/ st = Own refunded
         \/ (inherits (toLowerCase s) = true
             /\ ~ In (toLowerCase s) (List.map fst statusMap)
             /\ st = Inherited (toLowerCase s))))
  /\ (~ In (toLowerCase s) (List.map fst statusMap) ->
      inherits (toLowerCase s) = false ->
      mapStatusOf (Own s) = Ok (Own processing))
  /\ (toLowerCase (toLowerCase s) = toLowerCase s ->
      mapStatusOf (Own (toLowerCase s)) = mapStatusOf (Own s))
  /\ (toLowerCase s = s ->
      (s <> "success" -> s <> "cancelled" -> s <> "refunded" ->
       Ok (OrderManager.mapProviderStatusToOrderStatus (Own s))
       = mapStatusOf (Own s))
      /\ (s = "success" \/ s = "cancelled" \/ s = "refunded" ->
          OrderManager.mapProviderStatusToOrderStatus (Own s) = Own processing
          /\ mapStatusOf (Own s) <> Ok (Own processing)))
  /\ (forall member,
        mapStatusOf (Inherited member)
        = Err "providerStatus.toLowerCase is not a function"
        /\ OrderManager.mapProviderStatusToOrderStatus (Inherited member)
           = Own processing).
Proof.
  split; [|split; [|split; [|split]]].
  - destruct (mapStatusOf_cases s) as [H|[H|[H|[H|[H|[H|[H|[H|[H|H]]]]]]]]];
      destruct H as [Hk ->]; eexists; (split; [reflexivity|]); try tauto.
    destruct (inherits (toLowerCase s)) eqn:Hin; [|tauto].
    do 5 right. repeat split; assumption.
  - intros Hnot Hin.
    destruct (mapStatusOf_cases s) as [H|[H|[H|[H|[H|[H|[H|[H|[H|H]]]]]]]]];
      destruct H as [Hk Hv]; try (rewrite Hv, Hin; reflexivity);
      exfalso; apply Hnot; rewrite Hk; cbn; tauto.
  - intros Hidem. unfold mapProviderStatusToOrderStatus. rewrite Hidem. reflexivity.
  - intros Hlow.
    assert (mapStatusOf (Own s)
            = Ok (lookupOr (fun _ => true)
                    (OrderManager.lookupStatus statusMap s) s processing))
      as Hsync
      by (unfold mapProviderStatusToOrderStatus; rewrite Hlow; reflexivity).
    rewrite Hsync. clear Hsync Hlow.
    unfold OrderManager.mapProviderStatusToOrderStatus, OrderManager.keyOf,
      lookupOr, OrderManager.lookupStatus, OrderManager.statusMap, statusMap.
    cbn [jsFind fst snd]. split.
    + intros H1 H2 H3.
      repeat match goal with
             | |- context [String.eqb ?a s] =>
                 destruct (String.eqb_spec a s) as [<-|?];
                 [try reflexivity; congruence|]
             end. reflexivity.
    + intros [->|[->| ->]]; cbn; split; (reflexivity || discriminate).
  - intros member. split; [reflexivity|].
    unfold OrderManager.mapProviderStatusToOrderStatus, lookupOr.
    cbn [OrderManager.keyOf].
    destruct (OrderManagerFacts.inheritedText_unknown member) as [-> ->].
    reflexivity.
Qed.

(** X27.  A synchronisation that succeeds only ever proposes a genuine
    status, one the state machine allows from the order's current status,
    taken among processing, delivered, failed, cancelled and refunded; it
    leaves a refunded or cancelled order where it is; and it needs a
    provider order id.  One that fails proposes nothing and says why. *)
Theorem syncOrder_respects_state_machine
    (order : Orders.Order) (provider : Providers.ProviderConfig) :
  (o_success (sync order provider) = true ->
   exists u s,
     o_update (sync order provider) = Some u
     /\ o_error (sync order provider) = None
     /\ orderId u = Orders.id order
     /\ normalizedStatus u = Own s
     /\ allowed (canTransition (Orders.status order) s None) = true
     /\ (s = processing \/ s = delivered \/ s = failed \/ s = cancelled
         \/ s = refunded)
     /\ (Orders.status order = refunded \/ Orders.status order = cancelled ->
         s = Orders.status order)
     /\ (exists i, Orders.providerOrderId order = Some i /\ i <> ""))
  /\ (o_success (sync order provider) = false ->
      o_update (sync order provider) = None
      /\ is_Some (o_error (sync order provider))).
Proof.
  unfold syncOrder.
  destruct (Orders.providerOrderId order) as [i|];
    [|split; [discriminate|intros _; split; [reflexivity|eexists; reflexivity]]].
  destruct (String.eqb_spec i "") as [Hi|Hi];
    [split; [discriminate|intros _; split; [reflexivity|eexists; reflexivity]]|].
  destruct (Providers.create providers provider) as [inst|msg];
    [|split; [discriminate|intros _; split; [reflexivity|eexists; reflexivity]]].
  destruct (Providers.checkStatus inst i) as [resp|msg];
    [|split; [discriminate|intros _; split; [reflexivity|eexists; reflexivity]]].
  destruct (Providers.normalizeStatus inst _) as [ns|msg];
    [|split; [discriminate|intros _; split; [reflexivity|eexists; reflexivity]]].
  destruct (mapStatusOf ns) as [st|msg] eqn:Hmap;
    [|split; [discriminate|intros _; split; [reflexivity|eexists; reflexivity]]].
  cbv zeta.
  destruct st as [s|member]; cbn [canTransitionTo allowed negb];
    [|split; [discriminate|intros _; split; [reflexivity|eexists; reflexivity]]].
  destruct (allowed (canTransition (Orders.status order) s None))
    eqn:Hal; cbn [negb];
    [|split; [discriminate|intros _; split; [reflexivity|eexists; reflexivity]]].
  split; [|discriminate]. intros _. eexists. exists s. split; [reflexivity|].
  cbn [o_error orderId normalizedStatus].
  split; [reflexivity|]. split; [reflexivity|]. split; [reflexivity|].
  split; [exact Hal|].
  assert (s = processing \/ s = delivered \/ s = failed \/ s = cancelled
          \/ s = refunded) as Hrange.
  { destruct (mapStatusOf_range ns (Own s) Hmap)
      as [H|[H|[H|[H|[H|[m H]]]]]]; try (injection H as ->; tauto).
    discriminate H. }
  split; [exact Hrange|].
  split; [|exists i; split; [reflexivity|exact Hi]].
  intros [Hs|Hs]; rewrite Hs in Hal |- *;
    destruct Hrange as [->|[->|[->|[->| ->]]]];
    cbn in Hal; (reflexivity || discriminate Hal).
Qed.

(** The state of the loop of [syncOrders] after a list of orders. *)
Lemma syncOrders_fold (provider : Providers.ProviderConfig)
    (l : list Orders.Order) (errs : list SyncError) (synced failedN : Z) :
  fold_left (syncOrdersStep toLowerCase providers provider) l
            (errs, synced, failedN)
  = ((errs
      ++ List.map (fun o => mkSyncError (Orders.id o)
                              (orDefault (o_error (sync o provider))
                                         "Unknown error"))
           (List.filter (fun o => negb (o_success (sync o provider))) l))%list,
     synced
     + Z.of_nat (length (List.filter (fun o => o_success (sync o provider)) l)),
     failedN
     + Z.of_nat (length (List.filter
                           (fun o => negb (o_success (sync o provider))) l))).
Proof.
  revert errs synced failedN.
  induction l as [|o l IH]; intros errs synced failedN.
  - cbn. rewrite app_nil_r. f_equal; try lia; f_equal; try lia; try reflexivity.
  - cbn [fold_left]. unfold syncOrdersStep at 2.
    cbn [List.filter]. destruct (o_success (sync o provider)); cbn [negb].
    + rewrite IH. cbn [length]. f_equal; try lia; f_equal; try lia; try reflexivity.
    + rewrite IH. cbn [length List.map]. rewrite <- app_assoc. cbn [app].
      f_equal; try lia; f_equal; try lia; try reflexivity.
Qed.

Lemma filter_split_length {A : Type} (p : A -> bool) (l : list A) :
  (length (List.filter p l) + length (List.filter (fun a => negb (p a)) l)
   = length l)%nat.
Proof.
  induction l as [|a l IH]; [reflexivity|].
  cbn [List.filter]. destruct (p a); cbn [negb length]; lia.
Qed.

Lemma syncOrders_counts_sum
    (orders : list Orders.Order) (provider : Providers.ProviderConfig) :
  syncedCount (syncOrders toLowerCase providers orders provider)
  + failedCount (syncOrders toLowerCase providers orders provider)
  = Z.of_nat (length orders).
Proof.
  unfold syncOrders. rewrite syncOrders_fold. cbn.
  pose proof (filter_split_length (fun o => o_success (sync o provider)) orders)
    as Hlen. cbn beta in Hlen. lia.
Qed.

(** X28.  [syncOrders] accounts for every order exactly once: the two counts add
    up to the number of orders, it succeeds exactly when every single
    synchronisation does, and the error list holds one entry per failed
    order, in the order of the input, under the order's id; no error list
    is returned on success. *)
Theorem syncOrders_accounts_for_every_order
    (orders : list Orders.Order) (provider : Providers.ProviderConfig) :
  let r := syncOrders toLowerCase providers orders provider in
  let failing :=
    List.filter (fun o => negb (o_success (sync o provider))) orders in
  syncedCount r + failedCount r = Z.of_nat (length orders)
  /\ failedCount r = Z.of_nat (length failing)
  /\ (success r = true
      <-> forall o, In o orders -> o_success (sync o provider) = true)
  /\ (errors r = None <-> success r = true)
  /\ (forall es, errors r = Some es ->
        List.map e_orderId es = List.map Orders.id failing
        /\ Forall (fun e => e_error e <> "") es).
Proof.
  cbv zeta. unfold syncOrders. rewrite syncOrders_fold. cbn [app].
  set (failing := List.filter (fun o => negb (o_success (sync o provider))) orders).
  set (ok := List.filter (fun o => o_success (sync o provider)) orders).
  assert (failing = [] <-> forall o, In o orders -> o_success (sync o provider) = true)
    as Hall.
  { subst failing. clear. induction orders as [|o l IH]; cbn [List.filter].
    - split; [intros _ o []|reflexivity].
    - destruct (o_success (sync o provider)) eqn:Ho; cbn [negb].
      + rewrite IH. split.
        * intros H x [<-|Hx]; [exact Ho|exact (H x Hx)].
        * intros H x Hx. apply H. right. exact Hx.
      + split; [discriminate|]. intros H.
        specialize (H o (or_introl eq_refl)). congruence. }
  assert (length ok + length failing = length orders)%nat as Hlen
    by exact (filter_split_length (fun o => o_success (sync o provider)) orders).
  destruct (List.map _ failing) as [|e es] eqn:Hmap; cbn.
  - assert (failing = []) as Hnil by (destruct failing; [reflexivity|discriminate]).
    rewrite Hnil in *. cbn [length] in *.
    split; [lia|]. split; [lia|]. split; [|split].
    + split; [intros _; apply Hall; reflexivity|intros _; reflexivity].
    + split; reflexivity.
    + intros es' H. discriminate H.
  - assert (failing <> []) as Hne by (intros H; rewrite H in Hmap; discriminate).
    assert (0 < length failing)%nat as Hpos
      by (destruct failing; [congruence|cbn; lia]).
    split; [lia|]. split; [lia|]. split; [|split].
    + split.
      * intros H. apply Z.eqb_eq in H. lia.
      * intros H. apply Hall in H. congruence.
    + split; [discriminate|]. intros H. apply Z.eqb_eq in H. lia.
    + intros es' H. injection H as <-. split.
      * rewrite <- Hmap, map_map. reflexivity.
      * rewrite <- Hmap. apply Forall_forall. intros x Hx.
        apply list_elem_of_In, in_map_iff in Hx as (o & <- & _). cbn.
        unfold orDefault. destruct (o_error (sync o provider)) as [m|]; [|discriminate].
        destruct (String.eqb_spec m ""); [discriminate|assumption].
Qed.

Lemma jsSlice_batch {A : Type} (l : list A) (n : nat) (b : Z) :
  (n < length l)%nat -> 1 <= b ->
  jsSlice l (Z.of_nat n) (Z.of_nat n + b)
  = firstn (Z.to_nat b) (skipn n l).
Proof.
  intros Hn Hb. unfold jsSlice.
  destruct (Z.of_nat n <? 0) eqn:H1; [lia|].
  destruct (Z.of_nat n + b <? 0) eqn:H2; [lia|].
  rewrite (Z.min_l (Z.of_nat n)) by lia. rewrite Nat2Z.id.
  destruct (Z.min_spec (Z.of_nat n + b) (Z.of_nat (length l))) as [[Hlt ->]|[Hge ->]].
  - f_equal. lia.
  - rewrite !firstn_all2; [reflexivity| |]; rewrite length_skipn; lia.
Qed.

Lemma splitBatches_enough_fuel (orders : list Orders.Order) (b : Z)
    (fuel n : nat) :
  1 <= b -> (length orders - n <= fuel)%nat ->
  exists bs,
    splitBatches fuel orders b (Z.of_nat n) = Some bs
    /\ concat bs = skipn n orders.
Proof.
  intros Hb. revert n. induction fuel as [|fuel IH]; intros n Hfuel.
  - cbn [splitBatches].
    destruct (Z.of_nat n <? Z.of_nat (length orders)) eqn:Hlt; [lia|].
    exists []. split; [reflexivity|]. cbn. symmetry. apply skipn_all2. lia.
  - cbn [splitBatches].
    destruct (Z.of_nat n <? Z.of_nat (length orders)) eqn:Hlt.
    + destruct (IH (n + Z.to_nat b)%nat ltac:(lia)) as (bs & Hbs & Hcat).
      replace (Z.of_nat n + b) with (Z.of_nat (n + Z.to_nat b)) by lia.
      rewrite Hbs. cbn [option_map]. eexists. split; [reflexivity|].
      cbn [concat]. rewrite Hcat.
      replace (Z.of_nat (n + Z.to_nat b)) with (Z.of_nat n + b) by lia.
      rewrite jsSlice_batch by lia.
      rewrite (Nat.add_comm n), <- skipn_skipn. apply firstn_skipn.
    + exists []. split; [reflexivity|]. cbn. symmetry. apply skipn_all2. lia.
Qed.

Lemma splitBatches_never_ends (orders : list Orders.Order) (b i : Z)
    (fuel : nat) :
  b <= 0 -> i <= 0 -> orders <> [] -> splitBatches fuel orders b i = None.
Proof.
  intros Hb Hi Hne.
  assert (0 < length orders)%nat as Hlen
    by (destruct orders; [congruence|cbn [length]; lia]).
  revert i Hi. induction fuel as [|fuel IH]; intros i Hi; cbn [splitBatches];
    (destruct (i <? Z.of_nat (length orders)) eqn:Hlt; [|lia]).
  - reflexivity.
  - rewrite IH by lia. reflexivity.
Qed.

Lemma rateLimit_fold (provider : Providers.ProviderConfig)
    (bs : list (list Orders.Order)) (synced failedN : Z) (errs : list SyncError) :
  fold_left (rateLimitStep toLowerCase providers provider) bs
            (synced, failedN, errs)
  = let '(e, s, f) :=
      fold_left (syncOrdersStep toLowerCase providers provider) (concat bs)
                (errs, synced, failedN) in
    (s, f, e).
Proof.
  revert synced failedN errs. induction bs as [|batch bs IH];
    intros synced failedN errs.
  - reflexivity.
  - cbn [fold_left concat]. rewrite fold_left_app.
    unfold rateLimitStep at 2. unfold syncOrders.
    rewrite !syncOrders_fold. cbn [app].
    rewrite IH. rewrite !syncOrders_fold. cbn [syncedCount failedCount errors].
    destruct (List.map _ (List.filter _ batch)) as [|e es]; cbn;
      rewrite ?app_nil_r; reflexivity.
Qed.

(** X29.  Batching does not change the outcome: for a batch size of at least 1
    the loop that cuts the batches ends (fuel for one batch per order
    suffices) and [syncWithRateLimit] returns what [syncOrders] returns on
    the whole list.  For a batch size of 0 or less and at least one order
    the batching loop never ends. *)
Theorem syncWithRateLimit_same_as_syncOrders
    (orders : list Orders.Order) (provider : Providers.ProviderConfig)
    (batchSize : Z) :
  (1 <= batchSize ->
   forall fuel, (length orders <= fuel)%nat ->
     syncWithRateLimit toLowerCase providers fuel orders provider batchSize
     = Some (syncOrders toLowerCase providers orders provider))
  /\ (batchSize <= 0 -> orders <> [] ->
      forall fuel,
        syncWithRateLimit toLowerCase providers fuel orders provider batchSize
        = None).
Proof.
  split.
  - intros Hb fuel Hfuel. unfold syncWithRateLimit.
    destruct (splitBatches_enough_fuel orders batchSize fuel 0 Hb ltac:(lia))
      as (bs & Hbs & Hcat).
    change (Z.of_nat 0) with 0 in Hbs. rewrite Hbs. cbn [skipn] in Hcat.
    rewrite rateLimit_fold, Hcat. unfold syncOrders.
    destruct (fold_left _ orders _) as [[e sN] fN]. reflexivity.
  - intros Hb Hne fuel. unfold syncWithRateLimit.
    rewrite splitBatches_never_ends by (assumption || lia). reflexivity.
Qed.

End Sync.

Lemma syncWithRateLimit_same_as_syncOrders_witness :
  let orders := [sampleOrder "1" processing; sampleOrder "2" cancelled;
                 sampleOrder "3" failed] in
  syncWithRateLimit ServiceManager.asciiToLowerCase sampleRegistry 3 orders
    sampleProvider 2
  = Some (syncOrders ServiceManager.asciiToLowerCase sampleRegistry orders
            sampleProvider).
Proof.
  cbv zeta.
  apply (proj1 (syncWithRateLimit_same_as_syncOrders
                  ServiceManager.asciiToLowerCase sampleRegistry
                  [sampleOrder "1" processing; sampleOrder "2" cancelled;
                   sampleOrder "3" failed] sampleProvider 2)).
  - lia.
  - cbn. lia.
Defined.

Lemma syncOrder_respects_state_machine_witness :
  exists u,
    o_update (syncOrder ServiceManager.asciiToLowerCase sampleRegistry
                (sampleOrder "3" failed) sampleProvider) = Some u
    /\ normalizedStatus u = Own processing.
Proof.
  destruct (proj1 (syncOrder_respects_state_machine
                     ServiceManager.asciiToLowerCase sampleRegistry
                     (sampleOrder "3" failed) sampleProvider))
    as (u & s & Hu & _); [vm_compute; reflexivity|].
  exists u. split; [exact Hu|].
  vm_compute in Hu. injection Hu as <-. reflexivity.
Defined.

(** A provider that reports the status "constructor": the table returns
    the function [Object], no transition leads to it, and the
    synchronisation fails. *)
Example syncOrder_inherited_status :
  let provider :=
    Providers.mkProviderConfig "provider-1" "Manual desk" "manual" ∅ ∅
      {[ "pending_manual" := "constructor" ]} in
  syncOrder ServiceManager.asciiToLowerCase sampleRegistry
    (sampleOrder "3" failed) provider
  = mkSyncOrderResult false None
      (Some "Invalid status transition: Transition from 'failed' to 'function Object() { [native code] }' is not allowed").
Proof. vm_compute. reflexivity. Qed.

(** The manual provider always answers pending_manual, which the sample
    mapping sends to processing: a processing order stays, a failed order
    is retried, and a cancelled order is left alone with an error. *)
Example syncOrders_sample :
  syncOrders ServiceManager.asciiToLowerCase sampleRegistry
    [sampleOrder "1" processing; sampleOrder "2" cancelled;
     sampleOrder "3" failed] sampleProvider
  = {| success := false; syncedCount := 2; failedCount := 1;
       errors := Some [mkSyncError (Some "2")
         "Invalid status transition: Transition from 'cancelled' to 'processing' is not allowed"] |}.
Proof. vm_compute. reflexivity. Qed.

(** X30.  The statistics are consistent: the orders of the provider that need a
    synchronisation and its delivered orders are disjoint parts of its
    orders, as are its pending, processing, delivered and failed orders;
    and [syncPendingOrders] handles exactly the orders counted in
    [needsSync]. *)
Theorem getSyncStats_consistent
    (toLowerCase : string -> string) (providers : Providers.Registry)
    (orders : list Orders.Order) (provider : Providers.ProviderConfig) :
  let stats := getSyncStats orders (Providers.id provider) in
  let r := syncPendingOrders toLowerCase providers orders provider in
  (needsSync stats + s_delivered stats <= total stats)%nat
  /\ (s_pending stats + s_processing stats + s_delivered stats + s_failed stats
      <= total stats)%nat
  /\ syncedCount r + failedCount r = Z.of_nat (needsSync stats)
  /\ Forall (fun o => isTerminalState (Orders.status o) = false
                      /\ Orders.providerId o = Some (Providers.id provider))
            (getOrdersRequiringSync orders (Providers.id provider)).
Proof.
  cbv zeta. split; [|split; [|split]].
  - unfold getSyncStats, getOrdersRequiringSync.
    cbn [needsSync s_delivered total].
    induction orders as [|o l IH]; [cbn; lia|].
    cbn [List.filter]. unfold requiresSync at 1.
    destruct (Orders.providerId o) as [p|]; cbn [andb]; [|exact IH].
    destruct (String.eqb p (Providers.id provider)); cbn [andb]; [|exact IH].
    cbn [List.filter].
    destruct (Orders.providerOrderId o) as [i|]; cbn [andb];
      [destruct (String.eqb i ""); cbn [negb andb]|];
      destruct (Orders.status o); cbn [isTerminalState negb OrderStatus_eqb length];
      lia.
  - unfold getSyncStats. cbn [s_pending s_processing s_delivered s_failed total].
    induction (List.filter _ orders) as [|o l IH]; [cbn; lia|].
    cbn [List.filter]. destruct (Orders.status o);
      cbn [OrderStatus_eqb length]; lia.
  - unfold syncPendingOrders, getSyncStats, getOrdersRequiringSync.
    cbn [needsSync].
    apply syncOrders_counts_sum.
  - unfold getOrdersRequiringSync. apply Forall_forall. intros o Ho.
    apply list_elem_of_In, filter_In in Ho as [_ Ho]. unfold requiresSync in Ho.
    apply andb_true_iff in Ho as [Ho Ht]. apply andb_true_iff in Ho as [Hp _].
    split; [apply negb_true_iff; exact Ht|].
    destruct (Orders.providerId o) as [p|]; [|discriminate].
    apply String.eqb_eq in Hp. congruence.
Qed.

End ProviderSyncFacts.